(** * remote-protocol-control: link framing, transport codec and waiter table

    A shallow embedding of [core/src/rpc_crc8.c], [core/src/rpc_link.c],
    [core/src/rpc_transport.c] and the entry points of [core/src/rpc.c],
    followed by the properties stated about them.

    Conventions.
    - A [uint8_t], [uint16_t], [uint32_t] or [size_t] value is a [Z]; every
      narrowing store is written out ([u8], [u16], [size_t_of]).
    - A C buffer is a [list Z] holding the bytes of the array; a pointer is
      an [option]: [None] is [NULL].  A pointer into a buffer is an offset.
      [store] and [memcpy] return [None] when they would leave an array, and
      that [None] is propagated.
    - A C string is the list of bytes found at the pointer; [strlen] stops at
      the first zero byte, and a list without one stands for its characters
      followed by the terminator.
    - State that the C code keeps in file-scope variables is threaded
      explicitly.  Each critical section under a mutex is one step.  What
      other threads do while a caller sleeps or blocks, and the outcome of a
      blocking OS call, are given by a [world]; the OS calls made are logged
      in program order. *)

From stdpp Require Import base list numbers.

Local Open Scope Z_scope.

(** ** Fixed-width arithmetic and buffers *)

Definition u8 (x : Z) : Z := x mod 256.
Definition u16 (x : Z) : Z := x mod 65536.
Definition size_t_of (x : Z) : Z := x mod 2 ^ 64.

(** [buf[i] = b]; [None] when the index is outside the array. *)
Definition store (buf : list Z) (i : Z) (b : Z) : option (list Z) :=
  if decide (0 <= i < Z.of_nat (length buf))
  then Some (<[Z.to_nat i := b]> buf)
  else None.

(** [memcpy(&dst[off], src, n)]; [None] when either range leaves its array. *)
Definition memcpy (dst : list Z) (off : Z) (src : list Z) (n : Z)
  : option (list Z) :=
  if decide (0 <= off /\ 0 <= n /\ off + n <= Z.of_nat (length dst)
             /\ n <= Z.of_nat (length src))
  then Some (take (Z.to_nat off) dst ++ take (Z.to_nat n) src
             ++ drop (Z.to_nat (off + n)) dst)
  else None.

(** [p != NULL]. *)
Definition non_null {A : Type} (p : option A) : bool :=
  match p with Some _ => true | None => false end.

(** [strlen]: number of bytes before the first zero byte. *)
Fixpoint strlen_nat (s : list Z) : nat :=
  match s with
  | [] => O
  | c :: s' => if Z.eqb c 0 then O else S (strlen_nat s')
  end.

Definition strlen (s : list Z) : Z := Z.of_nat (strlen_nat s).

(** [memchr(buf, c, n)]: offset of the first [c] among the first [n] bytes. *)
Fixpoint memchr_nat (buf : list Z) (c : Z) (n : nat) : option nat :=
  match n, buf with
  | O, _ => None
  | _, [] => None
  | S n', b :: buf' =>
      if Z.eqb b c then Some O else option_map S (memchr_nat buf' c n')
  end.

(** ** rpc_config.h, rpc_errors.h, rpc_link.h, rpc_transport.h *)

Module Config.
Definition MIN_FUNC_NAME_LEN : Z := 1.
Definition MAX_FUNC_NAME_LEN : Z := 32.
Definition MAX_FUNC_ARGS_RESP_SIZE : Z := 64.
Definition NUM_REG_FUNC : Z := 16.
Definition REQ_TABLE_SIZE : Z := 8.
Definition Q_RPC_REQUEST_DEPTH : Z := 16.
Definition REQ_TIMEOUT_MS_DEFAULT : Z := 200.
Definition HANDLER_TIMEOUT_MS_DEFAULT : Z := 150.

Definition RPC_SUCCESS : Z := 0.
Definition RPC_ERROR : Z := -1.
Definition RPC_ERROR_OVERFLOW : Z := -2.
Definition RPC_ERROR_TIMEOUT : Z := -3.
Definition RPC_ERROR_INVALID_ARGS : Z := -4.

Definition OS_WAIT_FOREVER : Z := 0xFFFFFFFF.

Definition SOF : Z := 0xFA.
Definition SOD : Z := 0xFB.
Definition EOF_ : Z := 0xFE.

Definition HEADER_SIZE : Z := 4.
Definition SOD_SIZE : Z := 1.
Definition CRC_PKT_SIZE : Z := 1.
Definition EOF_SIZE : Z := 1.
Definition TYPE_MSG_SIZE : Z := 1.
Definition SEQ_MSG_SIZE : Z := 1.
Definition TERM_SIZE : Z := 1.

Definition MIN_PAYLOAD_SIZE : Z :=
  TYPE_MSG_SIZE + SEQ_MSG_SIZE + MIN_FUNC_NAME_LEN + TERM_SIZE.
Definition MAX_PAYLOAD_SIZE : Z :=
  TYPE_MSG_SIZE + SEQ_MSG_SIZE + MAX_FUNC_NAME_LEN + TERM_SIZE
  + MAX_FUNC_ARGS_RESP_SIZE.
Definition MAX_PKT_LEN : Z :=
  SOD_SIZE + MAX_PAYLOAD_SIZE + CRC_PKT_SIZE + EOF_SIZE.
Definition MIN_PKT_LEN : Z :=
  SOD_SIZE + MIN_PAYLOAD_SIZE + CRC_PKT_SIZE + EOF_SIZE.

Definition MSG_REQ : Z := 0x0B.
Definition MSG_STREAM : Z := 0x0C.
Definition MSG_RESP : Z := 0x16.
Definition MSG_ERR : Z := 0x21.

Definition CRC8_POLY : Z := 0x07.
Definition CRC8_INIT : Z := 0x00.
End Config.
Import Config.

(** [link_payload_t]: the whole [payload] array travels through the queues,
    only its first [payload_len] bytes are meaningful. *)
Record link_payload_t := Link_payload {
  payload : list Z;
  payload_len : Z
}.

(** ** rpc_crc8.c *)

Module Crc8.
(** One turn of the inner loop: shift out the top bit, fold in [poly]. *)
Definition crc8_bit (poly crc : Z) : Z :=
  let mask := if Z.eqb (Z.land crc 0x80) 0 then 0x00 else 0xFF in
  u8 (Z.lxor (Z.shiftl crc 1) (Z.land poly mask)).

Definition crc8_byte (poly crc d : Z) : Z :=
  Nat.iter 8 (crc8_bit poly) (u8 (Z.lxor crc d)).

Definition crc8_compute (data : list Z) (len : Z) (init poly : Z) : Z :=
  fold_left (crc8_byte poly) (take (Z.to_nat len) data) init.
End Crc8.
Import Crc8.

(** ** rpc_link.c *)

Module Link.

Inductive st_t :=
| ST_WAIT_SOF
| ST_READ_LEN1
| ST_READ_LEN2
| ST_READ_HDRCRC
| ST_WAIT_SOD
| ST_READ_PAYLOAD
| ST_READ_PKTCRC
| ST_WAIT_EOF.

(** The parser context [P].  [P_hdr] is the three-byte array [hdr];
    [P_payload] is the [MAX_PAYLOAD_SIZE]-byte array [payload]. *)
Record parser := Parser {
  P_st : st_t;
  P_length : Z;
  P_hdr : Z * Z * Z;
  P_payload_pos : Z;
  P_payload : list Z
}.

(** The array [hdr] as the bytes [crc8_compute] reads. *)
Definition hdr_bytes (h : Z * Z * Z) : list Z :=
  let '(h0, h1, h2) := h in [h0; h1; h2].

(** [rpc_link_init]: everything zeroed, waiting for SOF. *)
Definition rpc_link_init : parser :=
  Parser ST_WAIT_SOF 0 (0, 0, 0) 0 (replicate (Z.to_nat MAX_PAYLOAD_SIZE) 0).

(** [rpc_link_reset_parser]: [hdr] and [payload] keep their bytes. *)
Definition rpc_link_reset_parser (P : parser) : parser :=
  Parser ST_WAIT_SOF 0 (P_hdr P) 0 (P_payload P).

(** [P.st = s]. *)
Definition set_st (P : parser) (s : st_t) : parser :=
  Parser s (P_length P) (P_hdr P) (P_payload_pos P) (P_payload P).

Section Feed.
(** Contents, on entry, of the uninitialised locals [lp.payload]
    ([ST_WAIT_EOF]) and [tmp] ([ST_READ_PKTCRC]). *)
Variable lp_uninit : list Z.
Variable tmp_uninit : list Z.

(** The body of the [for] loop for one byte [b].  The result is the new
    context and the payloads handed to [os_queue_send(qLinkToTrans, ..)];
    [None] is an access outside an array. *)
Definition feed_byte (P : parser) (b : Z)
  : option (parser * list link_payload_t) :=
  match P_st P with
  | ST_WAIT_SOF =>
      if Z.eqb b SOF then
        let '(_, h1, h2) := P_hdr P in
        Some (Parser ST_READ_LEN1 (P_length P) (b, h1, h2)
                     (P_payload_pos P) (P_payload P), [])
      else Some (P, [])
  | ST_READ_LEN1 =>
      let '(h0, _, h2) := P_hdr P in
      Some (Parser ST_READ_LEN2 (P_length P) (h0, b, h2)
                   (P_payload_pos P) (P_payload P), [])
  | ST_READ_LEN2 =>
      let '(h0, h1, _) := P_hdr P in
      let len := u16 (Z.lor (Z.shiftl b 8) h1) in
      let P1 := Parser (P_st P) len (h0, h1, b)
                       (P_payload_pos P) (P_payload P) in
      if (len <? MIN_PKT_LEN) || (len >? MAX_PKT_LEN) then
        Some (rpc_link_reset_parser P1, [])
      else Some (set_st P1 ST_READ_HDRCRC, [])
  | ST_READ_HDRCRC =>
      let hdr_crc := crc8_compute (hdr_bytes (P_hdr P)) 3
                                  CRC8_INIT CRC8_POLY in
      if negb (Z.eqb hdr_crc b) then Some (rpc_link_reset_parser P, [])
      else Some (set_st P ST_WAIT_SOD, [])
  | ST_WAIT_SOD =>
      if Z.eqb b SOD then
        Some (Parser ST_READ_PAYLOAD (P_length P) (P_hdr P) 0
                     (P_payload P), [])
      else Some (rpc_link_reset_parser P, [])
  | ST_READ_PAYLOAD =>
      let body := size_t_of (P_length P - 3) in
      if (P_payload_pos P <? MAX_PAYLOAD_SIZE)
         && (P_payload_pos P <? body) then
        match store (P_payload P) (P_payload_pos P) b with
        | None => None
        | Some pl =>
            let pos := P_payload_pos P + 1 in
            let P1 := Parser (P_st P) (P_length P) (P_hdr P) pos pl in
            if Z.eqb pos body then Some (set_st P1 ST_READ_PKTCRC, [])
            else Some (P1, [])
        end
      else Some (rpc_link_reset_parser P, [])
  | ST_READ_PKTCRC =>
      match store tmp_uninit 0 SOD
            ≫= (λ tmp0, memcpy tmp0 1 (P_payload P) (P_payload_pos P)) with
      | None => None
      | Some tmp =>
          let pkt_crc := crc8_compute tmp (P_payload_pos P + 1)
                                      CRC8_INIT CRC8_POLY in
          if negb (Z.eqb pkt_crc b) then
            Some (rpc_link_reset_parser P, [])
          else Some (set_st P ST_WAIT_EOF, [])
      end
  | ST_WAIT_EOF =>
      if Z.eqb b EOF_ then
        match memcpy lp_uninit 0 (P_payload P) (P_payload_pos P) with
        | None => None
        | Some buf =>
            Some (rpc_link_reset_parser P,
                  [Link_payload buf (P_payload_pos P)])
        end
      else Some (rpc_link_reset_parser P, [])
  end.

(** The [for] loop over the bytes still to be read. *)
Fixpoint feed_loop (P : parser) (bs : list Z)
  : option (parser * list link_payload_t) :=
  match bs with
  | [] => Some (P, [])
  | b :: bs' =>
      match feed_byte P b with
      | None => None
      | Some (P1, out1) =>
          match feed_loop P1 bs' with
          | None => None
          | Some (P2, out2) => Some (P2, out1 ++ out2)
          end
      end
  end.

Definition rpc_link_feed_bytes (P : parser) (d : list Z) (n : Z)
  : option (parser * list link_payload_t) :=
  feed_loop P (take (Z.to_nat n) d).

(** Successive calls of [rpc_link_feed_bytes], one per chunk. *)
Fixpoint feed_chunks (P : parser) (chunks : list (list Z))
  : option (parser * list link_payload_t) :=
  match chunks with
  | [] => Some (P, [])
  | c :: cs =>
      match rpc_link_feed_bytes P c (Z.of_nat (length c)) with
      | None => None
      | Some (P1, out1) =>
          match feed_chunks P1 cs with
          | None => None
          | Some (P2, out2) => Some (P2, out1 ++ out2)
          end
      end
  end.
End Feed.

(** The bytes [rpc_link_build_frame] assembles in its local [frame] for
    the first [len] bytes of [pl]. *)
Definition frame_of (pl : list Z) (len : Z) : list Z :=
  let L := u16 (len + 3) in
  let hdr := [SOF; u8 (Z.land L 0xFF); u8 (Z.shiftr L 8)] in
  let hdr_crc := crc8_compute hdr 3 CRC8_INIT CRC8_POLY in
  let frame := hdr ++ [hdr_crc] ++ [SOD] ++ take (Z.to_nat len) pl in
  let pkt_crc := crc8_compute (drop 4 frame) (len + 1)
                              CRC8_INIT CRC8_POLY in
  frame ++ [pkt_crc] ++ [EOF_].

(** [rpc_link_build_frame]: the return code and the frames handed to
    [rpc_phy_send], whose result is [phy_res]. *)
Definition rpc_link_build_frame (phy_res : Z)
           (pl : option (list Z)) (len : Z) : Z * list (list Z) :=
  match pl with
  | None => (RPC_ERROR, [])
  | Some bytes =>
      if (len >? MAX_PAYLOAD_SIZE) || (len <? MIN_PAYLOAD_SIZE) then
        (RPC_ERROR, [])
      else
        let frame := frame_of bytes len in
        if phy_res <? 0 then (RPC_ERROR, [frame])
        else (RPC_SUCCESS, [frame])
  end.

End Link.

Import Link.

(** ** rpc_transport.c: message codec *)

Module Codec.

(** The message type is one of REQ, RESP, ERR, STREAM. *)
Definition valid_type (t : Z) : bool :=
  (t =? MSG_REQ) || (t =? MSG_RESP) || (t =? MSG_ERR) || (t =? MSG_STREAM).

(** [rpc_trans_build_msg]: the returned size and the contents of [out]
    afterwards ([out] and [name] are pointers, [None] is [NULL]).  The
    outer [None] is an access outside [out] or [args]. *)
Definition rpc_trans_build_msg (type seq : Z) (name : option (list Z))
           (args : option (list Z)) (alen : Z)
           (out : option (list Z)) (olen : Z) : option (Z * option (list Z)) :=
  match out, name with
  | Some buf, Some nm =>
      if negb (valid_type type) then Some (0, out) else
      let nlen := strlen nm in
      if (nlen <? MIN_FUNC_NAME_LEN) || (nlen >? MAX_FUNC_NAME_LEN)
      then Some (0, out) else
      if alen >? MAX_FUNC_ARGS_RESP_SIZE then Some (0, out) else
      let need := TYPE_MSG_SIZE + SEQ_MSG_SIZE + nlen + TERM_SIZE + alen in
      if (need <? MIN_PAYLOAD_SIZE) || (need >? MAX_PAYLOAD_SIZE)
      then Some (0, out) else
      if need >? olen then Some (0, out) else
      let pos := 0 in
      buf ← store buf pos type; let pos := pos + 1 in
      buf ← store buf pos seq; let pos := pos + 1 in
      buf ← memcpy buf pos nm nlen; let pos := pos + nlen in
      buf ← store buf pos 0; let pos := pos + 1 in
      match args with
      | Some a =>
          if alen =? 0 then Some (pos, Some buf)
          else buf ← memcpy buf pos a alen; Some (pos + alen, Some buf)
      | None => Some (pos, Some buf)
      end
  | _, _ => Some (0, out)
  end.

(** The output parameters of [rpc_trans_parse_msg]; [o_name] and [o_args]
    point into the input buffer and are kept as offsets. *)
Record parse_out := Parse_out {
  o_type : Z;
  o_seq : Z;
  o_name : option Z;
  o_args : option Z;
  o_alen : Z
}.

(** [rpc_trans_parse_msg], called with non-null output pointers whose
    targets hold [o].  The outer [None] is a read past the end of [in]. *)
Definition rpc_trans_parse_msg (inb : option (list Z)) (ilen : Z)
           (o : parse_out) : option (Z * parse_out) :=
  match inb with
  | None => Some (RPC_ERROR, o)
  | Some buf =>
      if (ilen <? MIN_PAYLOAD_SIZE) || (ilen >? MAX_PAYLOAD_SIZE)
      then Some (RPC_ERROR, o) else
      t ← buf !! 0%nat;
      s ← buf !! 1%nat;
      if negb (valid_type t) then Some (RPC_ERROR, o) else
      let o := Parse_out t s (o_name o) (o_args o) (o_alen o) in
      let name_start := 2 in
      if name_start >=? ilen then Some (RPC_ERROR, o) else
      (* memchr scans [ilen - name_start] bytes of [in] *)
      if decide (ilen <= Z.of_nat (length buf)) then
        match memchr_nat (drop (Z.to_nat name_start) buf) 0
                         (Z.to_nat (ilen - name_start)) with
        | None => Some (RPC_ERROR, o)
        | Some term =>
            let nlen := Z.of_nat term in
            if (nlen <? MIN_FUNC_NAME_LEN) || (nlen >? MAX_FUNC_NAME_LEN)
            then Some (RPC_ERROR, o) else
            let o := Parse_out t s (Some name_start) (o_args o) (o_alen o) in
            let i := name_start + nlen + 1 in
            if i >? ilen then Some (RPC_ERROR, o) else
            let arg_len := ilen - i in
            if arg_len >? MAX_FUNC_ARGS_RESP_SIZE then Some (RPC_ERROR, o) else
            Some (RPC_SUCCESS,
                  Parse_out t s (Some name_start) (Some i) (u16 arg_len))
        end
      else None
  end.

(** What the returned pointers designate: the C string at an offset and
    [n] bytes at an offset. *)
Definition c_string_at (buf : list Z) (off : Z) : list Z :=
  let tail := drop (Z.to_nat off) buf in take (strlen_nat tail) tail.

(** The [n] bytes at offset [off]. *)
Definition bytes_at (buf : list Z) (off n : Z) : list Z :=
  take (Z.to_nat n) (drop (Z.to_nat off) buf).

End Codec.
Import Codec.

(** ** rpc_transport.c: function registry *)

Module Registry.

(** [rpc_fn_t]: a handler receives [args], [alen], the contents of [out],
    [out_capacity], the value at [out_len] and [timeout_ms]; it returns its
    result code with the new contents of [out] and of [*out_len]. *)
Definition rpc_fn_t : Type :=
  option (list Z) -> Z -> list Z -> Z -> Z -> Z -> Z * list Z * Z.

(** [reg_entry_t]: the name pointer and the handler pointer. *)
Record reg_entry_t := Reg_entry {
  reg_name : option (list Z);
  reg_fn : option rpc_fn_t
}.

(** The array [s_reg] and the counter [s_reg_count]. *)
Record registry := Reg {
  s_reg : list reg_entry_t;
  s_reg_count : Z
}.

(** Static storage: an empty table. *)
Definition registry_init : registry :=
  Reg (replicate (Z.to_nat NUM_REG_FUNC) (Reg_entry None None)) 0.

(** [register_fn]: the return code and the registry afterwards. *)
Definition register_fn (R : registry) (name : option (list Z))
           (fn : option rpc_fn_t) : Z * registry :=
  if s_reg_count R <? NUM_REG_FUNC then
    (RPC_SUCCESS,
     Reg (<[Z.to_nat (s_reg_count R) := Reg_entry name fn]> (s_reg R))
         (s_reg_count R + 1))
  else (RPC_ERROR, R).

(** [strncmp(s, t, n) == 0]. *)
Fixpoint strncmp_eq (s t : list Z) (n : nat) : bool :=
  match n with
  | O => true
  | S n' =>
      match s, t with
      | [], [] => true
      | [], c :: _ | c :: _, [] => Z.eqb c 0
      | a :: s', b :: t' =>
          if Z.eqb a b then (if Z.eqb a 0 then true else strncmp_eq s' t' n')
          else false
      end
  end.

(** The loop of [find_reg] from index [i] on: the index of the first entry
    whose name compares equal, [RPC_ERROR] when the loop runs out.  [None]
    is [strncmp] reading through the null name pointer of an entry, which
    the loop does when it reaches such an entry before any match. *)
Fixpoint find_reg_from (entries : list reg_entry_t) (i : Z) (name : list Z)
  : option Z :=
  match entries with
  | [] => Some RPC_ERROR
  | e :: entries' =>
      nm ← reg_name e;
      if strncmp_eq nm name (Z.to_nat MAX_FUNC_NAME_LEN) then Some i
      else find_reg_from entries' (i + 1) name
  end.

Definition find_reg (R : registry) (name : list Z) : option Z :=
  find_reg_from (take (Z.to_nat (s_reg_count R)) (s_reg R)) 0 name.

(** [handler_fn_ping] of [examples/ping_pong.c]. *)
Definition handler_fn_ping : rpc_fn_t :=
  fun _ _ out out_capacity out_len _ =>
    let resp := [112; 111; 110; 103] in
    let need := strlen resp in
    if need >? out_capacity then (RPC_ERROR_OVERFLOW, out, out_len)
    else (RPC_SUCCESS, resp ++ drop (Z.to_nat need) out, u16 need).

End Registry.
Import Registry.

(** ** rpc_transport.c: waiter table and request path *)

Module Transport.

(** A waiter slot.  [w_done] is the count of the binary semaphore [done].
    [w_resp_buf] and [w_resp_len] are the caller's pointers; the memory they
    point to is kept with the pointer, so a write through the pointer is a
    write to the field. *)
Record waiter_t := Waiter {
  w_seq : Z;
  w_done : bool;
  w_result_code : Z;
  w_resp_buf : option (list Z);
  w_resp_len : option Z;
  w_resp_buf_cap : Z;
  w_in_use : bool
}.

(** Assignments to the fields of a slot. *)
Definition set_in_use (b : bool) (w : waiter_t) : waiter_t :=
  Waiter (w_seq w) (w_done w) (w_result_code w) (w_resp_buf w) (w_resp_len w)
         (w_resp_buf_cap w) b.
Definition set_seq (s : Z) (w : waiter_t) : waiter_t :=
  Waiter s (w_done w) (w_result_code w) (w_resp_buf w) (w_resp_len w)
         (w_resp_buf_cap w) (w_in_use w).
Definition set_done (b : bool) (w : waiter_t) : waiter_t :=
  Waiter (w_seq w) b (w_result_code w) (w_resp_buf w) (w_resp_len w)
         (w_resp_buf_cap w) (w_in_use w).
Definition set_result_code (rc : Z) (w : waiter_t) : waiter_t :=
  Waiter (w_seq w) (w_done w) rc (w_resp_buf w) (w_resp_len w)
         (w_resp_buf_cap w) (w_in_use w).
Definition set_resp_buf (p : option (list Z)) (w : waiter_t) : waiter_t :=
  Waiter (w_seq w) (w_done w) (w_result_code w) p (w_resp_len w)
         (w_resp_buf_cap w) (w_in_use w).
Definition set_resp_len (p : option Z) (w : waiter_t) : waiter_t :=
  Waiter (w_seq w) (w_done w) (w_result_code w) (w_resp_buf w) p
         (w_resp_buf_cap w) (w_in_use w).
Definition set_resp_buf_cap (c : Z) (w : waiter_t) : waiter_t :=
  Waiter (w_seq w) (w_done w) (w_result_code w) (w_resp_buf w) (w_resp_len w)
         c (w_in_use w).

(** [rpc_request_t], the record queued for the workers. *)
Record rpc_request_t := Rpc_request {
  req_type : Z;
  req_seq : Z;
  req_name : list Z;
  req_args : list Z;
  req_alen : Z
}.

(** The file-scope state of the transport layer: the waiter table, the
    static counter of [rpc_trans_alloc_waiter] and the two queues the
    transport writes. *)
Record trans_state := Trans {
  s_wait : list waiter_t;
  s_next_seq : Z;
  qTransToLink : list link_payload_t;
  qRpcRequests : list rpc_request_t
}.

(** The state with another waiter table, and with slot [i] updated. *)
Definition with_wait (ws : list waiter_t) (st : trans_state) : trans_state :=
  Trans ws (s_next_seq st) (qTransToLink st) (qRpcRequests st).

Definition upd_waiter (i : nat) (f : waiter_t -> waiter_t)
           (st : trans_state) : trans_state :=
  with_wait (alter f i (s_wait st)) st.

(** [rpc_trans_init]: static storage is zeroed, [rpc_trans_init_waiter]
    clears [in_use] and creates the semaphores empty, [s_next_seq] starts
    at 1 and the queues are empty. *)
Definition rpc_trans_init : trans_state :=
  Trans (replicate (Z.to_nat REQ_TABLE_SIZE)
                   (Waiter 0 false 0 None None 0 false))
        1 [] [].

(** One turn of the [attempt] loop of [rpc_trans_alloc_waiter], from
    [os_mutex_lock] to [os_mutex_unlock]: the candidate sequence is taken
    and the counter advanced before the table is scanned. *)
Definition alloc_attempt (st : trans_state)
  : option (Z * nat) * trans_state :=
  let s := s_next_seq st in
  let next := u8 (s + 1) in
  let next := if next =? 0 then 1 else next in
  match list_find (fun w => w_in_use w = false) (s_wait st) with
  | Some (i, _) =>
      (Some (s, i),
       Trans (alter (fun w => set_seq s (set_in_use true w)) i (s_wait st))
             next (qTransToLink st) (qRpcRequests st))
  | None =>
      (None, Trans (s_wait st) next (qTransToLink st) (qRpcRequests st))
  end.

(** The scan of [rpc_trans_find_waiter] from slot [i] on; without a
    [break], the last matching slot is the one returned. *)
Fixpoint find_waiter_from (ws : list waiter_t) (i : nat) (seq : Z)
         (ret : option nat) : option nat :=
  match ws with
  | [] => ret
  | w :: ws' =>
      find_waiter_from ws' (S i) seq
        (if w_in_use w && (w_seq w =? seq) then Some i else ret)
  end.

(** [rpc_trans_find_waiter]: the slot found, [None] for [NULL]. *)
Definition rpc_trans_find_waiter (st : trans_state) (seq : Z) : option nat :=
  find_waiter_from (s_wait st) 0 seq None.

(** [rpc_trans_free_waiter]: a null [w] is ignored. *)
Definition rpc_trans_free_waiter (st : trans_state) (w : option nat)
  : trans_state :=
  match w with
  | None => st
  | Some i => upd_waiter i (set_in_use false) st
  end.

(** The atomic steps on the waiter table, each taken under [s_wait_mtx]:
    one turn of the allocation loop by some caller, or
    [rpc_trans_free_waiter] on slot [i]. *)
Inductive waiter_op :=
| Op_alloc
| Op_free (i : nat).

(** The table after one such step. *)
Definition waiter_step (st : trans_state) (op : waiter_op) : trans_state :=
  match op with
  | Op_alloc => snd (alloc_attempt st)
  | Op_free i => rpc_trans_free_waiter st (Some i)
  end.

(** An interleaving of such steps, run from a given state. *)
Definition run_ops (ops : list waiter_op) (st : trans_state) : trans_state :=
  fold_left waiter_step ops st.

(** [strncpy(dst, src, n)]: the characters of [src], at most [n], padded
    with zero bytes up to [n]. *)
Definition strncpy (dst src : list Z) (n : nat) : list Z :=
  take n (take (strlen_nat src) src ++ replicate n 0) ++ drop n dst.

(** The writes of [rpc_trans_handle_incoming], in program order: through
    the pointers of waiter slot [i], to its result code, to its semaphore,
    and to the workers' queue. *)
Inductive effect :=
| Wr_resp_buf (i : nat) (src : list Z) (n : Z)
| Wr_resp_len (i : nat) (v : Z)
| Wr_result_code (i : nat) (rc : Z)
| Sem_give (i : nat)
| Send_request (req : rpc_request_t).

(** One write carried out; [None] when [memcpy] would leave a buffer or
    the pointer written through is null. *)
Definition exec_effect (st : trans_state) (e : effect)
  : option trans_state :=
  match e with
  | Wr_resp_buf i src n =>
      w ← s_wait st !! i;
      buf ← w_resp_buf w;
      buf' ← memcpy buf 0 src n;
      Some (upd_waiter i (set_resp_buf (Some buf')) st)
  | Wr_resp_len i v =>
      w ← s_wait st !! i;
      _ ← w_resp_len w;
      Some (upd_waiter i (set_resp_len (Some (u16 v))) st)
  | Wr_result_code i rc => Some (upd_waiter i (set_result_code rc) st)
  | Sem_give i => Some (upd_waiter i (set_done true) st)
  | Send_request req =>
      (* os_queue_send(qRpcRequests, &req, 0): dropped when the queue is full *)
      if Z.of_nat (length (qRpcRequests st)) <? Q_RPC_REQUEST_DEPTH then
        Some (Trans (s_wait st) (s_next_seq st) (qTransToLink st)
                    (qRpcRequests st ++ [req]))
      else Some st
  end.

(** The writes carried out one after the other. *)
Fixpoint exec_effects (st : trans_state) (es : list effect)
  : option trans_state :=
  match es with
  | [] => Some st
  | e :: es' => st1 ← exec_effect st e; exec_effects st1 es'
  end.

(** The RESP / ERR branch of [rpc_trans_handle_incoming] once the waiter
    [w] in slot [i] has been found; [args] is the tail of the input buffer
    from the arguments pointer on. *)
Definition completion (i : nat) (w : waiter_t) (type : Z)
           (args : list Z) (alen : Z) : list effect :=
  let rc := if type =? MSG_RESP then RPC_SUCCESS else RPC_ERROR in
  if alen >? w_resp_buf_cap w then
    [Wr_result_code i RPC_ERROR_OVERFLOW]
    ++ (if non_null (w_resp_len w) then [Wr_resp_len i 0] else [])
    ++ [Sem_give i]
  else
    (if non_null (w_resp_buf w) && (alen >? 0)
     then [Wr_resp_buf i args alen] else [])
    ++ (if non_null (w_resp_len w) then [Wr_resp_len i alen] else [])
    ++ [Wr_result_code i rc]
    ++ [Sem_give i].

(** The writes [rpc_trans_handle_incoming] performs on payload [p] of
    [n] bytes.  The outer [None] is an access outside a buffer. *)
Definition incoming_effects (st : trans_state) (p : option (list Z)) (n : Z)
  : option (list effect) :=
  '(rc, o) ← rpc_trans_parse_msg p n (Parse_out 0 0 None None 0);
  if negb (rc =? 0) then Some [] else
  let buf := default [] p in
  let args := drop (Z.to_nat (default 0 (o_args o))) buf in
  let name := drop (Z.to_nat (default 0 (o_name o))) buf in
  if (o_type o =? MSG_RESP) || (o_type o =? MSG_ERR) then
    match rpc_trans_find_waiter st (o_seq o) with
    | Some i =>
        w ← s_wait st !! i;
        Some (completion i w (o_type o) args (o_alen o))
    | None => Some []
    end
  else if (o_type o =? MSG_REQ) || (o_type o =? MSG_STREAM) then
    req_args ← memcpy (replicate (Z.to_nat MAX_FUNC_ARGS_RESP_SIZE) 0) 0
                  args (o_alen o);
    Some [Send_request
            (Rpc_request (o_type o) (o_seq o)
               (strncpy (replicate (Z.to_nat (MAX_FUNC_NAME_LEN + 1)) 0) name
                        (Z.to_nat MAX_FUNC_NAME_LEN))
               req_args (o_alen o))]
  else Some [].

(** [rpc_trans_handle_incoming]: the state it leaves and its writes. *)
Definition rpc_trans_handle_incoming (st : trans_state)
           (p : option (list Z)) (n : Z)
  : option (trans_state * list effect) :=
  es ← incoming_effects st p n;
  st' ← exec_effects st es;
  Some (st', es).

(** The blocking calls a caller of [rpc_trans_request] or
    [rpc_trans_stream] makes into the OS layer, with their outcome. *)
Inductive os_call :=
| Os_delay_ms (ms : Z)
| Os_queue_send_TransToLink (lp : link_payload_t) (timeout_ms : Z) (ok : bool)
| Os_sem_take (w : nat) (timeout_ms : Z) (ok : bool).

(** What the caller of [rpc_trans_request] or [rpc_trans_stream] cannot
    control: the bytes of its uninitialised local [lp.payload], what the
    other threads do to the transport state while it sleeps in
    [os_delay_ms] or blocks in [os_sem_take], and whether
    [os_queue_send(qTransToLink, ..)] succeeds. *)
Record world := World {
  W_lp_uninit : list Z;
  W_on_delay : trans_state -> trans_state;
  W_queue_send_ok : bool;
  W_on_sem_wait : nat -> Z -> trans_state -> trans_state
}.

(** [rpc_trans_alloc_waiter]: up to [attempts] turns, sleeping 1 ms after
    each failed one. *)
Fixpoint alloc_waiter_loop (W : world) (attempts : nat) (st : trans_state)
  : (Z * option (Z * nat)) * trans_state * list os_call :=
  match attempts with
  | O => ((RPC_ERROR, None), st, [])
  | S n =>
      match alloc_attempt st with
      | (Some sw, st1) => ((RPC_SUCCESS, Some sw), st1, [])
      | (None, st1) =>
          let '(r, st2, log) := alloc_waiter_loop W n (W_on_delay W st1) in
          (r, st2, Os_delay_ms 1 :: log)
      end
  end.

(** [rpc_trans_alloc_waiter]: return code, sequence and slot handed out,
    state, and OS calls. *)
Definition rpc_trans_alloc_waiter (W : world) (st : trans_state)
  : (Z * option (Z * nat)) * trans_state * list os_call :=
  alloc_waiter_loop W 255 st.

(** [qTransToLink] with one more payload at its end. *)
Definition enqueue (lp : link_payload_t) (st : trans_state) : trans_state :=
  Trans (s_wait st) (s_next_seq st) (qTransToLink st ++ [lp])
        (qRpcRequests st).

(** [os_queue_send(qTransToLink, &lp, OS_WAIT_FOREVER)]. *)
Definition send_TransToLink (W : world) (lp : link_payload_t)
           (st : trans_state) : bool * trans_state * list os_call :=
  if W_queue_send_ok W then
    (true, enqueue lp st,
     [Os_queue_send_TransToLink lp OS_WAIT_FOREVER true])
  else (false, st, [Os_queue_send_TransToLink lp OS_WAIT_FOREVER false]).

(** [os_sem_take(w->done, timeout_ms)]: the other threads run for at most
    [timeout_ms]; the take succeeds when the semaphore has been given and
    then empties it. *)
Definition sem_take (W : world) (i : nat) (timeout_ms : Z)
           (st : trans_state) : option (bool * trans_state * list os_call) :=
  let st1 := W_on_sem_wait W i timeout_ms st in
  w ← s_wait st1 !! i;
  if w_done w then
    Some (true, upd_waiter i (set_done false) st1,
          [Os_sem_take i timeout_ms true])
  else Some (false, st1, [Os_sem_take i timeout_ms false]).

(** The result of [rpc_trans_request]: the return code, the caller's
    [resp_buf] and [*resp_len] afterwards, the transport state and the OS
    calls made. *)
Record request_result := Request_result {
  r_rc : Z;
  r_resp_buf : option (list Z);
  r_resp_len : option Z;
  r_state : trans_state;
  r_log : list os_call
}.

(** The caller's memory as seen through waiter slot [i]. *)
Definition finish (rc : Z) (i : nat) (st : trans_state)
           (log : list os_call) : option request_result :=
  w ← s_wait st !! i;
  Some (Request_result rc (w_resp_buf w) (w_resp_len w)
                       (rpc_trans_free_waiter st (Some i)) log).

(** The end of [rpc_trans_request], from the wait for the response on,
    for the caller parked on waiter slot [i]. *)
Definition await_response (W : world) (i : nat) (timeout_ms : Z)
           (st : trans_state) (log : list os_call) : option request_result :=
  let actual_timeout :=
    if timeout_ms =? 0 then REQ_TIMEOUT_MS_DEFAULT else timeout_ms in
  '(taken, st1, log1) ← sem_take W i actual_timeout st;
  if negb taken then finish RPC_ERROR i st1 (log ++ log1)
  else
    w ← s_wait st1 !! i;
    finish (w_result_code w) i st1 (log ++ log1).

(** [rpc_trans_request]. *)
Definition rpc_trans_request (W : world) (st : trans_state)
           (name : option (list Z)) (args : option (list Z)) (args_len : Z)
           (resp_buf : option (list Z)) (resp_len : option Z)
           (timeout_ms : Z) : option request_result :=
  let fail st log := Some (Request_result RPC_ERROR resp_buf resp_len st log) in
  match name with
  | None => fail st []
  | Some nm =>
      let nlen := strlen nm in
      if (nlen <? MIN_FUNC_NAME_LEN) || (nlen >? MAX_FUNC_NAME_LEN)
      then fail st [] else
      match resp_buf, resp_len with
      | Some _, Some cap =>
          if cap <? MAX_FUNC_ARGS_RESP_SIZE then fail st [] else
          match rpc_trans_alloc_waiter W st with
          | ((_, None), st1, log1) => fail st1 log1
          | ((_, Some (seq, i)), st1, log1) =>
              let st2 :=
                upd_waiter i (fun w => set_resp_buf_cap cap
                                         (set_resp_len resp_len
                                            (set_resp_buf resp_buf w))) st1 in
              '(len, buf) ← rpc_trans_build_msg MSG_REQ seq name args args_len
                              (Some (W_lp_uninit W)) MAX_PAYLOAD_SIZE;
              if len =? 0 then finish RPC_ERROR i st2 log1 else
              let lp := Link_payload (default [] buf) len in
              let '(sent, st3, log2) := send_TransToLink W lp st2 in
              if negb sent then finish RPC_ERROR i st3 (log1 ++ log2) else
              await_response W i timeout_ms st3 (log1 ++ log2)
          end
      | _, _ => fail st []
      end
  end.

(** [rpc_trans_stream]: the return code, the transport state and the OS
    calls made. *)
Definition rpc_trans_stream (W : world) (st : trans_state)
           (name : option (list Z)) (args : option (list Z)) (args_len : Z)
  : option (Z * trans_state * list os_call) :=
  match name with
  | None => Some (RPC_ERROR, st, [])
  | Some nm =>
      let nlen := strlen nm in
      if (nlen <? MIN_FUNC_NAME_LEN) || (nlen >? MAX_FUNC_NAME_LEN)
      then Some (RPC_ERROR, st, []) else
      '(len, buf) ← rpc_trans_build_msg MSG_STREAM 0 name args args_len
                      (Some (W_lp_uninit W)) MAX_PAYLOAD_SIZE;
      if len =? 0 then Some (RPC_ERROR, st, []) else
      let lp := Link_payload (default [] buf) len in
      let '(sent, st1, log) := send_TransToLink W lp st in
      if negb sent then Some (RPC_ERROR, st1, log)
      else Some (RPC_SUCCESS, st1, log)
  end.

End Transport.
Import Transport.

(** ** rpc.c: the public entry points *)

Module Api.

Definition rpc_register (R : registry) (name : option (list Z))
           (fn : option rpc_fn_t) : Z * registry :=
  register_fn R name fn.

Definition rpc_request (W : world) (st : trans_state)
           (name : option (list Z)) (args : option (list Z)) (args_len : Z)
           (resp_buf : option (list Z)) (resp_len : option Z)
           (timeout_ms : Z) : option request_result :=
  rpc_trans_request W st name args args_len resp_buf resp_len timeout_ms.

Definition rpc_stream (W : world) (st : trans_state)
           (name : option (list Z)) (args : option (list Z)) (args_len : Z)
  : option (Z * trans_state * list os_call) :=
  rpc_trans_stream W st name args args_len.

End Api.
Import Api.

(** * Vocabulary of the properties *)

(** ** Link layer *)

(** Array shapes that every context keeps. *)
Definition parser_wf (P : parser) : Prop :=
  length (P_payload P) = Z.to_nat MAX_PAYLOAD_SIZE
  /\ 0 <= P_payload_pos P <= MAX_PAYLOAD_SIZE.

(** The validation failures of the frame format, read off the context and
    the incoming byte: a length outside [[MIN_PKT_LEN, MAX_PKT_LEN]], a
    header CRC mismatch, a byte other than SOD where SOD is due, a payload
    overflow, a packet CRC mismatch, a byte other than EOF where EOF is
    due. *)
Inductive validation_failure (P : parser) (b : Z) : Prop :=
| VF_length :
    P_st P = ST_READ_LEN2 ->
    (let len := u16 (Z.lor (Z.shiftl b 8) (snd (fst (P_hdr P)))) in
     len < MIN_PKT_LEN \/ MAX_PKT_LEN < len) ->
    validation_failure P b
| VF_hdr_crc :
    P_st P = ST_READ_HDRCRC ->
    crc8_compute (hdr_bytes (P_hdr P)) 3 CRC8_INIT CRC8_POLY <> b ->
    validation_failure P b
| VF_sod :
    P_st P = ST_WAIT_SOD -> b <> SOD -> validation_failure P b
| VF_overflow :
    P_st P = ST_READ_PAYLOAD ->
    ~ (P_payload_pos P < MAX_PAYLOAD_SIZE
       /\ P_payload_pos P < size_t_of (P_length P - 3)) ->
    validation_failure P b
| VF_pkt_crc :
    P_st P = ST_READ_PKTCRC ->
    crc8_compute (SOD :: take (Z.to_nat (P_payload_pos P)) (P_payload P))
                 (P_payload_pos P + 1) CRC8_INIT CRC8_POLY <> b ->
    validation_failure P b
| VF_eof :
    P_st P = ST_WAIT_EOF -> b <> EOF_ -> validation_failure P b.

(** ** Transport codec *)

(** The bytes [rpc_trans_build_msg] copies after the terminator. *)
Definition copied_args (args : option (list Z)) (alen : Z) : list Z :=
  match args with
  | Some a => if alen =? 0 then [] else take (Z.to_nat alen) a
  | None => []
  end.

(** The message queued for a call with a null arguments pointer: header,
    name and terminator over the caller's uninitialised local. *)
Definition bare_message (W : world) (type seq : Z) (name : list Z)
  : link_payload_t :=
  Link_payload
    (type :: seq :: name
     ++ 0 :: drop (Z.to_nat (3 + Z.of_nat (length name))) (W_lp_uninit W))
    (3 + Z.of_nat (length name)).

(** ** Registry *)

(** The function name of the ping-pong example, as characters. *)
Definition ping_name : list Z := [112; 105; 110; 103].

(** ** Waiter table *)

(** No two slots in use carry the same sequence number. *)
Definition live_seqs_distinct (st : trans_state) : Prop :=
  forall i j wi wj,
    s_wait st !! i = Some wi -> s_wait st !! j = Some wj ->
    w_in_use wi = true -> w_in_use wj = true ->
    w_seq wi = w_seq wj -> i = j.

(** One caller keeps slot 0 while another allocates and frees 254 times;
    the next allocation is handed sequence 1 again. *)
Definition collision_trace : list waiter_op :=
  Op_alloc :: concat (replicate 254 [Op_alloc; Op_free 1]) ++ [Op_alloc].

(** Bookkeeping for lifetimes: [ages !! i] counts the allocation attempts
    made since slot [i] was last handed out. *)
Definition age_step (st : trans_state) (ages : list nat) (op : waiter_op)
  : list nat :=
  match op with
  | Op_alloc =>
      match fst (alloc_attempt st) with
      | Some (_, i) => <[i := 0%nat]> (S <$> ages)
      | None => S <$> ages
      end
  | Op_free _ => ages
  end.

(** Every slot in use has seen fewer than 254 attempts after its own. *)
Definition all_young (st : trans_state) (ages : list nat) : bool :=
  forallb (fun wa => negb (w_in_use (fst wa)) || (snd wa <? 254)%nat)
          (zip (s_wait st) ages).

(** No waiter is still in use when the 255th allocation attempt after its
    own is made. *)
Fixpoint short_lived (st : trans_state) (ages : list nat)
         (ops : list waiter_op) : bool :=
  match ops with
  | [] => true
  | op :: ops' =>
      (match op with Op_alloc => all_young st ages | Op_free _ => true end)
      && short_lived (waiter_step st op) (age_step st ages op) ops'
  end.

(** What ties a live sequence number to the counter and the slot's age. *)
Definition waiter_inv (st : trans_state) (ages : list nat) : Prop :=
  length ages = length (s_wait st)
  /\ 1 <= s_next_seq st <= 255
  /\ (forall i w a,
         s_wait st !! i = Some w -> ages !! i = Some a ->
         w_in_use w = true ->
         (a <= 254)%nat
         /\ w_seq w - 1 = (s_next_seq st - 2 - Z.of_nat a) mod 255)
  /\ (forall i j wi wj a,
         s_wait st !! i = Some wi -> s_wait st !! j = Some wj ->
         ages !! i = Some a -> ages !! j = Some a ->
         w_in_use wi = true -> w_in_use wj = true -> i = j).

(** The table with slot [i] replaced. *)
Definition slot_set (st : trans_state) (i : nat) (w' : waiter_t)
  : trans_state :=
  with_wait (<[i := w']> (s_wait st)) st.

(** ** Requests *)

(** The buffers are what the C types say: the local [lp.payload] has
    [MAX_PAYLOAD_SIZE] bytes, and the other threads leave the waiter table
    its size. *)
Definition world_wf (W : world) : Prop :=
  Z.of_nat (length (W_lp_uninit W)) = MAX_PAYLOAD_SIZE
  /\ (forall st, length (s_wait (W_on_delay W st)) = length (s_wait st))
  /\ (forall i t st,
         length (s_wait (W_on_sem_wait W i t st)) = length (s_wait st)).

(** [args_len] is a [uint16_t] and [args], when not null, has that many
    bytes. *)
Definition args_readable (args : option (list Z)) (args_len : Z) : Prop :=
  0 <= args_len
  /\ forall a, args = Some a -> args_len <= Z.of_nat (length a).

(** The log records no [os_sem_take]. *)
Definition no_sem_take (log : list os_call) : Prop :=
  forall i t ok, ~ In (Os_sem_take i t ok) log.

(** A world in which the peer never answers: sends succeed, nobody touches
    the transport state while the caller sleeps or waits. *)
Definition quiet_world : world :=
  World (replicate 99 0) (fun st => st) true (fun _ _ st => st).

(** The call [rpc_request(ping, NULL, 0, buf, &len = 64, timeout_ms)] on a
    fresh transport whose peer never answers. *)
Definition unanswered_ping (timeout_ms : Z) : option request_result :=
  rpc_request quiet_world rpc_trans_init (Some ping_name) None 0
              (Some (replicate 64 0)) (Some 64) timeout_ms.

(** A caller parked on slot 0 with sequence 1 and a two-byte buffer, and
    the message [RESP, seq 1, name p, body 1 2 3]. *)
Definition parked_state : trans_state :=
  Trans (<[0%nat := Waiter 1 false 0 (Some [0; 0]) (Some 2) 2 true]>
           (s_wait rpc_trans_init))
        2 [] [].

(** * Further definitions *)

(** ** Bytes and the CRC register *)

(** A value of type [uint8_t]. *)
Definition is_byte (b : Z) : Prop := 0 <= b < 256.

(** A predicate checked on each of the 256 bytes. *)
Definition byte_check (p : Z -> bool) : bool :=
  forallb p (Z.of_nat <$> seq 0 256).

(** The eight turns of the inner loop of [crc8_compute] for the polynomial
    of the link, and the steps that undo them: the bit shifted in tells
    whether the polynomial was folded in. *)
Definition crc8_turn (x : Z) : Z := Nat.iter 8 (crc8_bit CRC8_POLY) x.

Definition crc8_unbit (r : Z) : Z :=
  if Z.odd r then Z.lor (Z.shiftr (Z.lxor r CRC8_POLY) 1) 0x80
  else Z.shiftr r 1.

Definition crc8_unturn (x : Z) : Z := Nat.iter 8 crc8_unbit x.

(** ** Link layer: what the context remembers of the frame in progress *)

(** The header of the frame in progress is the one [rpc_link_build_frame]
    writes for the length the context holds. *)
Definition hdr_ok (P : parser) : Prop :=
  let '(h0, h1, h2) := P_hdr P in
  h0 = SOF /\ is_byte h1 /\ is_byte h2
  /\ P_length P = u16 (Z.lor (Z.shiftl h2 8) h1)
  /\ MIN_PKT_LEN <= P_length P <= MAX_PKT_LEN.

(** The bytes taken since the SOF of the frame in progress. *)
Definition frame_prefix (P : parser) : list Z :=
  let '(h0, h1, h2) := P_hdr P in
  let hcrc := crc8_compute [h0; h1; h2] 3 CRC8_INIT CRC8_POLY in
  let body := take (Z.to_nat (P_payload_pos P)) (P_payload P) in
  let pcrc := crc8_compute (SOD :: body) (P_payload_pos P + 1)
                           CRC8_INIT CRC8_POLY in
  match P_st P with
  | ST_WAIT_SOF => []
  | ST_READ_LEN1 => [h0]
  | ST_READ_LEN2 => [h0; h1]
  | ST_READ_HDRCRC => [h0; h1; h2]
  | ST_WAIT_SOD => [h0; h1; h2; hcrc]
  | ST_READ_PAYLOAD | ST_READ_PKTCRC => [h0; h1; h2; hcrc; SOD] ++ body
  | ST_WAIT_EOF => [h0; h1; h2; hcrc; SOD] ++ body ++ [pcrc]
  end.

(** The context agrees with the input [seen] so far: the input ends with
    the bytes of the frame in progress, and the fields are in step with the
    state. *)
Definition parser_tracks (P : parser) (seen : list Z) : Prop :=
  parser_wf P
  /\ (exists pre, seen = pre ++ frame_prefix P)
  /\ match P_st P with
     | ST_WAIT_SOF => True
     | ST_READ_LEN1 => fst (fst (P_hdr P)) = SOF
     | ST_READ_LEN2 =>
         fst (fst (P_hdr P)) = SOF /\ is_byte (snd (fst (P_hdr P)))
     | ST_READ_HDRCRC | ST_WAIT_SOD => hdr_ok P
     | ST_READ_PAYLOAD => hdr_ok P /\ P_payload_pos P < P_length P - 3
     | ST_READ_PKTCRC | ST_WAIT_EOF =>
         hdr_ok P /\ P_payload_pos P = P_length P - 3
     end.

(** A payload of the queue stands in the input as a whole frame. *)
Definition framed_in (seen : list Z) (lp : link_payload_t) : Prop :=
  MIN_PAYLOAD_SIZE <= payload_len lp <= MAX_PAYLOAD_SIZE
  /\ length (payload lp) = Z.to_nat MAX_PAYLOAD_SIZE
  /\ exists pre post,
       seen = pre ++ frame_of (payload lp) (payload_len lp) ++ post.

(** The wire image of a sequence of payloads, each preceded by line noise:
    the noise and then the frame [rpc_link_build_frame] builds. *)
Definition wire_of (items : list (list Z * list Z)) : list Z :=
  concat ((fun it => fst it ++ frame_of (snd it) (Z.of_nat (length (snd it))))
            <$> items).

(** The queue entry [lp] carries exactly the payload [pl]. *)
Definition delivers (lp : link_payload_t) (pl : list Z) : Prop :=
  payload_len lp = Z.of_nat (length pl)
  /\ take (length pl) (payload lp) = pl.

(** Line noise: bytes other than SOF. *)
Definition noise (g : list Z) : Prop := Forall (fun b => b <> SOF) g.

(** ** Transport codec: the accepted messages *)

(** The messages of the wire format: a valid type, a sequence byte, a name
    of [MIN_FUNC_NAME_LEN..MAX_FUNC_NAME_LEN] characters, its terminator and
    at most [MAX_FUNC_ARGS_RESP_SIZE] bytes of arguments. *)
Definition well_formed_message (bytes : list Z) : Prop :=
  exists t s name body,
    bytes = t :: s :: name ++ 0 :: body
    /\ valid_type t = true
    /\ Forall (fun c => c <> 0) name
    /\ MIN_FUNC_NAME_LEN <= Z.of_nat (length name) <= MAX_FUNC_NAME_LEN
    /\ Z.of_nat (length body) <= MAX_FUNC_ARGS_RESP_SIZE.

(** The conditions under which [rpc_trans_build_msg] writes a message. *)
Definition build_accepts (type : Z) (name : list Z) (alen olen : Z) : Prop :=
  valid_type type = true
  /\ MIN_FUNC_NAME_LEN <= Z.of_nat (length name) <= MAX_FUNC_NAME_LEN
  /\ alen <= MAX_FUNC_ARGS_RESP_SIZE
  /\ 3 + Z.of_nat (length name) + alen <= olen.

(** ** Registry *)

(** The table as [register_fn] keeps it: [s_reg_count] entries filled, out
    of [NUM_REG_FUNC]. *)
Definition registry_wf (R : registry) : Prop :=
  0 <= s_reg_count R <= NUM_REG_FUNC
  /\ length (s_reg R) = Z.to_nat NUM_REG_FUNC.

(** Entry [i] of the table is below [s_reg_count] and its name compares
    equal to [name] under [strncmp(.., MAX_FUNC_NAME_LEN)]. *)
Definition reg_matches (R : registry) (i : Z) (name : list Z) : Prop :=
  0 <= i < s_reg_count R
  /\ exists e nm,
       s_reg R !! Z.to_nat i = Some e /\ reg_name e = Some nm
       /\ strncmp_eq nm name (Z.to_nat MAX_FUNC_NAME_LEN) = true.

(** Entry [i] of the table is below [s_reg_count] and its name compares
    different from [name]. *)
Definition reg_differs (R : registry) (i : Z) (name : list Z) : Prop :=
  0 <= i < s_reg_count R
  /\ exists e nm,
       s_reg R !! Z.to_nat i = Some e /\ reg_name e = Some nm
       /\ strncmp_eq nm name (Z.to_nat MAX_FUNC_NAME_LEN) = false.

(** Entry [i] of the table is below [s_reg_count] and its name pointer is
    null: [register_fn] stores the pointer it is given. *)
Definition reg_null (R : registry) (i : Z) : Prop :=
  0 <= i < s_reg_count R
  /\ exists e, s_reg R !! Z.to_nat i = Some e /\ reg_name e = None.

(** No handler has been registered under a null name. *)
Definition registry_named (R : registry) : Prop := forall i, ~ reg_null R i.

(** ** Waiter table *)

(** The test of the scan in [rpc_trans_find_waiter]. *)
Definition waits_for (seq : Z) (w : waiter_t) : Prop :=
  w_in_use w = true /\ w_seq w = seq.

(** The counter and every live sequence number are in [1..255], and the
    table has its [REQ_TABLE_SIZE] slots. *)
Definition seqs_in_range (st : trans_state) : Prop :=
  1 <= s_next_seq st <= 255
  /\ length (s_wait st) = Z.to_nat REQ_TABLE_SIZE
  /\ forall i w, s_wait st !! i = Some w -> w_in_use w = true ->
                 1 <= w_seq w <= 255.

(** Every slot of the table is taken. *)
Definition all_in_use (st : trans_state) : Prop :=
  Forall (fun w => w_in_use w = true) (s_wait st).

(** The [in_use] flags of the table, slot by slot. *)
Definition flags (st : trans_state) : list bool := w_in_use <$> s_wait st.

(** Whatever the other threads do while the caller sleeps or waits, they
    hand back every slot they took: the flags are as before. *)
Definition world_keeps_flags (W : world) : Prop :=
  (forall st, flags (W_on_delay W st) = flags st)
  /\ (forall i t st, flags (W_on_sem_wait W i t st) = flags st).

(** ** Incoming messages *)

(** [st1] is [st] up to the caller-facing fields of slot [i]: the counter,
    the queues, the size of the table and, in every slot, the flag, the
    sequence number and the capacity are those of [st]; the other slots are
    untouched. *)
Definition keeps (i : nat) (st st1 : trans_state) : Prop :=
  s_next_seq st1 = s_next_seq st
  /\ qTransToLink st1 = qTransToLink st
  /\ qRpcRequests st1 = qRpcRequests st
  /\ forall j,
       match s_wait st !! j, s_wait st1 !! j with
       | Some w, Some w1 =>
           w_in_use w1 = w_in_use w /\ w_seq w1 = w_seq w
           /\ w_resp_buf_cap w1 = w_resp_buf_cap w
           /\ (j <> i -> w1 = w)
       | None, None => True
       | _, _ => False
       end.

(** The slot an effect writes to. *)
Definition effect_slot (e : effect) : option nat :=
  match e with
  | Wr_resp_buf i _ _ | Wr_resp_len i _ | Wr_result_code i _ | Sem_give i =>
      Some i
  | Send_request _ => None
  end.

(** The record [rpc_trans_handle_incoming] queues for a request or stream
    message: the name and the arguments in their zeroed arrays. *)
Definition request_record (type seq : Z) (name body : list Z)
  : rpc_request_t :=
  Rpc_request type seq
    (name ++ replicate (Z.to_nat (MAX_FUNC_NAME_LEN + 1) - length name) 0)
    (body ++ replicate (Z.to_nat MAX_FUNC_ARGS_RESP_SIZE - length body) 0)
    (Z.of_nat (length body)).

(** ** rpc_transport.c and rpc_link.c: the thread bodies *)

Module Threads.

(** The string literal the worker picks for an error reply, as its
    characters: NOFUNC, OVERFLOW, INVALID_ARGS, TIMEOUT or FAIL. *)
Definition emsg_of (idx rc : Z) : list Z :=
  if idx <? 0 then [78; 79; 70; 85; 78; 67]
  else if rc =? RPC_ERROR_OVERFLOW then [79; 86; 69; 82; 70; 76; 79; 87]
  else if rc =? RPC_ERROR_INVALID_ARGS
       then [73; 78; 86; 65; 76; 73; 68; 95; 65; 82; 71; 83]
  else if rc =? RPC_ERROR_TIMEOUT then [84; 73; 77; 69; 79; 85; 84]
  else [70; 65; 73; 76].

(** The worker's call of the registered function: [rc], the contents of
    [out] and [olen] afterwards.  [out_uninit] is the uninitialised local
    [out]; without a handler [rc] stays [RPC_ERROR] and [olen] stays 0; a
    handler that reports more than [sizeof(out)] bytes is overruled.  [None]
    is a read outside [s_reg]. *)
Definition call_handler (R : registry) (out_uninit : list Z)
           (req : rpc_request_t) (idx : Z) : option (Z * list Z * Z) :=
  if idx >=? 0 then
    e ← s_reg R !! Z.to_nat idx;
    match reg_fn e with
    | Some fn =>
        let '(rc, out, olen) :=
          fn (Some (req_args req)) (req_alen req) out_uninit
             MAX_FUNC_ARGS_RESP_SIZE 0 HANDLER_TIMEOUT_MS_DEFAULT in
        let olen := u16 olen in
        if olen >? MAX_FUNC_ARGS_RESP_SIZE
        then Some (RPC_ERROR_OVERFLOW, out, 0)
        else Some (rc, out, olen)
    | None => Some (RPC_ERROR, out_uninit, 0)
    end
  else Some (RPC_ERROR, out_uninit, 0).

(** The body of the loop of [ThreadRPCWorker] for a received request: the
    transport state and the OS calls made.  [W] gives the uninitialised
    local [lp.payload] and the outcome of [os_queue_send].  [None] is
    [find_reg] reading through a null name, or a read outside [s_reg]. *)
Definition worker_serve (R : registry) (W : world) (out_uninit : list Z)
           (st : trans_state) (req : rpc_request_t)
  : option (trans_state * list os_call) :=
  idx ← find_reg R (req_name req);
  '(rc, out, olen) ← call_handler R out_uninit req idx;
  if req_type req =? MSG_REQ then
    '(len, buf) ←
      (if rc =? RPC_SUCCESS then
         rpc_trans_build_msg MSG_RESP (req_seq req) (Some (req_name req))
                             (Some out) olen
                             (Some (W_lp_uninit W)) MAX_PAYLOAD_SIZE
       else
         let emsg := emsg_of idx rc in
         rpc_trans_build_msg MSG_ERR (req_seq req) (Some (req_name req))
                             (Some emsg) (u16 (strlen emsg))
                             (Some (W_lp_uninit W)) MAX_PAYLOAD_SIZE);
    if len =? 0 then Some (st, [])
    else
      let lp := Link_payload (default [] buf) len in
      let '(_, st1, log) := send_TransToLink W lp st in
      Some (st1, log)
  else Some (st, []).

(** One turn of the loop of [ThreadRPCWorker]: the oldest request of
    [qRpcRequests] is received and served; with an empty queue the thread
    stays in [os_queue_recv]. *)
Definition ThreadRPCWorker_turn (R : registry) (W : world)
           (out_uninit : list Z) (st : trans_state)
  : option (trans_state * list os_call) :=
  match qRpcRequests st with
  | [] => Some (st, [])
  | req :: q =>
      worker_serve R W out_uninit
                   (Trans (s_wait st) (s_next_seq st) (qTransToLink st) q) req
  end.

(** One turn of the loop of [ThreadTrans] for the payload [m] received
    from [qLinkToTrans]. *)
Definition ThreadTrans_turn (st : trans_state) (m : link_payload_t)
  : option trans_state :=
  fst <$> rpc_trans_handle_incoming st (Some (payload m)) (payload_len m).

(** One turn of the loop of [ThreadTX]: the oldest payload of
    [qTransToLink] is received and framed; the state and the frames handed
    to the PHY, whose result is [phy_res]. *)
Definition ThreadTX_turn (phy_res : Z) (st : trans_state)
  : trans_state * list (list Z) :=
  match qTransToLink st with
  | [] => (st, [])
  | m :: q =>
      (Trans (s_wait st) (s_next_seq st) q (qRpcRequests st),
       snd (rpc_link_build_frame phy_res (Some (payload m)) (payload_len m)))
  end.

(** One turn of the loop of [ThreadRX]: [rpc_phy_receive(&b, 1)] returned
    [res] and left [b] in its buffer. *)
Definition ThreadRX_turn (lp_uninit tmp_uninit : list Z) (P : parser)
           (res b : Z) : option (parser * list link_payload_t) :=
  if res <? 0 then Some (P, [])
  else rpc_link_feed_bytes lp_uninit tmp_uninit P [b] res.

End Threads.
Import Threads.

(** ** Worker *)

(** The reply the worker queues: header, name and terminator, then
    [body], over the uninitialised local. *)
Definition reply_message (W : world) (type seq : Z) (name body : list Z)
  : link_payload_t :=
  Link_payload
    (type :: seq :: name ++ 0 :: body
     ++ drop (Z.to_nat (3 + Z.of_nat (length name) + Z.of_nat (length body)))
             (W_lp_uninit W))
    (3 + Z.of_nat (length name) + Z.of_nat (length body)).

(** ** Answers *)


(** The result code a caller gets for an answer of the given type. *)
Definition answer_code (type : Z) : Z :=
  if type =? MSG_RESP then RPC_SUCCESS else RPC_ERROR.

(** ** Two stacks back to back *)

(** [ThreadRX] over the bytes of the wire, one byte per call of
    [rpc_phy_receive], which returns 1. *)
Fixpoint rx_run (lp_uninit tmp_uninit : list Z) (P : parser) (wire : list Z)
  : option (parser * list link_payload_t) :=
  match wire with
  | [] => Some (P, [])
  | b :: bs =>
      '(P1, out1) ← ThreadRX_turn lp_uninit tmp_uninit P 1 b;
      '(P2, out2) ← rx_run lp_uninit tmp_uninit P1 bs;
      Some (P2, out1 ++ out2)
  end.

(** [ThreadTrans] over the payloads of [qLinkToTrans], oldest first. *)
Fixpoint trans_run (st : trans_state) (ms : list link_payload_t)
  : option trans_state :=
  match ms with
  | [] => Some st
  | m :: ms' => st1 ← ThreadTrans_turn st m; trans_run st1 ms'
  end.

(** The receiving side of a node: the RX thread parses the wire, the
    transport thread handles what comes out. *)
Definition receive (lp_uninit tmp_uninit : list Z) (P : parser)
           (st : trans_state) (wire : list Z)
  : option (parser * trans_state) :=
  '(P', ms) ← rx_run lp_uninit tmp_uninit P wire;
  st' ← trans_run st ms;
  Some (P', st').

(** A freshly initialised server with registry [R]: it receives [wire],
    one worker takes a turn, the TX thread takes a turn; the result is
    what it puts on the wire. *)
Definition serve_wire (R : registry) (Ws : world)
           (out_uninit lp_uninit tmp_uninit : list Z) (wire : list Z)
  : option (list Z) :=
  '(_, s1) ← receive lp_uninit tmp_uninit rpc_link_init rpc_trans_init wire;
  '(s2, _) ← ThreadRPCWorker_turn R Ws out_uninit s1;
  Some (concat (snd (ThreadTX_turn 0 s2))).

(** The client's surroundings when its peer is such a server: while the
    caller waits, the client's TX thread takes a turn, the server turns the
    wire around, and the client's RX and transport threads receive what
    comes back. *)
Definition served_world (R : registry) (Ws : world)
           (out_uninit lp_uninit tmp_uninit : list Z) (Wc : world) : world :=
  World (W_lp_uninit Wc) (W_on_delay Wc) (W_queue_send_ok Wc)
        (fun _ _ st =>
           let '(c1, frames) := ThreadTX_turn 0 st in
           default st
             (back ← serve_wire R Ws out_uninit lp_uninit tmp_uninit
                                (concat frames);
              snd <$> receive lp_uninit tmp_uninit rpc_link_init c1 back)).

(** ** platform/linux/rpc_osal_linux.c: queues *)

Module Osal.

(** [struct os_queue] without its mutex and condition variables: the byte
    array [buf] of [capacity * item_size] bytes and the ring indices. *)
Record os_queue := Os_queue {
  q_buf : list Z;
  q_item_size : Z;
  q_capacity : Z;
  q_head : Z;
  q_tail : Z;
  q_count : Z
}.

(** [os_queue_create]: [block] is what [malloc(length * item_size)]
    returned for [len] items, [None] when it or [calloc] failed. *)
Definition os_queue_create (block : option (list Z)) (len item_size : Z)
  : option os_queue :=
  match block with
  | None => None
  | Some b => Some (Os_queue b item_size len 0 0 0)
  end.

(** The waiting loop of [os_queue_send] and [os_queue_recv].  [wakes] is
    what each [pthread_cond_timedwait] in turn ends with: [None] for
    [ETIMEDOUT], or the queue as the other threads have left it.  The
    result says whether to go on and with which queue; [None] is a thread
    still blocked when [wakes] is used up. *)
Fixpoint wait_while (blocked : os_queue -> bool)
         (wakes : list (option os_queue)) (timeout_ms : Z) (q : os_queue)
  : option (bool * os_queue) :=
  if negb (blocked q) then Some (true, q)
  else if timeout_ms =? 0 then Some (false, q)
  else
    match wakes with
    | [] => None
    | None :: _ => Some (false, q)
    | Some q1 :: wakes' => wait_while blocked wakes' timeout_ms q1
    end.

(** [os_queue_send]: the return value and the queue afterwards; the outer
    [None] is a blocked thread or a copy outside an array. *)
Definition os_queue_send (wakes : list (option os_queue))
           (q : option os_queue) (item : option (list Z)) (timeout_ms : Z)
  : option (bool * option os_queue) :=
  match q, item with
  | Some q0, Some it =>
      match wait_while (fun q => q_count q =? q_capacity q)
                       wakes timeout_ms q0 with
      | None => None
      | Some (false, q1) => Some (false, Some q1)
      | Some (true, q1) =>
          buf ← memcpy (q_buf q1) (size_t_of (q_tail q1 * q_item_size q1))
                       it (q_item_size q1);
          Some (true,
                Some (Os_queue buf (q_item_size q1) (q_capacity q1)
                               (q_head q1)
                               (size_t_of (q_tail q1 + 1) mod q_capacity q1)
                               (size_t_of (q_count q1 + 1))))
      end
  | _, _ => Some (false, q)
  end.

(** [os_queue_recv]: the return value, the queue and the contents of
    [item] afterwards. *)
Definition os_queue_recv (wakes : list (option os_queue))
           (q : option os_queue) (item : option (list Z)) (timeout_ms : Z)
  : option (bool * option os_queue * option (list Z)) :=
  match q, item with
  | Some q0, Some it =>
      match wait_while (fun q => q_count q =? 0) wakes timeout_ms q0 with
      | None => None
      | Some (false, q1) => Some (false, Some q1, item)
      | Some (true, q1) =>
          it' ← memcpy it 0
                   (drop (Z.to_nat (size_t_of (q_head q1 * q_item_size q1)))
                         (q_buf q1))
                   (q_item_size q1);
          Some (true,
                Some (Os_queue (q_buf q1) (q_item_size q1) (q_capacity q1)
                               (size_t_of (q_head q1 + 1) mod q_capacity q1)
                               (q_tail q1) (size_t_of (q_count q1 - 1))),
                Some it')
      end
  | _, _ => Some (false, q, item)
  end.

End Osal.
Import Osal.

(** ** Queues as sequences *)

(** The item in slot [k] of the ring. *)
Definition ring_slot (q : os_queue) (k : Z) : list Z :=
  take (Z.to_nat (q_item_size q))
       (drop (Z.to_nat (k * q_item_size q)) (q_buf q)).

(** The items waiting in the queue, oldest first. *)
Definition queued (q : os_queue) : list (list Z) :=
  (fun j => ring_slot q ((q_head q + Z.of_nat j) mod q_capacity q))
    <$> seq 0 (Z.to_nat (q_count q)).

(** The ring as [os_queue_send] and [os_queue_recv] keep it. *)
Definition queue_inv (q : os_queue) : Prop :=
  0 < q_capacity q < 2 ^ 64 /\ 0 <= q_item_size q
  /\ q_capacity q * q_item_size q < 2 ^ 64
  /\ Z.of_nat (length (q_buf q)) = q_capacity q * q_item_size q
  /\ 0 <= q_head q < q_capacity q
  /\ 0 <= q_count q <= q_capacity q
  /\ q_tail q = (q_head q + q_count q) mod q_capacity q.

(** ** Allocation attempts *)

(** The number of allocation attempts among the steps. *)
Fixpoint attempts (ops : list waiter_op) : nat :=
  match ops with
  | [] => O
  | Op_alloc :: ops' => S (attempts ops')
  | Op_free _ :: ops' => attempts ops'
  end.

(** ** Arguments of a request *)

(** What [rpc_trans_request] checks before it does anything. *)
Definition request_arguments_ok (name resp_buf : option (list Z))
           (resp_len : option Z) : Prop :=
  (exists nm, name = Some nm
              /\ MIN_FUNC_NAME_LEN <= strlen nm <= MAX_FUNC_NAME_LEN)
  /\ is_Some resp_buf
  /\ exists cap, resp_len = Some cap /\ MAX_FUNC_ARGS_RESP_SIZE <= cap.

(** * Properties *)

(** ** Buffers *)

Lemma store_Some (buf : list Z) (i b : Z) :
  0 <= i < Z.of_nat (length buf) ->
  store buf i b = Some (<[Z.to_nat i := b]> buf).
Proof. intros H. unfold store. by rewrite decide_True. Qed.

Lemma memcpy_Some (dst : list Z) (off : Z) (src : list Z) (n : Z) :
  0 <= off -> 0 <= n -> off + n <= Z.of_nat (length dst) ->
  n <= Z.of_nat (length src) ->
  memcpy dst off src n =
    Some (take (Z.to_nat off) dst ++ take (Z.to_nat n) src
          ++ drop (Z.to_nat (off + n)) dst).
Proof. intros. unfold memcpy. by rewrite decide_True. Qed.

Lemma take_insert_snoc (l : list Z) (k : nat) (b : Z) :
  (k < length l)%nat -> take (S k) (<[k := b]> l) = take k l ++ [b].
Proof.
  revert k. induction l as [|a l IH]; intros k Hk; simpl in Hk; [lia|].
  destruct k as [|k]; [done|].
  cbn [take firstn]. simpl. f_equal.
  apply IH. lia.
Qed.

(** ** Link layer: the parser as a fold *)

Section LinkFacts.
Variable lp_uninit tmp_uninit : list Z.

Abbreviation feed_byte := (Link.feed_byte lp_uninit tmp_uninit).
Abbreviation feed_loop := (Link.feed_loop lp_uninit tmp_uninit).
Abbreviation rpc_link_feed_bytes := (Link.rpc_link_feed_bytes lp_uninit tmp_uninit).
Abbreviation feed_chunks := (Link.feed_chunks lp_uninit tmp_uninit).

Lemma feed_loop_app (P : parser) (xs ys : list Z) :
  feed_loop P (xs ++ ys) =
    match feed_loop P xs with
    | None => None
    | Some (P1, out1) =>
        match feed_loop P1 ys with
        | None => None
        | Some (P2, out2) => Some (P2, out1 ++ out2)
        end
    end.
Proof.
  revert P. induction xs as [|x xs IH]; intros P; simpl.
  - destruct (feed_loop P ys) as [[P2 out2]|]; done.
  - destruct (feed_byte P x) as [[P1 out1]|]; [|done].
    rewrite IH. destruct (feed_loop P1 xs) as [[P2 out2]|]; [|done].
    destruct (feed_loop P2 ys) as [[P3 out3]|]; [|done].
    by rewrite app_assoc.
Qed.

Lemma feed_bytes_all (P : parser) (c : list Z) :
  rpc_link_feed_bytes P c (Z.of_nat (length c)) = feed_loop P c.
Proof.
  unfold Link.rpc_link_feed_bytes. by rewrite Nat2Z.id, firstn_all.
Qed.

(** Chunking is invisible: feeding chunk after chunk is feeding the
    concatenation. *)
Lemma feed_chunks_concat (P : parser) (chunks : list (list Z)) :
  feed_chunks P chunks = feed_loop P (concat chunks).
Proof.
  revert P. induction chunks as [|c cs IH]; intros P; [done|].
  cbn [Link.feed_chunks concat]. rewrite feed_bytes_all, feed_loop_app.
  destruct (feed_loop P c) as [[P1 out1]|]; [|done].
  by rewrite IH.
Qed.

Lemma rpc_link_init_wf : parser_wf rpc_link_init.
Proof. split; [reflexivity | by vm_compute]. Qed.

Hypothesis lp_uninit_len : length lp_uninit = Z.to_nat MAX_PAYLOAD_SIZE.
Hypothesis tmp_uninit_len :
  length tmp_uninit = Z.to_nat (MAX_PAYLOAD_SIZE + 1).

Lemma tmp_filled (pl : list Z) (pos : Z) :
  length pl = Z.to_nat MAX_PAYLOAD_SIZE ->
  0 <= pos <= MAX_PAYLOAD_SIZE ->
  exists tmp,
    store tmp_uninit 0 SOD ≫= (λ tmp0, memcpy tmp0 1 pl pos) = Some tmp
    /\ take (Z.to_nat (pos + 1)) tmp = SOD :: take (Z.to_nat pos) pl.
Proof.
  intros Hpl Hpos. pose proof lp_uninit_len as Hlp.
  pose proof tmp_uninit_len as Htmp.
  change MAX_PAYLOAD_SIZE with 99 in Hpl, Hpos, Hlp, Htmp.
  rewrite store_Some by (rewrite Htmp; lia).
  cbn [mbind option_bind].
  rewrite memcpy_Some by (rewrite ?length_insert, ?Htmp, ?Hpl; lia).
  eexists; split; [done|].
  destruct tmp_uninit as [|t0 tl] eqn:E; [simpl in Htmp; lia|].
  change (Z.to_nat 1) with 1%nat. change (Z.to_nat 0) with 0%nat.
  replace (Z.to_nat (pos + 1)) with (S (Z.to_nat pos)) by lia.
  change (<[0%nat:=SOD]> (t0 :: tl)) with (SOD :: tl).
  cbn [take firstn app]. f_equal. rewrite take_0. cbn [app].
  rewrite take_app_length'; [done|].
  rewrite length_take, Hpl. lia.
Qed.

Lemma lp_filled (pl : list Z) (pos : Z) :
  length pl = Z.to_nat MAX_PAYLOAD_SIZE ->
  0 <= pos <= MAX_PAYLOAD_SIZE ->
  exists buf,
    memcpy lp_uninit 0 pl pos = Some buf
    /\ take (Z.to_nat pos) buf = take (Z.to_nat pos) pl.
Proof.
  intros Hpl Hpos. pose proof lp_uninit_len as Hlp.
  pose proof tmp_uninit_len as Htmp.
  change MAX_PAYLOAD_SIZE with 99 in Hpl, Hpos, Hlp, Htmp.
  rewrite memcpy_Some by (rewrite ?Hlp, ?Hpl; lia).
  eexists; split; [done|].
  change (Z.to_nat 0) with 0%nat. rewrite take_0. cbn [app].
  rewrite take_app_length'; [done|].
  rewrite length_take, Hpl. lia.
Qed.

(** One byte never faults and keeps the array shapes. *)
Lemma feed_byte_total (P : parser) (b : Z) :
  parser_wf P ->
  exists P' out, feed_byte P b = Some (P', out) /\ parser_wf P'.
Proof.
  intros [Hlen Hpos]. destruct P as [st len [[h0 h1] h2] pos pl].
  cbn [P_payload P_payload_pos] in Hlen, Hpos.
  unfold Link.feed_byte. cbn [P_st P_length P_hdr P_payload_pos P_payload].
  destruct st.
  - destruct (b =? SOF); eexists _, _; (split; [done|]); by split.
  - eexists _, _; (split; [done|]); by split.
  - destruct (_ || _); eexists _, _; (split; [done|]); split; try done;
      by vm_compute.
  - destruct (negb _); eexists _, _; (split; [done|]); split; try done;
      by vm_compute.
  - destruct (b =? SOD); eexists _, _; (split; [done|]); split; try done;
      by vm_compute.
  - destruct (_ && _) eqn:Hc.
    + apply andb_true_iff in Hc as [Hc1 Hc2].
      apply Z.ltb_lt in Hc1.
      rewrite store_Some by (rewrite Hlen; lia).
      destruct (_ =? _); eexists _, _; (split; [done|]); split;
        cbn [set_st P_payload P_payload_pos]; rewrite ?length_insert;
        try done; lia.
    + eexists _, _; (split; [done|]); split; try done; by vm_compute.
  - destruct (tmp_filled pl pos) as (tmp & -> & _); [done..|].
    destruct (negb _); eexists _, _; (split; [done|]); split; try done;
      by vm_compute.
  - destruct (b =? EOF_).
    + destruct (lp_filled pl pos) as (buf & -> & _); [done..|].
      eexists _, _; (split; [done|]); split; try done; by vm_compute.
    + eexists _, _; (split; [done|]); split; try done; by vm_compute.
Qed.

Lemma feed_loop_total (bs : list Z) (P : parser) :
  parser_wf P ->
  exists P' out, feed_loop P bs = Some (P', out) /\ parser_wf P'.
Proof.
  revert P. induction bs as [|b bs IH]; intros P HP.
  - by exists P, [].
  - cbn [Link.feed_loop].
    destruct (feed_byte_total P b HP) as (P1 & out1 & -> & HP1).
    destruct (IH P1 HP1) as (P2 & out2 & -> & HP2).
    by eexists _, _.
Qed.

Lemma crc8_compute_take (d1 d2 : list Z) (n init poly : Z) :
  take (Z.to_nat n) d1 = take (Z.to_nat n) d2 ->
  crc8_compute d1 n init poly = crc8_compute d2 n init poly.
Proof. unfold crc8_compute. by intros ->. Qed.

(** The length bytes written by the builder are read back unchanged. *)
Lemma length_field_roundtrip (len : Z) :
  MIN_PAYLOAD_SIZE <= len <= MAX_PAYLOAD_SIZE ->
  let L := u16 (len + 3) in
  L = len + 3
  /\ u16 (Z.lor (Z.shiftl (u8 (Z.shiftr L 8)) 8) (u8 (Z.land L 0xFF))) = L.
Proof.
  change MIN_PAYLOAD_SIZE with 4. change MAX_PAYLOAD_SIZE with 99.
  intros Hlen L.
  assert (HL : L = len + 3) by (unfold L, u16; apply Z.mod_small; lia).
  split; [done|]. rewrite HL.
  change 255 with (Z.ones 8).
  rewrite Z.land_ones, Z.shiftr_div_pow2 by lia.
  unfold u8, u16.
  replace ((len + 3) / 2 ^ 8) with 0 by (symmetry; apply Z.div_small; lia).
  rewrite (Z.mod_small (len + 3) (2 ^ 8)) by lia.
  rewrite (Z.mod_small (len + 3) 256) by lia.
  change (Z.shiftl (0 mod 256) 8) with 0. rewrite Z.lor_0_l.
  apply Z.mod_small. lia.
Qed.

(** Reading the body: the remaining payload bytes are stored one by one
    and the context moves on to the packet CRC. *)
Lemma feed_payload (rest : list Z) :
  forall (L : Z) (h : Z * Z * Z) (pos : Z) (pl : list Z),
    length pl = Z.to_nat MAX_PAYLOAD_SIZE ->
    MIN_PKT_LEN <= L <= MAX_PKT_LEN ->
    0 <= pos -> rest <> [] ->
    pos + Z.of_nat (length rest) = L - 3 ->
    exists pl',
      feed_loop (Parser ST_READ_PAYLOAD L h pos pl) rest
        = Some (Parser ST_READ_PKTCRC L h (L - 3) pl', [])
      /\ length pl' = Z.to_nat MAX_PAYLOAD_SIZE
      /\ take (Z.to_nat (L - 3)) pl' = take (Z.to_nat pos) pl ++ rest.
Proof.
  change MAX_PAYLOAD_SIZE with 99. change MIN_PKT_LEN with 7.
  change MAX_PKT_LEN with 102.
  induction rest as [|b rest IH]; intros L h pos pl Hpl HL Hpos Hne Hsum;
    [done|].
  cbn [length] in Hsum.
  assert (Hbody : size_t_of (L - 3) = L - 3)
    by (unfold size_t_of; apply Z.mod_small; lia).
  cbn [Link.feed_loop]. unfold Link.feed_byte.
  cbn [P_st P_length P_hdr P_payload_pos P_payload].
  rewrite Hbody. change MAX_PAYLOAD_SIZE with 99.
  rewrite (proj2 (Z.ltb_lt pos 99)), (proj2 (Z.ltb_lt pos (L - 3))) by lia.
  cbn [andb]. rewrite store_Some by (rewrite Hpl; lia).
  assert (Htake : take (Z.to_nat (pos + 1)) (<[Z.to_nat pos := b]> pl)
                  = take (Z.to_nat pos) pl ++ [b]).
  { replace (Z.to_nat (pos + 1)) with (S (Z.to_nat pos)) by lia.
    apply take_insert_snoc. rewrite Hpl. lia. }
  destruct rest as [|b' rest].
  - cbn [length] in Hsum.
    rewrite (proj2 (Z.eqb_eq (pos + 1) (L - 3))) by lia.
    cbn [set_st P_st P_length P_hdr P_payload_pos P_payload Link.feed_loop app].
    replace (pos + 1) with (L - 3) in * by lia.
    eexists; split; [done|]. cbn [P_payload]. split; [by rewrite length_insert | done].
  - rewrite (proj2 (Z.eqb_neq (pos + 1) (L - 3))) by (cbn [length] in Hsum; lia).
    destruct (IH L h (pos + 1) (<[Z.to_nat pos := b]> pl)) as (pl' & -> & ? & Htk);
      [by rewrite length_insert | lia | lia | done | cbn [length] in *; lia |].
    eexists; split; [done|]. split; [done|].
    by rewrite Htk, Htake, <- app_assoc.
Qed.

(** A whole frame, entering in [ST_WAIT_SOF]: exactly one payload comes
    out, the parser is back in [ST_WAIT_SOF]. *)
Lemma feed_frame (P : parser) (pl : list Z) :
  P_st P = ST_WAIT_SOF ->
  length (P_payload P) = Z.to_nat MAX_PAYLOAD_SIZE ->
  MIN_PAYLOAD_SIZE <= Z.of_nat (length pl) <= MAX_PAYLOAD_SIZE ->
  exists P' lp,
    feed_loop P (frame_of pl (Z.of_nat (length pl))) = Some (P', [lp])
    /\ P_st P' = ST_WAIT_SOF
    /\ payload_len lp = Z.of_nat (length pl)
    /\ take (length pl) (payload lp) = pl.
Proof.
  intros Hst Hbuf Hlen.
  destruct (length_field_roundtrip _ Hlen) as [HL Hrd].
  change MIN_PAYLOAD_SIZE with 4 in Hlen.
  change MAX_PAYLOAD_SIZE with 99 in Hlen.
  destruct P as [st len0 [[h0 h1] h2] pos0 buf].
  cbn [P_st P_payload] in Hst, Hbuf. subst st.
  unfold frame_of. rewrite Nat2Z.id, firstn_all.
  set (L := u16 (Z.of_nat (length pl) + 3)) in *.
  set (l1 := u8 (Z.land L 255)) in *. set (l2 := u8 (Z.shiftr L 8)) in *.
  set (hcrc := crc8_compute [SOF; l1; l2] 3 CRC8_INIT CRC8_POLY).
  set (pcrc := crc8_compute _ _ CRC8_INIT CRC8_POLY).
  replace (([SOF; l1; l2] ++ [hcrc] ++ [SOD] ++ pl) ++ [pcrc] ++ [EOF_])
    with ([SOF; l1; l2; hcrc; SOD] ++ pl ++ [pcrc; EOF_])
    by reflexivity.
  rewrite feed_loop_app.
  assert (Hhead : feed_loop (Parser ST_WAIT_SOF len0 (h0, h1, h2) pos0 buf)
                    [SOF; l1; l2; hcrc; SOD]
                  = Some (Parser ST_READ_PAYLOAD L (SOF, l1, l2) 0 buf, [])).
  { cbn [Link.feed_loop]. unfold Link.feed_byte at 1.
    cbn [P_st P_length P_hdr P_payload_pos P_payload].
    rewrite Z.eqb_refl.
    unfold Link.feed_byte at 1.
    cbn [P_st P_length P_hdr P_payload_pos P_payload].
    unfold Link.feed_byte at 1.
    cbn [P_st P_length P_hdr P_payload_pos P_payload].
    fold l1 l2. rewrite Hrd.
    change MIN_PKT_LEN with 7. change MAX_PKT_LEN with 102.
    rewrite Z.gtb_ltb.
    rewrite (proj2 (Z.ltb_ge L 7)), (proj2 (Z.ltb_ge 102 L)) by lia.
    unfold set_st; cbn [orb P_st P_length P_hdr P_payload_pos P_payload].
    unfold Link.feed_byte at 1.
    cbn [P_st P_length P_hdr P_payload_pos P_payload hdr_bytes].
    fold hcrc. rewrite Z.eqb_refl.
    unfold set_st; cbn [negb P_st P_length P_hdr P_payload_pos P_payload].
    unfold Link.feed_byte at 1.
    cbn [P_st P_length P_hdr P_payload_pos P_payload].
    by rewrite Z.eqb_refl. }
  rewrite Hhead. clear Hhead.
  rewrite feed_loop_app.
  destruct (feed_payload pl L (SOF, l1, l2) 0 buf) as (pl' & -> & Hpl' & Htk).
  - done.
  - change MIN_PKT_LEN with 7. change MAX_PKT_LEN with 102. lia.
  - done.
  - intros ->. cbn [length] in Hlen. lia.
  - lia.
  - change (Z.to_nat 0) with 0%nat in Htk. rewrite take_0 in Htk.
    cbn [app] in Htk.
    assert (Hpos : L - 3 = Z.of_nat (length pl)) by lia.
    rewrite Hpos in *. rewrite Nat2Z.id in Htk.
    cbn [Link.feed_loop]. unfold Link.feed_byte at 1.
    cbn [P_st P_length P_hdr P_payload_pos P_payload].
    destruct (tmp_filled pl' (Z.of_nat (length pl))) as (tmp & -> & Htmp);
      [done | change MAX_PAYLOAD_SIZE with 99; lia |].
    assert (Hcrc : crc8_compute tmp (Z.of_nat (length pl) + 1)
                     CRC8_INIT CRC8_POLY = pcrc).
    { apply crc8_compute_take. rewrite Htmp, Nat2Z.id, Htk.
      change (drop 4 ([SOF; l1; l2] ++ [hcrc] ++ [SOD] ++ pl))
        with (SOD :: pl).
      replace (Z.to_nat (Z.of_nat (length pl) + 1)) with (S (length pl))
        by lia.
      cbn [take firstn]. by rewrite firstn_all. }
    rewrite Hcrc, Z.eqb_refl.
    unfold set_st; cbn [negb P_st P_length P_hdr P_payload_pos P_payload].
    unfold Link.feed_byte at 1.
    cbn [P_st P_length P_hdr P_payload_pos P_payload].
    rewrite Z.eqb_refl.
    destruct (lp_filled pl' (Z.of_nat (length pl))) as (out & -> & Hout);
      [done | change MAX_PAYLOAD_SIZE with 99; lia |].
    rewrite Nat2Z.id, Htk in Hout.
    eexists _, _. split; [reflexivity|]. by cbn.
Qed.

Lemma build_frame_sends (phy_res : Z) (pl : list Z) (len : Z) :
  MIN_PAYLOAD_SIZE <= len <= MAX_PAYLOAD_SIZE ->
  snd (rpc_link_build_frame phy_res (Some pl) len) = [frame_of pl len].
Proof.
  intros Hlen. unfold rpc_link_build_frame.
  rewrite Z.gtb_ltb.
  rewrite (proj2 (Z.ltb_ge MAX_PAYLOAD_SIZE len)),
          (proj2 (Z.ltb_ge len MIN_PAYLOAD_SIZE)) by lia.
  cbn [orb]. by destruct (phy_res <? 0).
Qed.

(** Only the first [len] bytes of the payload buffer reach the frame. *)
Lemma frame_of_take (buf : list Z) (len : Z) :
  frame_of (take (Z.to_nat len) buf) len = frame_of buf len.
Proof. unfold frame_of. by rewrite take_take, Nat.min_id. Qed.

(** C2. Link frame round-trip: for every payload of [len] bytes, [len] in
    [MIN_PAYLOAD_SIZE..MAX_PAYLOAD_SIZE], [rpc_link_build_frame] hands
    exactly one frame to the PHY (and returns [RPC_SUCCESS] when the PHY
    took it), and the bytes of that frame, fed to a parser waiting in
    [ST_WAIT_SOF] in any chunking (one call of [rpc_link_feed_bytes] per
    chunk, so also byte by byte), make the parser send exactly one payload
    to the link-to-transport queue; its length is [len], its bytes are the
    [len] payload bytes, and the parser is again waiting for a start of
    frame. *)
Theorem link_frame_roundtrip
        (phy_res : Z) (P : parser) (buf : list Z) (len : Z) :
  P_st P = ST_WAIT_SOF ->
  length (P_payload P) = Z.to_nat MAX_PAYLOAD_SIZE ->
  MIN_PAYLOAD_SIZE <= len <= MAX_PAYLOAD_SIZE ->
  len <= Z.of_nat (length buf) ->
  exists frame,
    snd (rpc_link_build_frame phy_res (Some buf) len) = [frame]
    /\ (0 <= phy_res ->
        fst (rpc_link_build_frame phy_res (Some buf) len) = RPC_SUCCESS)
    /\ forall chunks,
         concat chunks = frame ->
         exists P' lp,
           feed_chunks P chunks = Some (P', [lp])
           /\ P_st P' = ST_WAIT_SOF
           /\ payload_len lp = len
           /\ take (Z.to_nat len) (payload lp) = take (Z.to_nat len) buf.
Proof.
  intros Hst Hbuf Hlen Hfits.
  exists (frame_of buf len). split; [by apply build_frame_sends|]. split.
  { intros Hphy. unfold rpc_link_build_frame. rewrite Z.gtb_ltb.
    rewrite (proj2 (Z.ltb_ge MAX_PAYLOAD_SIZE len)),
            (proj2 (Z.ltb_ge len MIN_PAYLOAD_SIZE)) by lia.
    cbn [orb]. by rewrite (proj2 (Z.ltb_ge phy_res 0)) by lia. }
  intros chunks Hframe.
  rewrite feed_chunks_concat, Hframe, <- frame_of_take.
  assert (Hpl : Z.of_nat (length (take (Z.to_nat len) buf)) = len)
    by (rewrite length_take;
        change MIN_PAYLOAD_SIZE with 4 in Hlen; lia).
  destruct (feed_frame P (take (Z.to_nat len) buf) Hst Hbuf)
    as (P' & lp & Hfeed & HP' & Hl & Hb); [by rewrite Hpl|].
  rewrite Hpl in Hfeed, Hl.
  assert (Hn : length (take (Z.to_nat len) buf) = Z.to_nat len) by lia.
  rewrite Hn in Hb.
  by exists P', lp.
Qed.

Lemma feed_byte_failure (P : parser) (b : Z) :
  parser_wf P -> validation_failure P b ->
  exists P',
    feed_byte P b = Some (P', [])
    /\ P_st P' = ST_WAIT_SOF /\ P_payload_pos P' = 0 /\ P_length P' = 0.
Proof.
  intros [Hlen Hpos] Hvf. destruct P as [st len [[h0 h1] h2] pos pl].
  cbn [P_payload P_payload_pos] in Hlen, Hpos.
  unfold Link.feed_byte.
  destruct Hvf as [Hst Hc|Hst Hc|Hst Hc|Hst Hc|Hst Hc|Hst Hc];
    cbn [P_st P_length P_hdr P_payload_pos P_payload fst snd] in Hst, Hc |- *;
    subst st.
  - rewrite Z.gtb_ltb.
    destruct Hc as [Hc|Hc].
    + rewrite (proj2 (Z.ltb_lt _ _) Hc). cbn [orb]. by eexists.
    + rewrite (proj2 (Z.ltb_lt _ _) Hc), orb_true_r. by eexists.
  - rewrite (proj2 (Z.eqb_neq _ _) Hc). cbn [negb]. by eexists.
  - rewrite (proj2 (Z.eqb_neq _ _) Hc). by eexists.
  - destruct (_ && _) eqn:Hb; [|by eexists].
    apply andb_true_iff in Hb as [?%Z.ltb_lt ?%Z.ltb_lt]. by destruct Hc.
  - destruct (tmp_filled pl pos) as (tmp & -> & Htmp); [done..|].
    rewrite (crc8_compute_take tmp
               (SOD :: take (Z.to_nat pos) pl) (pos + 1)).
    + rewrite (proj2 (Z.eqb_neq _ _) Hc). cbn [negb]. by eexists.
    + rewrite Htmp. replace (Z.to_nat (pos + 1)) with (S (Z.to_nat pos)) by lia.
      cbn [take firstn]. by rewrite take_take, Nat.min_id.
  - rewrite (proj2 (Z.eqb_neq _ _) Hc). by eexists.
Qed.

(** C3. Parser resync: in every context with the arrays of [P] (hence in
    every reachable one), a byte that fails validation puts the parser back
    in [ST_WAIT_SOF] with its scratch state cleared and nothing sent to the
    queue; [rpc_link_feed_bytes] completes on every input without leaving
    an array, and keeps the shapes; a byte other than SOF in [ST_WAIT_SOF]
    changes nothing; and the initial context has the shapes. *)
Theorem parser_resync :
  (forall P b,
      parser_wf P -> validation_failure P b ->
      exists P',
        feed_byte P b = Some (P', [])
        /\ P_st P' = ST_WAIT_SOF /\ P_payload_pos P' = 0 /\ P_length P' = 0)
  /\ (forall P d n,
         parser_wf P ->
         exists P' out,
           rpc_link_feed_bytes P d n = Some (P', out) /\ parser_wf P')
  /\ (forall P b,
         P_st P = ST_WAIT_SOF -> b <> SOF -> feed_byte P b = Some (P, []))
  /\ parser_wf rpc_link_init.
Proof.
  split; [exact feed_byte_failure|]. split; [|split].
  - intros P d n HP. by apply feed_loop_total.
  - intros P b Hst Hb. unfold Link.feed_byte. rewrite Hst.
    by rewrite (proj2 (Z.eqb_neq _ _) Hb).
  - exact rpc_link_init_wf.
Qed.

End LinkFacts.

(** A request of nine bytes, [REQ, seq 1, name ping, arguments 1 2], in a
    buffer of the full payload size: the frame the builder sends, cut in
    uneven chunks. *)
Lemma link_frame_roundtrip_witness :
  let buf := [11; 1; 112; 105; 110; 103; 0; 1; 2] ++ replicate 90 0 in
  let chunks := [[250; 12]; [0]; [23; 251; 11; 1; 112]; [];
                 [105; 110; 103; 0; 1; 2; 29]; [254]] in
  rpc_link_build_frame 16 (Some buf) 9 = (RPC_SUCCESS, [concat chunks])
  /\ exists P' lp,
       feed_chunks (replicate 99 0) (replicate 100 0) rpc_link_init chunks
         = Some (P', [lp])
       /\ P_st P' = ST_WAIT_SOF
       /\ payload_len lp = 9
       /\ take (Z.to_nat 9) (payload lp) = take (Z.to_nat 9) buf.
Proof.
  intros buf chunks.
  destruct (link_frame_roundtrip (replicate 99 0) (replicate 100 0)
                                 eq_refl eq_refl 16 rpc_link_init buf 9)
    as (frame & Hsent & Hrc & Hfeed).
  - reflexivity.
  - reflexivity.
  - vm_compute. split; discriminate.
  - vm_compute. discriminate.
  - assert (Hframe : concat chunks = frame)
      by (vm_compute in Hsent; by injection Hsent as <-).
    split; [|exact (Hfeed chunks Hframe)].
    rewrite Hframe. apply injective_projections; cbn [fst snd];
      [apply Hrc; lia | exact Hsent].
Defined.

(** A stray byte where SOD is due, after a valid header. *)
Lemma parser_resync_witness :
  exists P',
    feed_byte (replicate 99 0) (replicate 100 0)
              (Parser ST_WAIT_SOD 7 (250, 7, 0) 0 (replicate 99 0)) 0
      = Some (P', [])
    /\ P_st P' = ST_WAIT_SOF /\ P_payload_pos P' = 0 /\ P_length P' = 0.
Proof.
  apply (proj1 (parser_resync (replicate 99 0) (replicate 100 0)
                              eq_refl eq_refl)).
  - split; [reflexivity | vm_compute; split; discriminate].
  - apply VF_sod; [reflexivity | discriminate].
Defined.

(** ** Transport codec *)

Lemma store_at_prefix (pre post : list Z) (x b i : Z) :
  i = Z.of_nat (length pre) ->
  store (pre ++ x :: post) i b = Some (pre ++ b :: post).
Proof.
  intros ->. rewrite store_Some by (rewrite length_app; cbn [length]; lia).
  f_equal. rewrite Nat2Z.id.
  replace (length pre) with (length pre + 0)%nat at 1 by lia.
  by rewrite insert_app_r.
Qed.

Lemma memcpy_at_prefix (pre mid post src : list Z) (off n : Z) :
  off = Z.of_nat (length pre) -> n = Z.of_nat (length mid) ->
  n <= Z.of_nat (length src) ->
  memcpy (pre ++ mid ++ post) off src n
    = Some (pre ++ take (Z.to_nat n) src ++ post).
Proof.
  intros -> -> Hsrc.
  rewrite memcpy_Some by (rewrite ?length_app; lia).
  f_equal. rewrite Nat2Z.id, take_app_length. f_equal. f_equal.
  replace (Z.to_nat (Z.of_nat (length pre) + Z.of_nat (length mid)))
    with (length pre + length mid)%nat by lia.
  by rewrite <- drop_drop, drop_app_length, drop_app_length.
Qed.

Lemma strlen_nat_terminated (name rest : list Z) :
  Forall (fun c => c <> 0) name ->
  strlen_nat (name ++ 0 :: rest) = length name.
Proof.
  induction 1 as [|c name Hc _ IH]; [done|].
  cbn [app strlen_nat length]. rewrite (proj2 (Z.eqb_neq c 0) Hc).
  by rewrite IH.
Qed.

Lemma strlen_no_nul (name : list Z) :
  Forall (fun c => c <> 0) name -> strlen name = Z.of_nat (length name).
Proof.
  unfold strlen. induction 1 as [|c name Hc _ IH]; [done|].
  cbn [strlen_nat length]. rewrite (proj2 (Z.eqb_neq c 0) Hc). lia.
Qed.

Lemma memchr_nat_terminated (name rest : list Z) (n : nat) :
  Forall (fun c => c <> 0) name -> (length name < n)%nat ->
  memchr_nat (name ++ 0 :: rest) 0 n = Some (length name).
Proof.
  intros Hname. revert n.
  induction Hname as [|c name Hc _ IH]; intros n Hn.
  - destruct n; [lia|]. done.
  - destruct n; [cbn [length] in Hn; lia|].
    cbn [app memchr_nat length]. rewrite (proj2 (Z.eqb_neq c 0) Hc).
    rewrite IH by (cbn [length] in Hn; lia). done.
Qed.

(** Whenever the checks pass, the message is laid out as
    [type | seq | name | 0 | args] at the start of [out]. *)
Lemma build_msg_layout (type seq : Z) (name : list Z)
      (args : option (list Z)) (alen : Z) (out : list Z) (olen : Z) :
  valid_type type = true ->
  Forall (fun c => c <> 0) name ->
  MIN_FUNC_NAME_LEN <= Z.of_nat (length name) <= MAX_FUNC_NAME_LEN ->
  0 <= alen <= MAX_FUNC_ARGS_RESP_SIZE ->
  (forall a, args = Some a -> alen <= Z.of_nat (length a)) ->
  3 + Z.of_nat (length name) + alen <= olen ->
  olen <= Z.of_nat (length out) ->
  let body := copied_args args alen in
  let size := 3 + Z.of_nat (length name) + Z.of_nat (length body) in
  rpc_trans_build_msg type seq (Some name) args alen (Some out) olen
    = Some (size,
            Some (type :: seq :: name ++ 0 :: body
                  ++ drop (Z.to_nat size) out)).
Proof.
  change MIN_FUNC_NAME_LEN with 1. change MAX_FUNC_NAME_LEN with 32.
  change MAX_FUNC_ARGS_RESP_SIZE with 64.
  intros Hty Hname Hnlen Halen Hargs Holen Hout body size.
  unfold rpc_trans_build_msg. rewrite Hty. cbn [negb].
  rewrite (strlen_no_nul name Hname).
  change MIN_FUNC_NAME_LEN with 1. change MAX_FUNC_NAME_LEN with 32.
  change MAX_FUNC_ARGS_RESP_SIZE with 64.
  change (TYPE_MSG_SIZE + SEQ_MSG_SIZE) with 2. change TERM_SIZE with 1.
  change MIN_PAYLOAD_SIZE with 4. change MAX_PAYLOAD_SIZE with 99.
  rewrite !Z.gtb_ltb.
  rewrite (proj2 (Z.ltb_ge (Z.of_nat (length name)) 1)),
          (proj2 (Z.ltb_ge 32 (Z.of_nat (length name)))),
          (proj2 (Z.ltb_ge 64 alen)) by lia.
  cbn [orb].
  rewrite (proj2 (Z.ltb_ge (2 + Z.of_nat (length name) + 1 + alen) 4)),
          (proj2 (Z.ltb_ge 99 (2 + Z.of_nat (length name) + 1 + alen))),
          (proj2 (Z.ltb_ge olen (2 + Z.of_nat (length name) + 1 + alen)))
    by lia.
  cbn [orb].
  (* carve [out] into the regions that are written *)
  destruct out as [|x0 [|x1 out2]]; [cbn [length] in Hout; lia..|].
  cbn [length] in Hout.
  assert (Hsplit : out2 = take (length name) out2 ++ drop (length name) out2)
    by (by rewrite take_drop).
  destruct (drop (length name) out2) as [|z rest] eqn:Hrest.
  { apply (f_equal length) in Hrest. rewrite length_drop in Hrest.
    cbn [length] in Hrest. lia. }
  assert (Hxs : length (take (length name) out2) = length name)
    by (rewrite length_take; lia).
  assert (Hrestlen : (length out2 = length name + S (length rest))%nat).
  { rewrite Hsplit at 1. rewrite length_app, Hxs. done. }
  set (xs := take (length name) out2) in *.
  rewrite Hsplit. clear Hsplit.
  pose proof (store_at_prefix [] (x1 :: xs ++ z :: rest) x0 type 0 eq_refl)
    as E1.
  cbn [app] in E1. rewrite E1. clear E1. cbn [mbind option_bind].
  pose proof (store_at_prefix [type] (xs ++ z :: rest) x1 seq (0 + 1) eq_refl)
    as E2.
  cbn [app] in E2. rewrite E2. clear E2. cbn [mbind option_bind].
  pose proof (memcpy_at_prefix [type; seq] xs (z :: rest) name (0 + 1 + 1)
                (Z.of_nat (length name)) eq_refl) as E3.
  cbn [app] in E3. rewrite E3 by (rewrite ?Hxs; lia). clear E3.
  rewrite Nat2Z.id, firstn_all. cbn [mbind option_bind].
  pose proof (store_at_prefix (type :: seq :: name) rest z 0
                (0 + 1 + 1 + Z.of_nat (length name))) as E4.
  cbn [app] in E4. rewrite E4 by (cbn [length]; lia). clear E4.
  cbn [mbind option_bind].
  assert (Hdrop : forall k, (k <= length rest)%nat ->
            drop (Z.to_nat (3 + Z.of_nat (length name) + Z.of_nat k))
                 (x0 :: x1 :: xs ++ z :: rest) = drop k rest).
  { intros k Hk.
    replace (Z.to_nat (3 + Z.of_nat (length name) + Z.of_nat k))
      with (S (S (length xs + S k))) by lia.
    cbn [drop skipn]. rewrite <- drop_drop, drop_app_length. done. }
  unfold size, body, copied_args.
  destruct args as [a|].
  - destruct (alen =? 0) eqn:Hz.
    + cbn [length]. rewrite (Hdrop 0%nat) by lia. cbn [drop skipn app].
      apply f_equal, f_equal2; [lia | done].
    + apply Z.eqb_neq in Hz. specialize (Hargs a eq_refl).
      assert (Hr : rest = take (Z.to_nat alen) rest ++ drop (Z.to_nat alen) rest)
        by (by rewrite take_drop).
      rewrite Hr at 1.
      pose proof (memcpy_at_prefix (type :: seq :: name ++ [0])
                    (take (Z.to_nat alen) rest) (drop (Z.to_nat alen) rest) a
                    (0 + 1 + 1 + Z.of_nat (length name) + 1) alen) as E5.
      cbn [app] in E5. rewrite <- app_assoc in E5. cbn [app] in E5.
      rewrite E5; clear E5.
      * cbn [mbind option_bind]. rewrite length_take.
        replace (Z.to_nat alen `min` length a)%nat with (Z.to_nat alen) by lia.
        rewrite Z2Nat.id by lia.
        rewrite <- (Hdrop (Z.to_nat alen)) by lia. rewrite Z2Nat.id by lia.
        apply f_equal, f_equal2; [lia|]. rewrite <- app_assoc. done.
      * cbn [length]. rewrite length_app. cbn [length]. lia.
      * rewrite length_take. lia.
      * done.
  - cbn [length]. rewrite (Hdrop 0%nat) by lia. cbn [drop skipn app].
    apply f_equal, f_equal2; [lia | done].
Qed.

(** A buffer that starts with [type | seq | name | 0 | body] parses back
    to its parts. *)
Lemma parse_msg_layout (type seq : Z) (name body tl : list Z) (o : parse_out) :
  valid_type type = true ->
  Forall (fun c => c <> 0) name ->
  MIN_FUNC_NAME_LEN <= Z.of_nat (length name) <= MAX_FUNC_NAME_LEN ->
  Z.of_nat (length body) <= MAX_FUNC_ARGS_RESP_SIZE ->
  let buf := type :: seq :: name ++ 0 :: body ++ tl in
  let ilen := 3 + Z.of_nat (length name) + Z.of_nat (length body) in
  rpc_trans_parse_msg (Some buf) ilen o
    = Some (RPC_SUCCESS,
            Parse_out type seq (Some 2)
                      (Some (3 + Z.of_nat (length name)))
                      (Z.of_nat (length body)))
  /\ c_string_at buf 2 = name
  /\ bytes_at buf (3 + Z.of_nat (length name)) (Z.of_nat (length body)) = body.
Proof.
  change MIN_FUNC_NAME_LEN with 1. change MAX_FUNC_NAME_LEN with 32.
  change MAX_FUNC_ARGS_RESP_SIZE with 64.
  intros Hty Hname Hnlen Hblen buf ilen.
  split; [|split].
  - unfold rpc_trans_parse_msg.
    change MIN_PAYLOAD_SIZE with 4. change MAX_PAYLOAD_SIZE with 99.
    change MIN_FUNC_NAME_LEN with 1. change MAX_FUNC_NAME_LEN with 32.
    change MAX_FUNC_ARGS_RESP_SIZE with 64.
    rewrite !Z.gtb_ltb.
    rewrite (proj2 (Z.ltb_ge ilen 4)), (proj2 (Z.ltb_ge 99 ilen))
      by (unfold ilen; lia).
    cbn [orb].
    assert (Hfit : ilen <= Z.of_nat (length buf))
      by (unfold buf, ilen; cbn [length];
          rewrite length_app; cbn [length]; rewrite length_app; lia).
    subst buf.
    change ((type :: seq :: name ++ 0 :: body ++ tl) !! 0%nat)
      with (Some type).
    change ((type :: seq :: name ++ 0 :: body ++ tl) !! 1%nat)
      with (Some seq).
    cbn [mbind option_bind].
    rewrite Hty. cbn [negb].
    destruct (2 >=? ilen) eqn:Hge;
      [rewrite Z.geb_le in Hge; unfold ilen in Hge; lia|].
    rewrite decide_True by exact Hfit.
    change (Z.to_nat 2) with 2%nat. cbn [drop skipn]. rewrite drop_0.
    rewrite memchr_nat_terminated by (done || unfold ilen; lia).
    rewrite !Z.gtb_ltb.
    rewrite (proj2 (Z.ltb_ge (Z.of_nat (length name)) 1)),
            (proj2 (Z.ltb_ge 32 (Z.of_nat (length name)))) by lia.
    cbn [orb].
    rewrite (proj2 (Z.ltb_ge ilen (2 + Z.of_nat (length name) + 1)))
      by (unfold ilen; lia).
    rewrite (proj2 (Z.ltb_ge 64 (ilen - (2 + Z.of_nat (length name) + 1))))
      by (unfold ilen; lia).
    replace (2 + Z.of_nat (length name) + 1)
      with (3 + Z.of_nat (length name)) by lia.
    replace (u16 (ilen - (3 + Z.of_nat (length name))))
      with (Z.of_nat (length body)); [done|].
    unfold u16, ilen. rewrite Z.mod_small; lia.
  - unfold c_string_at, buf. change (Z.to_nat 2) with 2%nat.
    cbn [drop skipn]. rewrite !drop_0. rewrite strlen_nat_terminated by done.
    by rewrite take_app_length.
  - unfold bytes_at, buf.
    replace (Z.to_nat (3 + Z.of_nat (length name)))
      with (S (S (length name + 1))) by lia.
    cbn [drop skipn]. rewrite <- drop_drop, drop_app_length.
    change (drop 1 (0 :: body ++ tl)) with (body ++ tl).
    by rewrite Nat2Z.id, take_app_length.
Qed.

Lemma valid_type_In (type : Z) :
  In type [MSG_REQ; MSG_STREAM; MSG_RESP; MSG_ERR] -> valid_type type = true.
Proof.
  cbn [In]. intros [<-|[<-|[<-|[<-|[]]]]]; reflexivity.
Qed.

(** C1. Transport codec round-trip: for a type among REQ, STREAM, RESP and
    ERR, any sequence number, a name of [MIN_FUNC_NAME_LEN] to
    [MAX_FUNC_NAME_LEN] bytes without a zero byte, and an argument buffer of
    at most [MAX_FUNC_ARGS_RESP_SIZE] bytes (a null pointer only with length
    zero), [rpc_trans_build_msg] into a buffer large enough returns a
    nonzero size, and [rpc_trans_parse_msg] on the bytes written succeeds
    and yields the same type, sequence, name and argument bytes. *)
Theorem codec_roundtrip
        (type seq : Z) (name : list Z) (args : option (list Z)) (alen : Z)
        (out : list Z) (olen : Z) (o : parse_out) :
  In type [MSG_REQ; MSG_STREAM; MSG_RESP; MSG_ERR] ->
  Forall (fun c => c <> 0) name ->
  MIN_FUNC_NAME_LEN <= Z.of_nat (length name) <= MAX_FUNC_NAME_LEN ->
  alen = Z.of_nat (length (default [] args)) ->
  alen <= MAX_FUNC_ARGS_RESP_SIZE ->
  3 + Z.of_nat (length name) + alen <= olen <= Z.of_nat (length out) ->
  exists size out' o',
    rpc_trans_build_msg type seq (Some name) args alen (Some out) olen
      = Some (size, Some out')
    /\ size <> 0
    /\ rpc_trans_parse_msg (Some out') size o = Some (RPC_SUCCESS, o')
    /\ o_type o' = type
    /\ o_seq o' = seq
    /\ (exists off, o_name o' = Some off /\ c_string_at out' off = name)
    /\ o_alen o' = alen
    /\ (exists off, o_args o' = Some off
                    /\ bytes_at out' off (o_alen o') = default [] args).
Proof.
  intros Hty%valid_type_In Hname Hnlen Halen Hmax [Holen Hout].
  assert (Hbody : copied_args args alen = default [] args).
  { unfold copied_args. destruct args as [a|]; [|done]. cbn [from_option id] in *.
    destruct (alen =? 0) eqn:Hz.
    - apply Z.eqb_eq in Hz. destruct a; [done|cbn [length] in Halen; lia].
    - by rewrite Halen, Nat2Z.id, firstn_all. }
  pose proof (build_msg_layout type seq name args alen out olen
                Hty Hname Hnlen) as Hb.
  cbv zeta in Hb. rewrite Hbody in Hb.
  rewrite Hb; [|lia| |lia|lia].
  2:{ intros a ->. cbn [from_option id] in Halen. lia. }
  destruct (parse_msg_layout type seq name (default [] args)
              (drop (Z.to_nat (3 + Z.of_nat (length name)
                               + Z.of_nat (length (default [] args)))) out)
              o Hty Hname Hnlen) as (Hp & Hn & Ha); [lia|].
  eexists _, _, _. split; [reflexivity|].
  split; [lia|]. split; [exact Hp|].
  cbn [o_type o_seq o_name o_args o_alen].
  split; [done|]. split; [done|]. split; [by eexists|].
  split; [done|]. by eexists.
Qed.

Lemma codec_roundtrip_witness :
  exists size out' o',
    rpc_trans_build_msg MSG_REQ 1 (Some [112; 105; 110; 103])
                        (Some [1; 2; 3]) 3
                        (Some (replicate 99 0)) MAX_PAYLOAD_SIZE
      = Some (size, Some out')
    /\ size <> 0
    /\ rpc_trans_parse_msg (Some out') size (Parse_out 0 0 None None 0)
       = Some (RPC_SUCCESS, o')
    /\ o_type o' = MSG_REQ
    /\ o_seq o' = 1
    /\ (exists off, o_name o' = Some off
                    /\ c_string_at out' off = [112; 105; 110; 103])
    /\ o_alen o' = 3
    /\ (exists off, o_args o' = Some off
                    /\ bytes_at out' off (o_alen o') = [1; 2; 3]).
Proof.
  apply (codec_roundtrip MSG_REQ 1 [112; 105; 110; 103] (Some [1; 2; 3]) 3
                         (replicate 99 0) MAX_PAYLOAD_SIZE).
  - cbn [In]. by left.
  - repeat constructor; discriminate.
  - vm_compute. split; discriminate.
  - reflexivity.
  - vm_compute. discriminate.
  - vm_compute. split; discriminate.
Defined.

(** ** Waiter table *)

(** C4, as stated, fails: after [collision_trace], run from the initial
    table, slots 0 and 1 are both in use with sequence number 1. *)
Lemma waiter_seq_collision :
  let st := run_ops collision_trace rpc_trans_init in
  s_wait st !! 0%nat = Some (Waiter 1 false 0 None None 0 true)
  /\ s_wait st !! 1%nat = Some (Waiter 1 false 0 None None 0 true)
  /\ ~ live_seqs_distinct st.
Proof.
  cbv zeta.
  assert (H0 : s_wait (run_ops collision_trace rpc_trans_init) !! 0%nat
               = Some (Waiter 1 false 0 None None 0 true))
    by (vm_compute; reflexivity).
  assert (H1 : s_wait (run_ops collision_trace rpc_trans_init) !! 1%nat
               = Some (Waiter 1 false 0 None None 0 true))
    by (vm_compute; reflexivity).
  split; [exact H0|]. split; [exact H1|].
  intros Hd. by specialize (Hd 0%nat 1%nat _ _ H0 H1 eq_refl eq_refl eq_refl).
Qed.

(** The sequence counter after one attempt. *)
Lemma next_seq_advance (s : Z) :
  1 <= s <= 255 ->
  (if u8 (s + 1) =? 0 then 1 else u8 (s + 1)) = (if s =? 255 then 1 else s + 1).
Proof.
  intros Hs. unfold u8. destruct (s =? 255) eqn:E.
  - apply Z.eqb_eq in E. by subst.
  - apply Z.eqb_neq in E. rewrite Z.mod_small by lia.
    destruct (s + 1 =? 0) eqn:E2; [apply Z.eqb_eq in E2; lia | done].
Qed.

Lemma waiter_inv_init :
  waiter_inv rpc_trans_init (replicate (Z.to_nat REQ_TABLE_SIZE) 0%nat).
Proof.
  split; [reflexivity|]. split; [by vm_compute|].
  assert (Hidle : forall i w, s_wait rpc_trans_init !! i = Some w ->
                              w_in_use w = false).
  { intros i w [-> _]%lookup_replicate. done. }
  split.
  - intros i w a Hw _ Hu. by rewrite (Hidle i w Hw) in Hu.
  - intros i j wi wj a Hw _ _ _ Hu. by rewrite (Hidle i wi Hw) in Hu.
Qed.

Lemma all_young_spec (st : trans_state) (ages : list nat) :
  all_young st ages = true ->
  forall i w a,
    s_wait st !! i = Some w -> ages !! i = Some a -> w_in_use w = true ->
    (a < 254)%nat.
Proof.
  unfold all_young. rewrite forallb_forall. intros Hall i w a Hw Ha Hu.
  assert (Hin : In (w, a) (zip (s_wait st) ages)).
  { apply list_elem_of_In, (list_elem_of_lookup_2 _ i).
    rewrite lookup_zip_with, Hw. cbn. by rewrite Ha. }
  specialize (Hall _ Hin). cbn [fst snd] in Hall. rewrite Hu in Hall.
  cbn [negb orb] in Hall. by apply Nat.ltb_lt.
Qed.

Lemma mod_255_shift (x a : Z) :
  (x - 255 - a) mod 255 = (x - a) mod 255.
Proof.
  replace (x - 255 - a) with (x - a + (-1) * 255) by lia.
  by rewrite Z.mod_add.
Qed.

(** Ageing every slot by one attempt keeps the tie to the counter. *)
Lemma aged_seq (next : Z) (a : nat) (s : Z) :
  1 <= next <= 255 ->
  s - 1 = (next - 2 - Z.of_nat a) mod 255 ->
  s - 1 = ((if next =? 255 then 1 else next + 1) - 2 - Z.of_nat (S a)) mod 255.
Proof.
  intros Hn ->. destruct (next =? 255) eqn:E.
  - apply Z.eqb_eq in E. subst next.
    rewrite <- (mod_255_shift (255 - 2) (Z.of_nat a)). f_equal. lia.
  - f_equal. lia.
Qed.

Lemma waiter_inv_alloc (st : trans_state) (ages : list nat) :
  waiter_inv st ages -> all_young st ages = true ->
  waiter_inv (waiter_step st Op_alloc) (age_step st ages Op_alloc).
Proof.
  intros (Hlen & Hnext & Hseq & Hage) Hyoung.
  pose proof (all_young_spec st ages Hyoung) as Hy.
  unfold waiter_step, age_step, alloc_attempt.
  rewrite (next_seq_advance _ Hnext).
  assert (Hnext' : 1 <= (if s_next_seq st =? 255 then 1 else s_next_seq st + 1)
                   <= 255).
  { destruct (s_next_seq st =? 255) eqn:E; [lia|]. apply Z.eqb_neq in E. lia. }
  destruct (list_find _ (s_wait st)) as [[k wk]|] eqn:Hfind; cbn [fst snd].
  - apply list_find_Some in Hfind as (Hk & Hfree & _).
    split; [|split; [done|split]]; cbn [s_wait s_next_seq].
    + by rewrite length_insert, length_fmap, length_alter.
    + intros i w a Hw Ha Hu.
      destruct (decide (i = k)) as [->|Hne].
      * rewrite list_lookup_insert_eq in Ha
          by (rewrite length_fmap, Hlen; by eapply lookup_lt_Some).
        injection Ha as <-.
        rewrite list_lookup_alter_eq, Hk in Hw. injection Hw as <-.
        split; [lia|]. cbn [w_seq set_seq].
        destruct (s_next_seq st =? 255) eqn:E.
        -- apply Z.eqb_eq in E. rewrite E. reflexivity.
        -- apply Z.eqb_neq in E. rewrite Z.mod_small; lia.
      * rewrite list_lookup_insert_ne, list_lookup_fmap in Ha by done.
        rewrite list_lookup_alter_ne in Hw by done.
        destruct (ages !! i) as [a0|] eqn:Ha0; [|done].
        injection Ha as <-.
        destruct (Hseq i w a0 Hw Ha0 Hu) as [_ Hs].
        pose proof (Hy i w a0 Hw Ha0 Hu).
        split; [lia|]. by apply aged_seq.
    + intros i j wi wj a Hwi Hwj Hai Haj Hui Huj.
      assert (Hold : forall i w, i <> k ->
                alter (fun w => set_seq (s_next_seq st) (set_in_use true w))
                      k (s_wait st) !! i = Some w ->
                <[k:=0%nat]> (S <$> ages) !! i = Some a ->
                exists a0, a = S a0 /\ s_wait st !! i = Some w
                           /\ ages !! i = Some a0).
      { intros i' w' Hne Hw' Ha'.
        rewrite list_lookup_insert_ne, list_lookup_fmap in Ha' by done.
        rewrite list_lookup_alter_ne in Hw' by done.
        destruct (ages !! i') as [a0|]; [|done]. injection Ha' as <-.
        by exists a0. }
      assert (Hnew : <[k:=0%nat]> (S <$> ages) !! k = Some 0%nat).
      { rewrite list_lookup_insert_eq; [done|].
        rewrite length_fmap, Hlen. by eapply lookup_lt_Some. }
      destruct (decide (i = k)) as [->|Hi], (decide (j = k)) as [->|Hj];
        [done| | |].
      * rewrite Hnew in Hai. injection Hai as <-.
        destruct (Hold j wj Hj Hwj Haj) as (a0 & ? & _). done.
      * rewrite Hnew in Haj. injection Haj as <-.
        destruct (Hold i wi Hi Hwi Hai) as (a0 & ? & _). done.
      * destruct (Hold i wi Hi Hwi Hai) as (a0 & -> & Hwi0 & Hai0).
        destruct (Hold j wj Hj Hwj Haj) as (a1 & [= <-] & Hwj0 & Haj0).
        by eapply Hage.
  - split; [|split; [done|split]]; cbn [s_wait s_next_seq].
    + by rewrite length_fmap.
    + intros i w a Hw Ha Hu. rewrite list_lookup_fmap in Ha.
      destruct (ages !! i) as [a0|] eqn:Ha0; [|done]. injection Ha as <-.
      destruct (Hseq i w a0 Hw Ha0 Hu) as [_ Hs].
      pose proof (Hy i w a0 Hw Ha0 Hu).
      split; [lia|]. by apply aged_seq.
    + intros i j wi wj a Hwi Hwj Hai Haj Hui Huj.
      rewrite list_lookup_fmap in Hai, Haj.
      destruct (ages !! i) as [a0|] eqn:Ha0; [|done].
      destruct (ages !! j) as [a1|] eqn:Ha1; [|done].
      cbn in Hai, Haj. injection Hai as <-. injection Haj as [= ->].
      by eapply Hage.
Qed.

Lemma waiter_inv_free (st : trans_state) (ages : list nat) (k : nat) :
  waiter_inv st ages ->
  waiter_inv (waiter_step st (Op_free k)) (age_step st ages (Op_free k)).
Proof.
  intros (Hlen & Hnext & Hseq & Hage).
  unfold waiter_step, age_step, rpc_trans_free_waiter, upd_waiter, with_wait.
  assert (Hold : forall i w,
            alter (set_in_use false) k (s_wait st) !! i = Some w ->
            w_in_use w = true -> s_wait st !! i = Some w).
  { intros i w Hw Hu. destruct (decide (i = k)) as [->|Hne].
    - rewrite list_lookup_alter_eq in Hw.
      destruct (s_wait st !! k); [|done]. injection Hw as <-. done.
    - by rewrite list_lookup_alter_ne in Hw. }
  split; [|split; [done|split]]; cbn [s_wait s_next_seq].
  - by rewrite length_alter.
  - intros i w a Hw Ha Hu. eapply Hseq; eauto.
  - intros i j wi wj a Hwi Hwj Hai Haj Hui Huj. eapply Hage; eauto.
Qed.

Lemma waiter_inv_distinct (st : trans_state) (ages : list nat) :
  waiter_inv st ages -> live_seqs_distinct st.
Proof.
  intros (Hlen & Hnext & Hseq & Hage) i j wi wj Hwi Hwj Hui Huj Heq.
  destruct (lookup_lt_is_Some_2 ages i) as [ai Hai];
    [rewrite Hlen; by eapply lookup_lt_Some|].
  destruct (lookup_lt_is_Some_2 ages j) as [aj Haj];
    [rewrite Hlen; by eapply lookup_lt_Some|].
  destruct (Hseq i wi ai Hwi Hai Hui) as [Hbi Hsi].
  destruct (Hseq j wj aj Hwj Haj Huj) as [Hbj Hsj].
  assert (ai = aj).
  { rewrite Heq, Hsj in Hsi.
    pose proof (Z.div_mod (s_next_seq st - 2 - Z.of_nat ai) 255 ltac:(lia)).
    pose proof (Z.div_mod (s_next_seq st - 2 - Z.of_nat aj) 255 ltac:(lia)).
    lia. }
  subst aj. by eapply Hage.
Qed.

Lemma short_lived_inv (ops : list waiter_op) :
  forall st ages,
    waiter_inv st ages -> short_lived st ages ops = true ->
    exists ages', waiter_inv (run_ops ops st) ages'.
Proof.
  induction ops as [|op ops IH]; intros st ages Hinv Hshort.
  - by exists ages.
  - cbn [short_lived] in Hshort. apply andb_true_iff in Hshort as [Hop Hrest].
    cbn [run_ops fold_left]. apply (IH _ (age_step st ages op)); [|done].
    destruct op as [|k].
    + by apply waiter_inv_alloc.
    + by apply waiter_inv_free.
Qed.

(** C4, amended. In every state of the waiter table reached from the
    initial one by allocation attempts and frees in which no waiter is
    still in use when the 255th allocation attempt after its own is made,
    the slots in use carry pairwise distinct sequence numbers. *)
Theorem live_seqs_distinct_short_lived (ops : list waiter_op) :
  short_lived rpc_trans_init (replicate (Z.to_nat REQ_TABLE_SIZE) 0%nat) ops
    = true ->
  live_seqs_distinct (run_ops ops rpc_trans_init).
Proof.
  intros Hshort.
  destruct (short_lived_inv ops _ _ waiter_inv_init Hshort) as [ages Hinv].
  by eapply waiter_inv_distinct.
Qed.

(** Three callers allocate, the first one frees, a fourth allocates. *)
Lemma live_seqs_distinct_witness :
  live_seqs_distinct
    (run_ops [Op_alloc; Op_alloc; Op_alloc; Op_free 0; Op_alloc]
             rpc_trans_init).
Proof.
  apply (live_seqs_distinct_short_lived
           [Op_alloc; Op_alloc; Op_alloc; Op_free 0; Op_alloc]).
  vm_compute. reflexivity.
Defined.

(** The colliding interleaving is excluded by the lifetime bound. *)
Lemma collision_trace_long_lived :
  short_lived rpc_trans_init (replicate (Z.to_nat REQ_TABLE_SIZE) 0%nat)
              collision_trace = false.
Proof. vm_compute. reflexivity. Qed.

(** ** Registry *)

(** C8, as stated, fails: registering the name ping a second time
    succeeds and appends a second entry. *)
Lemma register_duplicate_accepted :
  let '(rc1, R1) := register_fn registry_init (Some ping_name)
                                (Some handler_fn_ping) in
  let '(rc2, R2) := register_fn R1 (Some ping_name) (Some handler_fn_ping) in
  rc1 = RPC_SUCCESS
  /\ find_reg R1 ping_name = Some 0
  /\ rc2 = RPC_SUCCESS
  /\ s_reg_count R2 = 2
  /\ reg_name <$> take 2 (s_reg R2) = [Some ping_name; Some ping_name].
Proof. vm_compute. repeat split; reflexivity. Qed.

(** C8, amended. [register_fn] succeeds exactly when the registry has free
    capacity, whether or not the name is already present: on success the
    entry is stored at index [s_reg_count], the count grows by one and the
    earlier entries are untouched; on failure the registry is unchanged. *)
Theorem register_fn_capacity
        (R : registry) (name : option (list Z)) (fn : option rpc_fn_t) :
  let '(rc, R') := register_fn R name fn in
  (rc = RPC_SUCCESS <-> s_reg_count R < NUM_REG_FUNC)
  /\ (rc = RPC_SUCCESS \/ rc = RPC_ERROR)
  /\ (rc = RPC_SUCCESS ->
      s_reg_count R' = s_reg_count R + 1
      /\ s_reg R' = <[Z.to_nat (s_reg_count R) := Reg_entry name fn]> (s_reg R)
      /\ forall i, i <> Z.to_nat (s_reg_count R) ->
                   s_reg R' !! i = s_reg R !! i)
  /\ (rc = RPC_ERROR -> R' = R).
Proof.
  unfold register_fn. destruct (s_reg_count R <? NUM_REG_FUNC) eqn:E.
  - apply Z.ltb_lt in E. split; [done|]. split; [by left|].
    split; [|done]. intros _. cbn [s_reg_count s_reg].
    split; [done|]. split; [done|].
    intros i Hi. by rewrite list_lookup_insert_ne.
  - apply Z.ltb_ge in E. split; [split; [done | lia]|].
    split; [by right|]. split; done.
Qed.

(** ** The calls return *)

Lemma store_length (buf : list Z) (i b : Z) (buf' : list Z) :
  store buf i b = Some buf' -> length buf' = length buf.
Proof.
  unfold store. destruct (decide _); [|done].
  intros [= <-]. by rewrite length_insert.
Qed.

Lemma memcpy_length (dst : list Z) (off : Z) (src : list Z) (n : Z)
      (dst' : list Z) :
  memcpy dst off src n = Some dst' -> length dst' = length dst.
Proof.
  unfold memcpy. destruct (decide _) as [(?&?&?&?)|]; [|done].
  intros [= <-]. rewrite !length_app, !length_take, length_drop. lia.
Qed.

Lemma strlen_nat_le (s : list Z) : (strlen_nat s <= length s)%nat.
Proof.
  induction s as [|c s IH]; [done|]. cbn [strlen_nat length].
  destruct (c =? 0); lia.
Qed.

(** [rpc_trans_build_msg] stays inside [out] and [args]. *)
Lemma build_msg_total (type seq : Z) (name args : option (list Z)) (alen : Z)
      (out : list Z) (olen : Z) :
  args_readable args alen ->
  olen <= Z.of_nat (length out) ->
  exists size buf,
    rpc_trans_build_msg type seq name args alen (Some out) olen
      = Some (size, Some buf).
Proof.
  intros [Halen Hargs] Hout. unfold rpc_trans_build_msg.
  destruct name as [nm|]; [|by eexists _, _].
  destruct (negb _); [by eexists _, _|].
  destruct (_ || _); [by eexists _, _|].
  destruct (alen >? _); [by eexists _, _|].
  change (TYPE_MSG_SIZE + SEQ_MSG_SIZE) with 2. change TERM_SIZE with 1.
  change MIN_PAYLOAD_SIZE with 4.
  destruct ((2 + strlen nm + 1 + alen <? 4) || _) eqn:Hb; [by eexists _, _|].
  apply orb_false_iff in Hb as [Hmin%Z.ltb_ge _].
  destruct (_ >? olen) eqn:Hfit; [by eexists _, _|].
  rewrite Z.gtb_ltb in Hfit. apply Z.ltb_ge in Hfit.
  pose proof (strlen_nat_le nm) as Hnm. unfold strlen in *.
  destruct (store out 0 type) as [b1|] eqn:E1;
    [|unfold store in E1; rewrite decide_True in E1 by lia; done].
  pose proof (store_length _ _ _ _ E1) as L1. cbn [mbind option_bind].
  destruct (store b1 (0 + 1) seq) as [b2|] eqn:E2;
    [|unfold store in E2; rewrite decide_True in E2 by lia; done].
  pose proof (store_length _ _ _ _ E2) as L2. cbn [mbind option_bind].
  destruct (memcpy b2 (0 + 1 + 1) nm (Z.of_nat (strlen_nat nm)))
    as [b3|] eqn:E3;
    [|unfold memcpy in E3; rewrite decide_True in E3 by lia; done].
  pose proof (memcpy_length _ _ _ _ _ E3) as L3. cbn [mbind option_bind].
  destruct (store b3 (0 + 1 + 1 + Z.of_nat (strlen_nat nm)) 0)
    as [b4|] eqn:E4;
    [|unfold store in E4; rewrite decide_True in E4 by lia; done].
  pose proof (store_length _ _ _ _ E4) as L4. cbn [mbind option_bind].
  destruct args as [a|]; [|by eexists _, _].
  destruct (alen =? 0); [by eexists _, _|].
  specialize (Hargs a eq_refl).
  destruct (memcpy b4 _ a alen) as [b5|] eqn:E5;
    [|unfold memcpy in E5; rewrite decide_True in E5 by lia; done].
  cbn [mbind option_bind]. by eexists _, _.
Qed.

Lemma alloc_attempt_length (st : trans_state) :
  length (s_wait (snd (alloc_attempt st))) = length (s_wait st)
  /\ forall s i, fst (alloc_attempt st) = Some (s, i) ->
                 (i < length (s_wait st))%nat.
Proof.
  unfold alloc_attempt.
  destruct (list_find _ (s_wait st)) as [[k wk]|] eqn:Hfind; cbn [fst snd s_wait].
  - apply list_find_Some in Hfind as (Hk & _).
    split; [by rewrite length_alter|].
    intros s i [= _ <-]. by eapply lookup_lt_Some.
  - split; [done|]. by intros s i [=].
Qed.

Lemma alloc_waiter_loop_slot (W : world) (n : nat) :
  world_wf W ->
  forall st rc seq i st1 log,
    alloc_waiter_loop W n st = ((rc, Some (seq, i)), st1, log) ->
    (i < length (s_wait st1))%nat.
Proof.
  intros (_ & Hdelay & _).
  induction n as [|n IH]; intros st rc seq i st1 log Hloop;
    cbn [alloc_waiter_loop] in Hloop; [done|].
  destruct (alloc_attempt_length st) as [Hlen Hidx].
  destruct (alloc_attempt st) as [[[s k]|] st0]; cbn [fst snd] in Hlen, Hidx.
  - injection Hloop as _ _ <- <- _. rewrite Hlen. by eapply Hidx.
  - destruct (alloc_waiter_loop W n (W_on_delay W st0))
      as [[r2 st2] log2] eqn:E.
    injection Hloop as -> <- _. by eapply IH.
Qed.

Lemma finish_total (rc : Z) (i : nat) (st : trans_state) (log : list os_call) :
  (i < length (s_wait st))%nat -> exists r, finish rc i st log = Some r.
Proof.
  intros [w Hw]%lookup_lt_is_Some_2. unfold finish. rewrite Hw.
  by eexists.
Qed.

Lemma await_response_total (W : world) (i : nat) (timeout_ms : Z)
      (st : trans_state) (log : list os_call) :
  world_wf W -> (i < length (s_wait st))%nat ->
  exists r, await_response W i timeout_ms st log = Some r.
Proof.
  intros (_ & _ & Hwait) Hi. unfold await_response, sem_take. cbv zeta.
  set (t := if timeout_ms =? 0 then REQ_TIMEOUT_MS_DEFAULT else timeout_ms).
  specialize (Hwait i t st).
  destruct (lookup_lt_is_Some_2 (s_wait (W_on_sem_wait W i t st)) i)
    as [w Hw]; [lia|].
  rewrite Hw. cbn [mbind option_bind].
  destruct (w_done w); cbn [negb mbind option_bind].
  - unfold upd_waiter, with_wait. cbn [s_wait].
    rewrite list_lookup_alter_eq, Hw. cbn [fmap option_fmap option_map mbind option_bind].
    apply finish_total. cbn [s_wait]. rewrite length_alter. lia.
  - apply finish_total. lia.
Qed.

(** [rpc_trans_request] returns, whatever its arguments. *)
Lemma rpc_trans_request_total
      (W : world) (st : trans_state) (name args : option (list Z))
      (args_len : Z) (resp_buf : option (list Z)) (resp_len : option Z)
      (timeout_ms : Z) :
  world_wf W -> args_readable args args_len ->
  exists r,
    rpc_trans_request W st name args args_len resp_buf resp_len timeout_ms
      = Some r.
Proof.
  intros HW Hargs. unfold rpc_trans_request.
  destruct name as [nm|]; [|by eexists].
  destruct (_ || _); [by eexists|].
  destruct resp_buf as [rb|]; [|by eexists].
  destruct resp_len as [cap|]; [|by eexists].
  destruct (cap <? _); [by eexists|].
  destruct (rpc_trans_alloc_waiter W st) as [[[rc0 [[seq i]|]] st1] log1] eqn:Ha;
    [|by eexists].
  apply (alloc_waiter_loop_slot W _ HW) in Ha.
  destruct (build_msg_total MSG_REQ seq (Some nm) args args_len
              (W_lp_uninit W) MAX_PAYLOAD_SIZE Hargs)
    as (len & buf & ->); [destruct HW as [-> _]; lia|].
  cbn [mbind option_bind].
  set (st2 := upd_waiter i _ st1).
  assert (H2 : (i < length (s_wait st2))%nat)
    by (unfold st2, upd_waiter, with_wait; cbn [s_wait];
        by rewrite length_alter).
  destruct (len =? 0); [by apply finish_total|].
  unfold send_TransToLink. destruct (W_queue_send_ok W); cbn [negb].
  - by apply await_response_total.
  - by apply finish_total.
Qed.

(** ** The request path *)

Section Request.
Variable W : world.

Lemma alloc_waiter_loop_log (n : nat) :
  forall st r st' log,
    alloc_waiter_loop W n st = (r, st', log) -> no_sem_take log.
Proof.
  induction n as [|n IH]; intros st r st' log Hloop; cbn [alloc_waiter_loop] in Hloop.
  - injection Hloop as <- <- <-. by intros i t ok [].
  - destruct (alloc_attempt st) as [[sw|] st1].
    + injection Hloop as <- <- <-. by intros i t ok [].
    + destruct (alloc_waiter_loop W n (W_on_delay W st1)) as [[r2 st2] log2] eqn:E.
      injection Hloop as <- <- <-.
      intros i t ok [Hhd|Htl]; [done|]. by eapply IH.
Qed.

Lemma send_TransToLink_log (lp : link_payload_t) (st : trans_state) :
  no_sem_take (snd (send_TransToLink W lp st)).
Proof.
  unfold send_TransToLink. destruct (W_queue_send_ok W); cbn [snd];
    intros i t ok [Hhd|[]]; done.
Qed.

Lemma no_sem_take_app (l1 l2 : list os_call) :
  no_sem_take l1 -> no_sem_take l2 -> no_sem_take (l1 ++ l2).
Proof.
  intros H1 H2 i t ok [?|?]%in_app_or; [by eapply H1 | by eapply H2].
Qed.

Lemma finish_inv (rc : Z) (i : nat) (st : trans_state) (log : list os_call)
      (r : request_result) :
  finish rc i st log = Some r ->
  exists w, s_wait st !! i = Some w
            /\ r = Request_result rc (w_resp_buf w) (w_resp_len w)
                     (rpc_trans_free_waiter st (Some i)) log.
Proof.
  unfold finish. destruct (s_wait st !! i) as [w|]; [|done].
  cbn [mbind option_bind]. intros [= <-]. by exists w.
Qed.

(** A call either returns [RPC_ERROR] before it ever waits, or goes on to
    wait for its response on some slot. *)
Lemma request_cases (st : trans_state) (name args : option (list Z))
      (args_len : Z) (resp_buf : option (list Z)) (resp_len : option Z)
      (timeout_ms : Z) (r : request_result) :
  rpc_trans_request W st name args args_len resp_buf resp_len timeout_ms
    = Some r ->
  (r_rc r = RPC_ERROR /\ no_sem_take (r_log r))
  \/ (exists i st3 log,
         no_sem_take log
         /\ await_response W i timeout_ms st3 log = Some r).
Proof.
  unfold rpc_trans_request.
  assert (Hnil : no_sem_take []) by (by intros i t ok []).
  destruct name as [nm|]; [|intros [= <-]; by left].
  destruct (_ || _); [intros [= <-]; by left|].
  destruct resp_buf as [rb|]; [|intros [= <-]; by left].
  destruct resp_len as [cap|]; [|intros [= <-]; by left].
  destruct (cap <? _); [intros [= <-]; by left|].
  destruct (rpc_trans_alloc_waiter W st) as [[[rc0 [[seq i]|]] st1] log1] eqn:Ha;
    [|intros [= <-]; left; split; [done|]; by eapply alloc_waiter_loop_log].
  apply alloc_waiter_loop_log in Ha.
  destruct (rpc_trans_build_msg _ _ _ _ _ _ _) as [[len buf]|]; [|done].
  cbn [mbind option_bind].
  destruct (len =? 0).
  { intros (w & _ & ->)%finish_inv. by left. }
  destruct (send_TransToLink W _ _) as [[sent st3] log2] eqn:Hs.
  pose proof (send_TransToLink_log
                (Link_payload (default [] buf) len)
                (upd_waiter i (fun w => set_resp_buf_cap cap
                                          (set_resp_len (Some cap)
                                             (set_resp_buf (Some rb) w))) st1))
    as Hlog2.
  rewrite Hs in Hlog2. cbn [snd] in Hlog2.
  destruct sent; cbn [negb].
  - intros Hw. right. exists i, st3, (log1 ++ log2).
    split; [by apply no_sem_take_app | done].
  - intros (w & _ & ->)%finish_inv. left.
    split; [done|]. by apply no_sem_take_app.
Qed.

(** The wait itself: one [os_sem_take] with the effective timeout, whose
    outcome is the state of the semaphore once the other threads have run. *)
Lemma await_cases (i : nat) (timeout_ms : Z) (st : trans_state)
      (log : list os_call) (r : request_result) :
  await_response W i timeout_ms st log = Some r ->
  let t := if timeout_ms =? 0 then REQ_TIMEOUT_MS_DEFAULT else timeout_ms in
  let st1 := W_on_sem_wait W i t st in
  exists w,
    s_wait st1 !! i = Some w
    /\ r_log r = log ++ [Os_sem_take i t (w_done w)]
    /\ r_resp_buf r = w_resp_buf w
    /\ r_resp_len r = w_resp_len w
    /\ r_rc r = (if w_done w then w_result_code w else RPC_ERROR)
    /\ r_state r =
         rpc_trans_free_waiter
           (if w_done w then upd_waiter i (set_done false) st1 else st1)
           (Some i).
Proof.
  unfold await_response, sem_take. cbv zeta.
  set (t := if timeout_ms =? 0 then REQ_TIMEOUT_MS_DEFAULT else timeout_ms).
  destruct (s_wait (W_on_sem_wait W i t st) !! i) as [w|] eqn:Hw; [|done].
  cbn [mbind option_bind]. intros Hr. exists w. split; [done|].
  destruct (w_done w) eqn:Hd; cbn [negb mbind option_bind] in Hr.
  - unfold upd_waiter, with_wait in Hr. cbn [s_wait] in Hr.
    rewrite list_lookup_alter_eq, Hw in Hr.
    cbn [fmap option_fmap option_map mbind option_bind] in Hr.
    apply finish_inv in Hr as (w' & Hw' & ->). cbn [s_wait] in Hw'.
    rewrite list_lookup_alter_eq, Hw in Hw'. injection Hw' as <-.
    done.
  - apply finish_inv in Hr as (w' & Hw' & ->).
    rewrite Hw in Hw'. injection Hw' as <-. done.
Qed.

End Request.

Lemma alloc_attempt_free_slot (st : trans_state) (i : nat) (w : waiter_t) :
  s_wait st !! i = Some w -> w_in_use w = false ->
  exists s k, fst (alloc_attempt st) = Some (s, k).
Proof.
  intros Hw Hfree. unfold alloc_attempt.
  destruct (list_find_elem_of (fun w => w_in_use w = false) (s_wait st) w)
    as [[k wk] Hfind]; [by eapply list_elem_of_lookup_2 | done |].
  rewrite Hfind. by eexists _, _.
Qed.

(** C9, as stated, fails: with [*resp_len = 10] the call is rejected on
    the spot, but with the generic code. *)
Lemma request_small_capacity_generic :
  rpc_request quiet_world rpc_trans_init (Some ping_name) None 0
              (Some (replicate 10 0)) (Some 10) 1000
    = Some (Request_result RPC_ERROR (Some (replicate 10 0)) (Some 10)
                           rpc_trans_init [])
  /\ RPC_ERROR <> RPC_ERROR_INVALID_ARGS.
Proof. split; [vm_compute; reflexivity | discriminate]. Qed.

(** C9, amended. A call with a non-null name, non-null [resp_buf] and
    [resp_len] but [*resp_len < MAX_FUNC_ARGS_RESP_SIZE] is rejected
    locally: no waiter is allocated, nothing is queued, no OS call is made,
    the caller's memory is untouched, and the value returned is the
    generic [RPC_ERROR]. *)
Theorem request_small_capacity
        (W : world) (st : trans_state) (name : list Z)
        (args : option (list Z)) (args_len : Z)
        (resp_buf : list Z) (cap : Z) (timeout_ms : Z) :
  cap < MAX_FUNC_ARGS_RESP_SIZE ->
  rpc_request W st (Some name) args args_len
              (Some resp_buf) (Some cap) timeout_ms
    = Some (Request_result RPC_ERROR (Some resp_buf) (Some cap) st []).
Proof.
  intros Hcap. unfold rpc_request, rpc_trans_request.
  destruct (_ || _); [done|].
  by rewrite (proj2 (Z.ltb_lt _ _) Hcap).
Qed.

Lemma request_small_capacity_witness :
  rpc_request quiet_world rpc_trans_init (Some ping_name) None 0
              (Some (replicate 10 0)) (Some 10) 1000
    = Some (Request_result RPC_ERROR (Some (replicate 10 0)) (Some 10)
                           rpc_trans_init []).
Proof.
  apply (request_small_capacity quiet_world rpc_trans_init ping_name None 0
                                (replicate 10 0) 10 1000).
  vm_compute. reflexivity.
Defined.

(** C7, as stated, fails: with [timeout_ms = 50] the semaphore is taken
    with a timeout of 50 ms, not of max(50, 200) = 200 ms. *)
Lemma request_short_timeout_kept :
  (exists lp,
      r_log <$> unanswered_ping 50
      = Some [Os_queue_send_TransToLink lp OS_WAIT_FOREVER true;
              Os_sem_take 0 50 false])
  /\ Z.max 50 REQ_TIMEOUT_MS_DEFAULT = 200.
Proof. split; [eexists; vm_compute; reflexivity | reflexivity]. Qed.

(** C7, amended. [rpc_request] returns, and whenever it has taken
    the semaphore, the duration it passed is [timeout_ms] itself when that
    is nonzero and [REQ_TIMEOUT_MS_DEFAULT] when it is zero. *)
Theorem request_wait_duration
        (W : world) (st : trans_state) (name args : option (list Z))
        (args_len : Z) (resp_buf : option (list Z)) (resp_len : option Z)
        (timeout_ms : Z) :
  world_wf W -> args_readable args args_len ->
  exists r,
    rpc_request W st name args args_len resp_buf resp_len timeout_ms
      = Some r
    /\ forall i t ok,
        In (Os_sem_take i t ok) (r_log r) ->
        t = (if timeout_ms =? 0 then REQ_TIMEOUT_MS_DEFAULT else timeout_ms).
Proof.
  intros HW Hargs. unfold rpc_request.
  destruct (rpc_trans_request_total W st name args args_len resp_buf resp_len
              timeout_ms HW Hargs) as [r Hr].
  exists r. split; [done|]. intros i t ok Hin.
  apply request_cases in Hr as [[_ Hno]|(i' & st3 & log & Hno & Haw)].
  - by apply Hno in Hin.
  - apply await_cases in Haw as (w & _ & Hlog & _).
    rewrite Hlog in Hin. apply in_app_or in Hin as [Hin|[Hin|[]]].
    + by apply Hno in Hin.
    + by injection Hin as <- <- <-.
Qed.

Lemma quiet_world_wf : world_wf quiet_world.
Proof. split; [reflexivity|]. split; done. Qed.

Lemma no_args_readable : args_readable None 0.
Proof. split; [done|]. by intros a [=]. Qed.

Lemma request_wait_duration_witness :
  exists r,
    unanswered_ping 0 = Some r
    /\ In (Os_sem_take 0%nat 200 false) (r_log r)
    /\ 200 = (if 0 =? 0 then REQ_TIMEOUT_MS_DEFAULT else 0).
Proof.
  destruct (request_wait_duration quiet_world rpc_trans_init (Some ping_name)
              None 0 (Some (replicate 64 0)) (Some 64) 0
              quiet_world_wf no_args_readable) as (r & Hr & Ht).
  exists r. split; [exact Hr|].
  assert (Hin : In (Os_sem_take 0%nat 200 false) (r_log r)).
  { vm_compute in Hr. injection Hr as <-. cbn [r_log In]. by right; left. }
  split; [exact Hin|]. exact (Ht _ _ _ Hin).
Defined.

(** C6, as stated, fails: the unanswered call returns the generic
    [RPC_ERROR] after its wait has expired, not [RPC_ERROR_TIMEOUT]. *)
Lemma request_timeout_generic :
  (r_rc <$> unanswered_ping 50) = Some RPC_ERROR
  /\ (exists lp,
         r_log <$> unanswered_ping 50
         = Some [Os_queue_send_TransToLink lp OS_WAIT_FOREVER true;
                 Os_sem_take 0 50 false])
  /\ RPC_ERROR <> RPC_ERROR_TIMEOUT.
Proof.
  split; [vm_compute; reflexivity|].
  split; [eexists; vm_compute; reflexivity | discriminate].
Qed.

(** C6, amended. [rpc_request] returns, and when its [os_sem_take]
    on slot [i] has expired it returns the generic [RPC_ERROR]; slot [i] is
    then no longer in use, so the next allocation attempt finds a free
    slot. *)
Theorem request_timeout
        (W : world) (st : trans_state) (name args : option (list Z))
        (args_len : Z) (resp_buf : option (list Z)) (resp_len : option Z)
        (timeout_ms : Z) :
  world_wf W -> args_readable args args_len ->
  exists r,
    rpc_request W st name args args_len resp_buf resp_len timeout_ms
      = Some r
    /\ forall i t,
        In (Os_sem_take i t false) (r_log r) ->
        r_rc r = RPC_ERROR
        /\ (exists w, s_wait (r_state r) !! i = Some w /\ w_in_use w = false)
        /\ (exists s k, fst (alloc_attempt (r_state r)) = Some (s, k)).
Proof.
  intros HW Hargs. unfold rpc_request.
  destruct (rpc_trans_request_total W st name args args_len resp_buf resp_len
              timeout_ms HW Hargs) as [r Hr].
  exists r. split; [done|]. intros i t Hin.
  apply request_cases in Hr as [[_ Hno]|(i' & st3 & log & Hno & Haw)].
  - by apply Hno in Hin.
  - apply await_cases in Haw as (w & Hw & Hlog & _ & _ & Hrc & Hst).
    rewrite Hlog in Hin. apply in_app_or in Hin as [Hin|[Hin|[]]].
    { by apply Hno in Hin. }
    injection Hin as -> _ Hd. rewrite Hd in Hrc, Hst.
    split; [done|].
    assert (Hfreed : exists w', s_wait (r_state r) !! i = Some w'
                                /\ w_in_use w' = false).
    { rewrite Hst. unfold rpc_trans_free_waiter, upd_waiter, with_wait.
      cbn [s_wait]. rewrite list_lookup_alter_eq, Hw.
      eexists. split; [reflexivity | done]. }
    split; [done|]. destruct Hfreed as (w' & Hw' & Hfree).
    by eapply alloc_attempt_free_slot.
Qed.

Lemma request_timeout_witness :
  exists r,
    unanswered_ping 50 = Some r
    /\ In (Os_sem_take 0%nat 50 false) (r_log r)
    /\ r_rc r = RPC_ERROR
    /\ (exists w, s_wait (r_state r) !! 0%nat = Some w /\ w_in_use w = false)
    /\ (exists s k, fst (alloc_attempt (r_state r)) = Some (s, k)).
Proof.
  destruct (request_timeout quiet_world rpc_trans_init (Some ping_name)
              None 0 (Some (replicate 64 0)) (Some 64) 50
              quiet_world_wf no_args_readable) as (r & Hr & Ht).
  exists r. split; [exact Hr|].
  assert (Hin : In (Os_sem_take 0%nat 50 false) (r_log r)).
  { vm_compute in Hr. injection Hr as <-. cbn [r_log In]. by right; left. }
  split; [exact Hin|]. exact (Ht _ _ Hin).
Defined.

(** ** Completion of a request by an incoming RESP or ERR *)

Lemma alter_as_insert {A : Type} (f : A -> A) (l : list A) (i : nat) (x : A) :
  l !! i = Some x -> alter f i l = <[i := f x]> l.
Proof.
  revert i. induction l as [|y l IH]; intros [|i] Hx; try done.
  - injection Hx as ->. done.
  - cbn. f_equal. by apply IH.
Qed.

(** What a successful parse guarantees about its outputs. *)
Lemma parse_msg_success (p : list Z) (n : Z) (o0 o : parse_out) :
  rpc_trans_parse_msg (Some p) n o0 = Some (RPC_SUCCESS, o) ->
  valid_type (o_type o) = true
  /\ 0 <= o_alen o <= MAX_FUNC_ARGS_RESP_SIZE
  /\ n <= Z.of_nat (length p)
  /\ exists off, o_args o = Some off /\ 0 <= off /\ off + o_alen o = n.
Proof.
  unfold rpc_trans_parse_msg.
  assert (Hne : forall x y : parse_out,
             Some (RPC_ERROR, x) = Some (RPC_SUCCESS, y) -> False)
    by (intros x y [= ? _]; done).
  destruct (_ || _) eqn:Hn; [by intros ?%Hne|].
  destruct (p !! 0%nat) as [t|]; [|done]. cbn [mbind option_bind].
  destruct (p !! 1%nat) as [s|]; [|done]. cbn [mbind option_bind].
  destruct (valid_type t) eqn:Hty; [|by intros ?%Hne]. cbn [negb].
  destruct (2 >=? n); [by intros ?%Hne|].
  destruct (decide _) as [Hlen|]; [|done].
  destruct (memchr_nat _ _ _) as [term|]; [|by intros ?%Hne].
  destruct ((Z.of_nat term <? MIN_FUNC_NAME_LEN)
            || (Z.of_nat term >? MAX_FUNC_NAME_LEN)) eqn:Hnl;
    [by intros ?%Hne|].
  destruct (_ >? n) eqn:Hi; [by intros ?%Hne|].
  destruct (_ >? MAX_FUNC_ARGS_RESP_SIZE) eqn:Ha; [by intros ?%Hne|].
  intros [= <-]. cbn [o_type o_alen o_args].
  rewrite Z.gtb_ltb in Hi, Ha. apply Z.ltb_ge in Hi, Ha.
  assert (Hu : u16 (n - (2 + Z.of_nat term + 1)) = n - (2 + Z.of_nat term + 1)).
  { unfold u16. apply Z.mod_small.
    change MAX_FUNC_ARGS_RESP_SIZE with 64 in Ha. lia. }
  rewrite Hu. split; [done|]. split; [lia|]. split; [done|].
  eexists. split; [reflexivity|]. lia.
Qed.

(** With a capacity of at least [MAX_FUNC_ARGS_RESP_SIZE], the only kind
    [rpc_trans_request] records, no parsed body exceeds the capacity. *)
Lemma full_capacity_never_overflows (p : list Z) (n : Z) (o0 o : parse_out)
      (w : waiter_t) :
  rpc_trans_parse_msg (Some p) n o0 = Some (RPC_SUCCESS, o) ->
  MAX_FUNC_ARGS_RESP_SIZE <= w_resp_buf_cap w ->
  (o_alen o >? w_resp_buf_cap w) = false.
Proof.
  intros (_ & Halen & _)%parse_msg_success Hcap.
  rewrite Z.gtb_ltb. apply Z.ltb_ge. lia.
Qed.

Section Completion.
Variable st : trans_state.
Variable i : nat.
Variable w : waiter_t.
Hypothesis slot_i : s_wait st !! i = Some w.

Abbreviation slot := (slot_set st i).

Lemma slot_set_lookup (w1 : waiter_t) : s_wait (slot w1) !! i = Some w1.
Proof.
  unfold slot, with_wait. cbn [s_wait].
  apply list_lookup_insert_eq. by eapply lookup_lt_Some.
Qed.

Lemma slot_set_upd (st1 : trans_state) (w1 : waiter_t) (f : waiter_t -> waiter_t) :
  st1 = st \/ (exists w0, st1 = slot w0) ->
  s_wait st1 !! i = Some w1 ->
  upd_waiter i f st1 = slot (f w1).
Proof.
  intros Hst H1. unfold upd_waiter. rewrite (alter_as_insert f _ i w1 H1).
  destruct Hst as [->|[w0 ->]]; [done|].
  unfold slot, with_wait. cbn [s_wait s_next_seq qTransToLink qRpcRequests].
  by rewrite list_insert_insert_eq.
Qed.

Lemma exec_result_code (st1 : trans_state) (w1 : waiter_t) (rc : Z) :
  st1 = st \/ (exists w0, st1 = slot w0) ->
  s_wait st1 !! i = Some w1 ->
  exec_effect st1 (Wr_result_code i rc)
    = Some (slot (set_result_code rc w1)).
Proof. intros. cbn [exec_effect]. f_equal. by apply slot_set_upd. Qed.

Lemma exec_sem_give (st1 : trans_state) (w1 : waiter_t) :
  st1 = st \/ (exists w0, st1 = slot w0) ->
  s_wait st1 !! i = Some w1 ->
  exec_effect st1 (Sem_give i) = Some (slot (set_done true w1)).
Proof. intros. cbn [exec_effect]. f_equal. by apply slot_set_upd. Qed.

Lemma exec_resp_len (st1 : trans_state) (w1 : waiter_t) (v l : Z) :
  st1 = st \/ (exists w0, st1 = slot w0) ->
  s_wait st1 !! i = Some w1 ->
  w_resp_len w1 = Some l ->
  exec_effect st1 (Wr_resp_len i v)
    = Some (slot (set_resp_len (Some (u16 v)) w1)).
Proof.
  intros Hst H1 Hl. cbn [exec_effect]. rewrite H1. cbn [mbind option_bind].
  rewrite Hl. cbn [mbind option_bind]. f_equal. by apply slot_set_upd.
Qed.

Lemma exec_resp_buf (st1 : trans_state) (w1 : waiter_t)
      (rb src : list Z) (k : Z) :
  st1 = st \/ (exists w0, st1 = slot w0) ->
  s_wait st1 !! i = Some w1 ->
  w_resp_buf w1 = Some rb ->
  0 <= k <= Z.of_nat (length rb) -> k <= Z.of_nat (length src) ->
  exec_effect st1 (Wr_resp_buf i src k)
    = Some (slot
              (set_resp_buf
                 (Some (take (Z.to_nat k) src ++ drop (Z.to_nat k) rb)) w1)).
Proof.
  intros Hst H1 Hb Hk Hsrc. cbn [exec_effect]. rewrite H1.
  cbn [mbind option_bind]. rewrite Hb. cbn [mbind option_bind].
  rewrite memcpy_Some by lia. cbn [mbind option_bind].
  change (Z.to_nat 0) with 0%nat. rewrite take_0, Z.add_0_l. cbn [app].
  f_equal. by apply slot_set_upd.
Qed.


End Completion.


(** ** A null arguments pointer with a positive length *)

(** C10, as stated, fails: a one-byte name with [alen = 65] keeps
    [2 + 1 + 1 + 65] within the payload bounds, yet [rpc_trans_build_msg]
    returns 0 and [rpc_trans_stream] fails locally. *)
Lemma null_args_oversize_rejected :
  ((MIN_PAYLOAD_SIZE <=? 2 + 1 + 1 + 65)
   && (2 + 1 + 1 + 65 <=? MAX_PAYLOAD_SIZE)) = true
  /\ rpc_trans_build_msg MSG_STREAM 0 (Some [112]) None 65
                         (Some (replicate 99 0)) MAX_PAYLOAD_SIZE
     = Some (0, Some (replicate 99 0))
  /\ rpc_stream quiet_world rpc_trans_init (Some [112]) None 65
     = Some (RPC_ERROR, rpc_trans_init, []).
Proof. repeat split; vm_compute; reflexivity. Qed.

(** C10, amended. For a name of valid length and a null [args] with
    [0 < alen <= MAX_FUNC_ARGS_RESP_SIZE] and [2 + name_len + 1 + alen]
    within the payload bounds, [rpc_trans_build_msg] returns
    [2 + name_len + 1] and writes no argument byte; [rpc_stream]
    returns [RPC_SUCCESS] and [rpc_request], given a full-capacity
    response buffer and a free waiter, goes on to wait for its response,
    each having queued that short message; and [rpc_trans_parse_msg]
    accepts the queued message with an argument length of zero. *)
Theorem null_args_dropped
        (W : world) (st : trans_state) (name : list Z) (alen : Z) :
  Forall (fun c => c <> 0) name ->
  MIN_FUNC_NAME_LEN <= Z.of_nat (length name) <= MAX_FUNC_NAME_LEN ->
  0 < alen <= MAX_FUNC_ARGS_RESP_SIZE ->
  2 + Z.of_nat (length name) + 1 + alen <= MAX_PAYLOAD_SIZE ->
  Z.of_nat (length (W_lp_uninit W)) = MAX_PAYLOAD_SIZE ->
  W_queue_send_ok W = true ->
  (forall type seq out olen,
      In type [MSG_REQ; MSG_STREAM; MSG_RESP; MSG_ERR] ->
      2 + Z.of_nat (length name) + 1 + alen <= olen <= Z.of_nat (length out) ->
      rpc_trans_build_msg type seq (Some name) None alen (Some out) olen
        = Some (2 + Z.of_nat (length name) + 1,
                Some (type :: seq :: name
                      ++ 0 :: drop (Z.to_nat (3 + Z.of_nat (length name)))
                                   out)))
  /\ (let lp := bare_message W MSG_STREAM 0 name in
      rpc_stream W st (Some name) None alen
        = Some (RPC_SUCCESS, enqueue lp st,
                [Os_queue_send_TransToLink lp OS_WAIT_FOREVER true]))
  /\ (forall rb cap timeout_ms rc0 seq i st1 log1,
         MAX_FUNC_ARGS_RESP_SIZE <= cap ->
         rpc_trans_alloc_waiter W st = ((rc0, Some (seq, i)), st1, log1) ->
         let lp := bare_message W MSG_REQ seq name in
         let st2 :=
           upd_waiter i (fun w => set_resp_buf_cap cap
                                    (set_resp_len (Some cap)
                                       (set_resp_buf (Some rb) w))) st1 in
         rpc_request W st (Some name) None alen (Some rb) (Some cap)
                     timeout_ms
           = await_response W i timeout_ms (enqueue lp st2)
               (log1 ++ [Os_queue_send_TransToLink lp OS_WAIT_FOREVER true]))
  /\ (forall type seq o,
         In type [MSG_REQ; MSG_STREAM; MSG_RESP; MSG_ERR] ->
         let lp := bare_message W type seq name in
         exists o',
           rpc_trans_parse_msg (Some (payload lp)) (payload_len lp) o
             = Some (RPC_SUCCESS, o')
           /\ o_type o' = type /\ o_seq o' = seq /\ o_alen o' = 0
           /\ c_string_at (payload lp) 2 = name).
Proof.
  intros Hname Hnlen Halen Hpay Hlp Hsend.
  assert (Hbuild : forall type seq out olen,
             In type [MSG_REQ; MSG_STREAM; MSG_RESP; MSG_ERR] ->
             2 + Z.of_nat (length name) + 1 + alen <= olen
               <= Z.of_nat (length out) ->
             rpc_trans_build_msg type seq (Some name) None alen (Some out) olen
             = Some (2 + Z.of_nat (length name) + 1,
                     Some (type :: seq :: name
                           ++ 0 :: drop (Z.to_nat (3 + Z.of_nat (length name)))
                                        out))).
  { intros type seq out olen Hty%valid_type_In [Holen Hout].
    pose proof (build_msg_layout type seq name None alen out olen
                  Hty Hname Hnlen) as Hb.
    cbv zeta in Hb. cbn [copied_args length app] in Hb.
    rewrite Hb; [|lia|done|lia|lia].
    by replace (3 + Z.of_nat (length name) + Z.of_nat 0)
      with (2 + Z.of_nat (length name) + 1) by lia;
      replace (2 + Z.of_nat (length name) + 1)
        with (3 + Z.of_nat (length name)) at 2 by lia. }
  assert (Hnz : (2 + Z.of_nat (length name) + 1 =? 0) = false)
    by (apply Z.eqb_neq; lia).
  assert (Hlen_ok : ((strlen name <? MIN_FUNC_NAME_LEN)
                     || (strlen name >? MAX_FUNC_NAME_LEN)) = false).
  { rewrite (strlen_no_nul name Hname), Z.gtb_ltb.
    by rewrite (proj2 (Z.ltb_ge _ _) (proj1 Hnlen)),
               (proj2 (Z.ltb_ge _ _) (proj2 Hnlen)). }
  split; [exact Hbuild|]. split; [|split].
  - cbv zeta. unfold rpc_stream, rpc_trans_stream. rewrite Hlen_ok.
    rewrite Hbuild by (cbn [In]; auto || lia).
    cbn [mbind option_bind]. rewrite Hnz.
    unfold send_TransToLink. rewrite Hsend. cbn [negb from_option id].
    unfold bare_message, enqueue.
    by replace (2 + Z.of_nat (length name) + 1)
      with (3 + Z.of_nat (length name)) by lia.
  - intros rb cap timeout_ms rc0 seq i st1 log1 Hcap Halloc. cbv zeta.
    unfold rpc_request, rpc_trans_request. rewrite Hlen_ok.
    rewrite (proj2 (Z.ltb_ge _ _) Hcap), Halloc.
    rewrite Hbuild by (cbn [In]; auto || lia).
    cbn [mbind option_bind]. rewrite Hnz.
    unfold send_TransToLink. rewrite Hsend. cbn [negb from_option id].
    unfold bare_message, enqueue.
    by replace (2 + Z.of_nat (length name) + 1)
      with (3 + Z.of_nat (length name)) by lia.
  - intros type seq o Hty%valid_type_In. cbv zeta.
    destruct (parse_msg_layout type seq name []
                (drop (Z.to_nat (3 + Z.of_nat (length name))) (W_lp_uninit W))
                o Hty Hname Hnlen) as (Hp & Hn & _);
      [cbn [length]; change MAX_FUNC_ARGS_RESP_SIZE with 64; lia|].
    cbn [app length] in Hp, Hn.
    unfold bare_message. cbn [payload payload_len].
    replace (3 + Z.of_nat (length name) + Z.of_nat 0)
      with (3 + Z.of_nat (length name)) in Hp by lia.
    eexists. split; [exact Hp|]. by cbn [o_type o_seq o_alen].
Qed.

(** [rpc_stream(ping, NULL, 5)] on a fresh transport. *)
Lemma null_args_dropped_witness :
  rpc_stream quiet_world rpc_trans_init (Some ping_name) None 5
    = Some (RPC_SUCCESS,
            enqueue (bare_message quiet_world MSG_STREAM 0 ping_name)
                    rpc_trans_init,
            [Os_queue_send_TransToLink
               (bare_message quiet_world MSG_STREAM 0 ping_name)
               OS_WAIT_FOREVER true])
  /\ (exists st2,
         rpc_request quiet_world rpc_trans_init (Some ping_name) None 5
                     (Some (replicate 64 0)) (Some 64) 50
         = await_response quiet_world 0 50
             (enqueue (bare_message quiet_world MSG_REQ 1 ping_name) st2)
             ([] ++ [Os_queue_send_TransToLink
                       (bare_message quiet_world MSG_REQ 1 ping_name)
                       OS_WAIT_FOREVER true]))
  /\ exists o',
      rpc_trans_parse_msg
        (Some (payload (bare_message quiet_world MSG_STREAM 0 ping_name)))
        (payload_len (bare_message quiet_world MSG_STREAM 0 ping_name))
        (Parse_out 0 0 None None 0)
        = Some (RPC_SUCCESS, o')
      /\ o_type o' = MSG_STREAM /\ o_seq o' = 0 /\ o_alen o' = 0
      /\ c_string_at
           (payload (bare_message quiet_world MSG_STREAM 0 ping_name)) 2
         = ping_name.
Proof.
  assert (Hname : Forall (fun c => c <> 0) ping_name)
    by (repeat constructor; discriminate).
  assert (Hnlen : MIN_FUNC_NAME_LEN <= Z.of_nat (length ping_name)
                  <= MAX_FUNC_NAME_LEN) by (vm_compute; split; discriminate).
  assert (Halen : 0 < 5 <= MAX_FUNC_ARGS_RESP_SIZE)
    by (vm_compute; split; [reflexivity | discriminate]).
  assert (Hpay : 2 + Z.of_nat (length ping_name) + 1 + 5 <= MAX_PAYLOAD_SIZE)
    by (vm_compute; discriminate).
  destruct (null_args_dropped quiet_world rpc_trans_init ping_name 5
              Hname Hnlen Halen Hpay eq_refl eq_refl)
    as (_ & Hstream & Hreq & Hparse).
  split; [exact Hstream|]. split.
  - eexists.
    apply (Hreq (replicate 64 0) 64 50 RPC_SUCCESS 1 0%nat
                (snd (alloc_attempt rpc_trans_init)) []).
    + vm_compute. discriminate.
    + vm_compute. reflexivity.
  - apply (Hparse MSG_STREAM 0 (Parse_out 0 0 None None 0)).
    cbn [In]. auto.
Defined.

(** * Further properties *)

(** ** CRC8 *)

Lemma byte_check_spec (p : Z -> bool) (x : Z) :
  byte_check p = true -> is_byte x -> p x = true.
Proof.
  unfold byte_check, is_byte. intros H Hx.
  rewrite forallb_forall in H. apply H.
  apply list_elem_of_In, list_elem_of_fmap. exists (Z.to_nat x).
  split; [lia|]. apply elem_of_seq. lia.
Qed.

Lemma fold_left_step {A B : Type} (f : A -> B -> A) (b : B) (l : list B)
      (a : A) :
  fold_left f (b :: l) a = fold_left f l (f a b).
Proof. reflexivity. Qed.

Lemma fold_left_keeps {A B : Type} (f : A -> B -> A) (P : A -> Prop)
      (l : list B) :
  (forall a b, P (f a b)) -> forall a, P a -> P (fold_left f l a).
Proof.
  intros Hf. induction l as [|b l IH]; intros a Ha; [done|].
  cbn [fold_left]. apply IH, Hf.
Qed.

Lemma fold_left_inj {A B : Type} (f : A -> B -> A) (P : A -> Prop)
      (Q : B -> Prop) (l : list B) :
  (forall a b, P (f a b)) ->
  (forall a a' b, P a -> P a' -> Q b -> f a b = f a' b -> a = a') ->
  Forall Q l ->
  forall a a', P a -> P a' -> fold_left f l a = fold_left f l a' -> a = a'.
Proof.
  intros Hf Hinj Hl. induction Hl as [|b l Hb Hl IH]; intros a a' Ha Ha' H;
    [done|].
  cbn [fold_left] in H. apply IH in H; [|apply Hf..].
  by eapply Hinj.
Qed.

Lemma crc8_bit_byte (poly crc : Z) : is_byte (crc8_bit poly crc).
Proof. unfold crc8_bit, u8, is_byte. apply Z.mod_pos_bound. lia. Qed.

Lemma crc8_byte_byte (poly crc d : Z) : is_byte (crc8_byte poly crc d).
Proof. unfold crc8_byte. cbn [Nat.iter nat_rect]. apply crc8_bit_byte. Qed.

Lemma crc8_compute_byte (data : list Z) (len init poly : Z) :
  is_byte init -> is_byte (crc8_compute data len init poly).
Proof.
  unfold crc8_compute. apply fold_left_keeps. intros a b. apply crc8_byte_byte.
Qed.

Lemma crc8_compute_all (data : list Z) (init poly : Z) :
  crc8_compute data (Z.of_nat (length data)) init poly
  = fold_left (crc8_byte poly) data init.
Proof. unfold crc8_compute. by rewrite Nat2Z.id, firstn_all. Qed.

Lemma crc8_byte_self (poly c : Z) : crc8_byte poly c c = 0.
Proof.
  unfold crc8_byte. rewrite Z.lxor_nilpotent.
  change (u8 0) with 0.
  assert (H : crc8_bit poly 0 = 0).
  { unfold crc8_bit. cbn [Z.land Z.eqb Z.shiftl]. by rewrite Z.land_0_r. }
  cbn [Nat.iter nat_rect]. by rewrite !H.
Qed.

(** X1. Appending to a block its own CRC gives a block whose CRC is zero,
    whatever the polynomial and the initial value. *)
Theorem crc8_residue (data : list Z) (init poly : Z) :
  let n := Z.of_nat (length data) in
  crc8_compute (data ++ [crc8_compute data n init poly]) (n + 1) init poly = 0.
Proof.
  intros n.
  replace (n + 1)
    with (Z.of_nat (length (data ++ [crc8_compute data n init poly])))
    by (rewrite length_app; cbn [length]; lia).
  rewrite crc8_compute_all, fold_left_app. unfold n.
  rewrite crc8_compute_all. apply crc8_byte_self.
Qed.

Lemma crc8_unturn_turn_check :
  byte_check (fun x => crc8_unturn (crc8_turn x) =? x) = true.
Proof. vm_compute. reflexivity. Qed.

Lemma crc8_turn_inj (x y : Z) :
  is_byte x -> is_byte y -> crc8_turn x = crc8_turn y -> x = y.
Proof.
  intros Hx Hy Heq.
  pose proof (byte_check_spec _ x crc8_unturn_turn_check Hx) as Ex.
  pose proof (byte_check_spec _ y crc8_unturn_turn_check Hy) as Ey.
  apply Z.eqb_eq in Ex, Ey. rewrite <- Ex, <- Ey. by rewrite Heq.
Qed.

Lemma lxor_byte (a b : Z) : is_byte a -> is_byte b -> is_byte (Z.lxor a b).
Proof.
  unfold is_byte. intros Ha Hb. split; [apply Z.lxor_nonneg; lia|].
  destruct (decide (Z.lxor a b = 0)) as [->|Hne]; [lia|].
  assert (0 <= Z.lxor a b) by (apply Z.lxor_nonneg; lia).
  apply Z.log2_lt_cancel. change (Z.log2 256) with 8.
  eapply Z.le_lt_trans; [apply Z.log2_lxor; lia|].
  apply Z.max_lub_lt.
  - destruct (decide (a = 0)) as [->|]; [done|]. apply Z.log2_lt_pow2; lia.
  - destruct (decide (b = 0)) as [->|]; [done|]. apply Z.log2_lt_pow2; lia.
Qed.

Lemma lxor_cancel (a b c : Z) : Z.lxor a b = Z.lxor a c -> b = c.
Proof.
  intros H. apply (f_equal (Z.lxor a)) in H.
  by rewrite <- !Z.lxor_assoc, !Z.lxor_nilpotent, !Z.lxor_0_l in H.
Qed.

Lemma u8_byte (x : Z) : is_byte x -> u8 x = x.
Proof. intros H. apply Z.mod_small. exact H. Qed.

Lemma crc8_turn_unfold (x : Z) :
  crc8_turn x = Nat.iter 8 (crc8_bit CRC8_POLY) x.
Proof. reflexivity. Qed.

Lemma crc8_byte_unfold (poly c d : Z) :
  crc8_byte poly c d = Nat.iter 8 (crc8_bit poly) (u8 (Z.lxor c d)).
Proof. reflexivity. Qed.

Lemma crc8_byte_turn (c d : Z) :
  crc8_byte CRC8_POLY c d = crc8_turn (u8 (Z.lxor c d)).
Proof. by rewrite crc8_turn_unfold, crc8_byte_unfold. Qed.

Lemma crc8_byte_inj_data (c d d' : Z) :
  is_byte c -> is_byte d -> is_byte d' ->
  crc8_byte CRC8_POLY c d = crc8_byte CRC8_POLY c d' -> d = d'.
Proof.
  intros Hc Hd Hd' H. rewrite !crc8_byte_turn in H.
  rewrite !u8_byte in H by by apply lxor_byte.
  apply crc8_turn_inj in H; [|by apply lxor_byte..].
  by apply lxor_cancel in H.
Qed.

Lemma crc8_byte_inj_crc (c c' d : Z) :
  is_byte c -> is_byte c' -> is_byte d ->
  crc8_byte CRC8_POLY c d = crc8_byte CRC8_POLY c' d -> c = c'.
Proof.
  intros Hc Hc' Hd H. rewrite !crc8_byte_turn in H.
  rewrite !u8_byte in H by by apply lxor_byte.
  apply crc8_turn_inj in H; [|by apply lxor_byte..].
  rewrite !(Z.lxor_comm _ d) in H.
  by apply lxor_cancel in H.
Qed.

Lemma crc8_single_byte (pre post : list Z) (x y init : Z) :
  Forall is_byte pre -> Forall is_byte post -> is_byte x -> is_byte y ->
  is_byte init -> x <> y ->
  fold_left (crc8_byte CRC8_POLY) (pre ++ x :: post) init
  <> fold_left (crc8_byte CRC8_POLY) (pre ++ y :: post) init.
Proof.
  intros Hpre Hpost Hx Hy Hi Hxy Heq.
  rewrite !fold_left_app in Heq. rewrite !fold_left_step in Heq.
  eapply (fold_left_inj _ is_byte is_byte) in Heq;
    [|apply crc8_byte_byte|apply crc8_byte_inj_crc|done
     |apply crc8_byte_byte..].
  apply crc8_byte_inj_data in Heq; [done| |done..].
  by apply fold_left_keeps; [apply crc8_byte_byte|].
Qed.

(** X2. Single-byte error detection: with the polynomial of the link, two
    blocks of bytes that differ in exactly one byte never have the same
    CRC. *)
Theorem crc8_detects_byte_error (pre post : list Z) (x y init : Z) :
  Forall is_byte pre -> Forall is_byte post ->
  is_byte x -> is_byte y -> is_byte init -> x <> y ->
  let n := Z.of_nat (length (pre ++ x :: post)) in
  crc8_compute (pre ++ x :: post) n init CRC8_POLY
  <> crc8_compute (pre ++ y :: post) n init CRC8_POLY.
Proof.
  intros Hpre Hpost Hx Hy Hi Hxy n. unfold n.
  rewrite crc8_compute_all.
  replace (length (pre ++ x :: post)) with (length (pre ++ y :: post))
    by (rewrite !length_app; reflexivity).
  rewrite crc8_compute_all.
  by apply crc8_single_byte.
Qed.

Lemma crc8_detects_byte_error_witness :
  crc8_compute ([250; 7] ++ 0 :: [1]) 4 CRC8_INIT CRC8_POLY
  <> crc8_compute ([250; 7] ++ 8 :: [1]) 4 CRC8_INIT CRC8_POLY
  /\ is_byte 8.
Proof.
  split; [|unfold is_byte; lia].
  apply (crc8_detects_byte_error [250; 7] [1] 0 8 CRC8_INIT);
    try (repeat constructor; unfold is_byte; lia); try (unfold is_byte, CRC8_INIT; lia).
Defined.

(** ** Link layer: frames on the wire *)

Lemma length_bytes (h1 h2 : Z) :
  is_byte h1 -> is_byte h2 -> Z.lor (Z.shiftl h2 8) h1 = 256 * h2 + h1.
Proof.
  unfold is_byte. intros H1 H2.
  rewrite <- Z.add_nocarry_lor.
  - rewrite Z.shiftl_mul_pow2 by lia. lia.
  - apply Z.bits_inj'. intros n Hn. rewrite Z.land_spec, Z.bits_0.
    destruct (decide (n < 8)).
    + by rewrite Z.shiftl_spec_low.
    + destruct (decide (h1 = 0)) as [->|]; [by rewrite Z.bits_0, andb_false_r|].
      rewrite (Z.bits_above_log2 h1 n), andb_false_r; [done|lia|].
      assert (Z.log2 h1 < 8) by (apply Z.log2_lt_pow2; lia). lia.
Qed.

(** A length in range has a zero high byte. *)
Lemma length_field_bytes (h1 h2 : Z) :
  is_byte h1 -> is_byte h2 ->
  let L := u16 (Z.lor (Z.shiftl h2 8) h1) in
  MIN_PKT_LEN <= L <= MAX_PKT_LEN ->
  h1 = u8 (Z.land L 0xFF) /\ h2 = u8 (Z.shiftr L 8) /\ L = u16 (L - 3 + 3).
Proof.
  intros H1 H2 L HL. unfold L in *. rewrite length_bytes in * by done.
  unfold is_byte in *. change MIN_PKT_LEN with 7 in HL.
  change MAX_PKT_LEN with 102 in HL. unfold u16 in *.
  rewrite Z.mod_small in * by lia.
  assert (h2 = 0) by lia. subst h2.
  replace (256 * 0 + h1) with h1 by lia.
  change 255 with (Z.ones 8).
  rewrite Z.land_ones, Z.shiftr_div_pow2 by lia.
  rewrite (Z.mod_small h1 (2 ^ 8)) by lia.
  rewrite (Z.div_small h1 (2 ^ 8)) by lia.
  unfold u8. rewrite (Z.mod_small h1 256) by lia.
  split; [done|]. split; [done|].
  replace (h1 - 3 + 3) with h1 by lia. by rewrite Z.mod_small by lia.
Qed.

Lemma frame_of_layout (pl : list Z) (len L h1 h2 : Z) :
  u16 (len + 3) = L -> h1 = u8 (Z.land L 0xFF) -> h2 = u8 (Z.shiftr L 8) ->
  frame_of pl len =
    [SOF; h1; h2; crc8_compute [SOF; h1; h2] 3 CRC8_INIT CRC8_POLY; SOD]
    ++ take (Z.to_nat len) pl
    ++ [crc8_compute (SOD :: take (Z.to_nat len) pl) (len + 1)
                     CRC8_INIT CRC8_POLY; EOF_].
Proof.
  intros <- -> ->. unfold frame_of.
  set (L := u16 (len + 3)).
  set (hdr := [SOF; u8 (Z.land L 255); u8 (Z.shiftr L 8)]).
  set (hcrc := crc8_compute hdr 3 CRC8_INIT CRC8_POLY).
  change (drop 4 (hdr ++ [hcrc] ++ [SOD] ++ take (Z.to_nat len) pl))
    with (SOD :: take (Z.to_nat len) pl).
  set (pcrc := crc8_compute _ (len + 1) CRC8_INIT CRC8_POLY).
  subst pcrc hcrc hdr. reflexivity.
Qed.

Lemma framed_in_app (seen more : list Z) (lp : link_payload_t) :
  framed_in seen lp -> framed_in (seen ++ more) lp.
Proof.
  intros (Hlen & Hbuf & pre & post & ->). split; [done|]. split; [done|].
  exists pre, (post ++ more). by rewrite <- !app_assoc.
Qed.

Section LinkWire.
Variable lp_uninit tmp_uninit : list Z.
Hypothesis lp_uninit_len : length lp_uninit = Z.to_nat MAX_PAYLOAD_SIZE.
Hypothesis tmp_uninit_len :
  length tmp_uninit = Z.to_nat (MAX_PAYLOAD_SIZE + 1).

Abbreviation feed_byte := (Link.feed_byte lp_uninit tmp_uninit).
Abbreviation feed_loop := (Link.feed_loop lp_uninit tmp_uninit).

Lemma feed_byte_tracks (P : parser) (seen : list Z) (b : Z) :
  parser_tracks P seen -> is_byte b ->
  exists P' out,
    feed_byte P b = Some (P', out)
    /\ parser_tracks P' (seen ++ [b])
    /\ Forall (framed_in (seen ++ [b])) out.
Proof.
  intros ([Hlen Hpos] & (pre & ->) & Hst) Hb.
  destruct P as [st len [[h0 h1] h2] pos pl].
  unfold hdr_ok in Hst.
  cbn [P_st P_length P_hdr P_payload_pos P_payload fst snd] in Hlen, Hpos, Hst.
  unfold frame_prefix, Link.feed_byte.
  cbn [P_st P_length P_hdr P_payload_pos P_payload].
  change MAX_PAYLOAD_SIZE with 99 in Hlen, Hpos.
  assert (Hreset :
    forall l h, parser_tracks (rpc_link_reset_parser
                                 (Parser st l h pos pl))
                              ((pre ++ frame_prefix (Parser st len (h0, h1, h2) pos pl)) ++ [b])).
  { intros l h. split; [by split|]. split; [|done].
    eexists. unfold rpc_link_reset_parser at 1. unfold frame_prefix at 2.
    cbn [P_st P_hdr]. destruct h as [[? ?] ?]. by rewrite app_nil_r. }
  unfold frame_prefix in Hreset. cbn [P_st P_hdr P_payload_pos P_payload] in Hreset.
  destruct st.
  - (* ST_WAIT_SOF *)
    destruct (b =? SOF) eqn:E.
    + apply Z.eqb_eq in E. eexists _, _. split; [done|]. split; [|done].
      split; [by split|]. split; [|done].
      exists pre. by rewrite app_nil_r.
    + eexists _, _. split; [done|]. split; [|done].
      split; [by split|]. split; [|done].
      exists (pre ++ [b]). by rewrite !app_nil_r.
  - (* ST_READ_LEN1 *)
    eexists _, _. split; [done|]. split; [|done].
    split; [by split|]. split; [by exists pre; rewrite <- app_assoc|].
    by cbn.
  - (* ST_READ_LEN2 *)
    destruct Hst as [-> H1].
    destruct (_ || _) eqn:E.
    + eexists _, _. split; [done|]. split; [|done]. apply Hreset.
    + apply orb_false_iff in E as [E1 E2]. rewrite Z.gtb_ltb in E2.
      apply Z.ltb_ge in E1, E2.
      eexists _, _. split; [done|]. split; [|done].
      split; [by split|]. split; [by exists pre; rewrite <- app_assoc|].
      unfold hdr_ok. by cbn.
  - (* ST_READ_HDRCRC *)
    cbn [hdr_bytes].
    destruct (negb _) eqn:E.
    + eexists _, _. split; [done|]. split; [|done]. apply Hreset.
    + apply negb_false_iff, Z.eqb_eq in E.
      eexists _, _. split; [done|]. split; [|done].
      split; [by split|]. split; [|done].
      exists pre. unfold frame_prefix. cbn [set_st P_st P_hdr].
      rewrite E. by rewrite <- app_assoc.
  - (* ST_WAIT_SOD *)
    destruct (b =? SOD) eqn:E.
    + apply Z.eqb_eq in E. subst b.
      eexists _, _. split; [done|]. split; [|done].
      split; [by split|]. split.
      * exists pre. unfold frame_prefix.
        cbn [P_st P_hdr P_payload_pos P_payload].
        change (Z.to_nat 0) with 0%nat. rewrite take_0, app_nil_r.
        by rewrite <- app_assoc.
      * cbn [P_st P_length P_hdr P_payload_pos]. split; [done|].
        change MIN_PKT_LEN with 7 in Hst. lia.
    + eexists _, _. split; [done|]. split; [|done]. apply Hreset.
  - (* ST_READ_PAYLOAD *)
    destruct Hst as [Hh Hlt]. pose proof Hh as (_ & _ & _ & _ & HL).
    change MIN_PKT_LEN with 7 in HL. change MAX_PKT_LEN with 102 in HL.
    assert (Hbody : size_t_of (len - 3) = len - 3)
      by (unfold size_t_of; apply Z.mod_small; lia).
    rewrite Hbody. change MAX_PAYLOAD_SIZE with 99.
    rewrite (proj2 (Z.ltb_lt pos 99)), (proj2 (Z.ltb_lt pos (len - 3))) by lia.
    cbn [andb]. rewrite store_Some by (rewrite Hlen; lia).
    assert (Htake : take (Z.to_nat (pos + 1)) (<[Z.to_nat pos := b]> pl)
                    = take (Z.to_nat pos) pl ++ [b]).
    { replace (Z.to_nat (pos + 1)) with (S (Z.to_nat pos)) by lia.
      apply take_insert_snoc. rewrite Hlen. lia. }
    destruct (pos + 1 =? len - 3) eqn:E.
    + apply Z.eqb_eq in E.
      eexists _, _. split; [done|]. split; [|done].
      split; [split; cbn [set_st P_payload P_payload_pos];
              [by rewrite length_insert | change MAX_PAYLOAD_SIZE with 99; lia]|].
      split.
      * exists pre. unfold frame_prefix.
        cbn [set_st P_st P_hdr P_payload_pos P_payload].
        rewrite Htake. by rewrite <- !app_assoc.
      * by cbn.
    + apply Z.eqb_neq in E.
      eexists _, _. split; [done|]. split; [|done].
      split; [split; cbn [set_st P_payload P_payload_pos];
              [by rewrite length_insert | change MAX_PAYLOAD_SIZE with 99; lia]|].
      split.
      * exists pre. unfold frame_prefix.
        cbn [set_st P_st P_hdr P_payload_pos P_payload].
        rewrite Htake. by rewrite <- !app_assoc.
      * cbn [P_st P_length P_payload_pos]. split; [done|]. lia.
  - (* ST_READ_PKTCRC *)
    destruct Hst as [Hh Heq].
    destruct (tmp_filled lp_uninit tmp_uninit lp_uninit_len tmp_uninit_len
                         pl pos) as (tmp & -> & Htmp); [done..|].
    rewrite (crc8_compute_take tmp (SOD :: take (Z.to_nat pos) pl) (pos + 1)).
    2:{ rewrite Htmp. replace (Z.to_nat (pos + 1)) with (S (Z.to_nat pos)) by lia.
        cbn [take firstn]. by rewrite take_take, Nat.min_id. }
    destruct (negb _) eqn:E.
    + eexists _, _. split; [done|]. split; [|done]. apply Hreset.
    + apply negb_false_iff, Z.eqb_eq in E.
      eexists _, _. split; [done|]. split; [|done].
      split; [by split|]. split; [|done].
      exists pre. unfold frame_prefix.
      cbn [set_st P_st P_hdr P_payload_pos P_payload].
      rewrite E. by rewrite <- !app_assoc.
  - (* ST_WAIT_EOF *)
    destruct Hst as [Hh Heq].
    destruct (b =? EOF_) eqn:E.
    + apply Z.eqb_eq in E. subst b.
      destruct (lp_filled lp_uninit tmp_uninit lp_uninit_len tmp_uninit_len
                          pl pos) as (buf & Hcpy & Hbuf); [done..|].
      rewrite Hcpy.
      eexists _, _. split; [done|]. split; [apply Hreset|].
      apply Forall_singleton.
      destruct Hh as (-> & H1 & H2 & HLeq & HL).
      destruct (length_field_bytes h1 h2 H1 H2) as (E1 & E2 & E3);
        [by rewrite <- HLeq|].
      rewrite <- HLeq in E1, E2, E3.
      change MIN_PKT_LEN with 7 in HL. change MAX_PKT_LEN with 102 in HL.
      split; [cbn [payload_len]; change MIN_PAYLOAD_SIZE with 4;
              change MAX_PAYLOAD_SIZE with 99; lia|].
      split; [cbn [payload]; apply memcpy_length in Hcpy;
              by rewrite Hcpy, lp_uninit_len|].
      exists pre, []. cbn [payload payload_len].
      rewrite (frame_of_layout buf pos len h1 h2); [|by rewrite Heq|done..].
      rewrite Hbuf. by rewrite app_nil_r, <- !app_assoc.
    + eexists _, _. split; [done|]. split; [|done]. apply Hreset.
Qed.

Lemma feed_loop_tracks (bs : list Z) :
  forall P seen,
    parser_tracks P seen -> Forall is_byte bs ->
    exists P' out,
      feed_loop P bs = Some (P', out)
      /\ parser_tracks P' (seen ++ bs)
      /\ Forall (framed_in (seen ++ bs)) out.
Proof.
  induction bs as [|b bs IH]; intros P seen HP Hbs.
  - exists P, []. rewrite app_nil_r. split; [done|]. split; [done|]. constructor.
  - apply Forall_cons_1 in Hbs as [Hb Hbs].
    destruct (feed_byte_tracks P seen b HP Hb) as (P1 & out1 & E1 & HP1 & Ho1).
    destruct (IH P1 (seen ++ [b]) HP1 Hbs) as (P2 & out2 & E2 & HP2 & Ho2).
    rewrite <- app_assoc in HP2, Ho2. cbn [app] in HP2, Ho2.
    exists P2, (out1 ++ out2). cbn [Link.feed_loop]. rewrite E1, E2.
    split; [done|]. split; [done|].
    apply Forall_app. split; [|done].
    eapply List.Forall_impl; [|exact Ho1]. intros lp Hlp.
    apply (framed_in_app _ bs) in Hlp. by rewrite <- app_assoc in Hlp.
Qed.

Lemma rpc_link_init_tracks : parser_tracks rpc_link_init [].
Proof.
  split; [apply rpc_link_init_wf|]. split; [by exists []|done].
Qed.

(** X3. Nothing is delivered that was not framed: whatever bytes the parser
    is fed from its initial state, the call returns, and every payload it
    hands to the link-to-transport queue has a length in
    [MIN_PAYLOAD_SIZE..MAX_PAYLOAD_SIZE] and stands in the input as the
    complete frame [rpc_link_build_frame] builds for it. *)
Theorem link_delivers_only_frames (bs : list Z) :
  Forall is_byte bs ->
  exists P' out,
    Link.rpc_link_feed_bytes lp_uninit tmp_uninit rpc_link_init bs
                             (Z.of_nat (length bs)) = Some (P', out)
    /\ Forall (framed_in bs) out.
Proof.
  intros Hbs.
  destruct (feed_loop_tracks bs rpc_link_init [] rpc_link_init_tracks Hbs)
    as (P' & out & E & _ & Hout).
  exists P', out. by rewrite feed_bytes_all.
Qed.

Lemma feed_byte_payload_length (P P' : parser) (b : Z)
      (out : list link_payload_t) :
  feed_byte P b = Some (P', out) ->
  length (P_payload P') = length (P_payload P).
Proof.
  destruct P as [st len [[h0 h1] h2] pos pl]. unfold Link.feed_byte.
  cbn [P_st P_length P_hdr P_payload_pos P_payload].
  destruct st.
  - destruct (b =? SOF); by intros [= <- _].
  - by intros [= <- _].
  - destruct (_ || _); by intros [= <- _].
  - destruct (negb _); by intros [= <- _].
  - destruct (b =? SOD); by intros [= <- _].
  - destruct (_ && _); [|by intros [= <- _]].
    destruct (store pl pos b) as [pl'|] eqn:E; [|done].
    apply store_length in E.
    destruct (_ =? _); by intros [= <- _].
  - destruct (_ ≫= _); [|done]. destruct (negb _); by intros [= <- _].
  - destruct (b =? EOF_); [|by intros [= <- _]].
    destruct (memcpy _ _ _ _); [|done]. by intros [= <- _].
Qed.

Lemma feed_loop_payload_length (bs : list Z) :
  forall P P' out,
    feed_loop P bs = Some (P', out) ->
    length (P_payload P') = length (P_payload P).
Proof.
  induction bs as [|b bs IH]; intros P P' out; cbn [Link.feed_loop].
  - by intros [= <- _].
  - destruct (feed_byte P b) as [[P1 out1]|] eqn:E1; [|done].
    destruct (feed_loop P1 bs) as [[P2 out2]|] eqn:E2; [|done].
    intros [= <- _]. apply IH in E2. apply feed_byte_payload_length in E1.
    congruence.
Qed.

Lemma feed_noise (P : parser) (g : list Z) :
  P_st P = ST_WAIT_SOF -> noise g -> feed_loop P g = Some (P, []).
Proof.
  intros Hst Hg. induction Hg as [|b g Hb Hg IH]; [done|].
  cbn [Link.feed_loop]. unfold Link.feed_byte at 1. rewrite Hst.
  rewrite (proj2 (Z.eqb_neq _ _) Hb). by rewrite IH.
Qed.

(** X4. Frames survive line noise: a sequence of frames built by
    [rpc_link_build_frame], with any bytes other than SOF before, between
    and after them, makes the parser deliver exactly the payloads of the
    frames, in order, and leaves it waiting for a start of frame. *)
Theorem link_frames_through_noise
        (items : list (list Z * list Z)) (tail : list Z) (P : parser) :
  P_st P = ST_WAIT_SOF ->
  length (P_payload P) = Z.to_nat MAX_PAYLOAD_SIZE ->
  Forall (fun it =>
            noise (fst it)
            /\ MIN_PAYLOAD_SIZE <= Z.of_nat (length (snd it))
                <= MAX_PAYLOAD_SIZE) items ->
  noise tail ->
  let wire := wire_of items ++ tail in
  exists P' out,
    Link.rpc_link_feed_bytes lp_uninit tmp_uninit P wire
                             (Z.of_nat (length wire)) = Some (P', out)
    /\ P_st P' = ST_WAIT_SOF
    /\ Forall2 delivers out (snd <$> items).
Proof.
  intros Hst Hbuf Hitems Htail wire. unfold wire. rewrite feed_bytes_all.
  revert P Hst Hbuf.
  induction Hitems as [|[g pl] items [Hg Hpl] Hitems IH]; intros P Hst Hbuf.
  - exists P, []. cbn [wire_of fmap list_fmap concat app].
    rewrite feed_noise by done. split; [done|]. split; [done|]. constructor.
  - cbn [fst snd] in Hg, Hpl.
    unfold wire_of. cbn [fmap list_fmap concat fst snd].
    fold (wire_of items). rewrite <- !app_assoc.
    rewrite feed_loop_app, feed_noise by done.
    rewrite feed_loop_app.
    destruct (feed_frame lp_uninit tmp_uninit lp_uninit_len tmp_uninit_len
                         P pl Hst Hbuf Hpl)
      as (P1 & lp & E & Hst1 & Hl & Hb).
    rewrite E.
    assert (Hbuf1 : length (P_payload P1) = Z.to_nat MAX_PAYLOAD_SIZE).
    { apply feed_loop_payload_length in E. by rewrite E. }
    destruct (IH P1 Hst1 Hbuf1) as (P2 & out & -> & Hst2 & Hout).
    exists P2, (lp :: out). split; [done|]. split; [done|].
    constructor; [by split|done].
Qed.

(** The header and the body of a frame for [n] payload bytes bring the
    parser to the packet CRC with the body stored. *)
Lemma feed_to_pktcrc (P : parser) (body : list Z) :
  P_st P = ST_WAIT_SOF ->
  length (P_payload P) = Z.to_nat MAX_PAYLOAD_SIZE ->
  MIN_PAYLOAD_SIZE <= Z.of_nat (length body) <= MAX_PAYLOAD_SIZE ->
  let n := Z.of_nat (length body) in
  let L := u16 (n + 3) in
  let h1 := u8 (Z.land L 0xFF) in
  let h2 := u8 (Z.shiftr L 8) in
  let hcrc := crc8_compute [SOF; h1; h2] 3 CRC8_INIT CRC8_POLY in
  exists buf,
    feed_loop P ([SOF; h1; h2; hcrc; SOD] ++ body)
      = Some (Parser ST_READ_PKTCRC L (SOF, h1, h2) n buf, [])
    /\ length buf = Z.to_nat MAX_PAYLOAD_SIZE
    /\ take (length body) buf = body.
Proof.
  intros Hst Hbuf Hlen n L h1 h2 hcrc.
  destruct (length_field_roundtrip lp_uninit tmp_uninit lp_uninit_len
              tmp_uninit_len _ Hlen) as [HL Hrd].
  fold n L in HL, Hrd. fold h1 h2 in Hrd.
  change MIN_PAYLOAD_SIZE with 4 in Hlen.
  change MAX_PAYLOAD_SIZE with 99 in Hlen.
  destruct P as [st len0 [[h0 h1'] h2'] pos0 buf0].
  cbn [P_st P_payload] in Hst, Hbuf. subst st.
  rewrite feed_loop_app.
  assert (Hhead : feed_loop (Parser ST_WAIT_SOF len0 (h0, h1', h2') pos0 buf0)
                    [SOF; h1; h2; hcrc; SOD]
                  = Some (Parser ST_READ_PAYLOAD L (SOF, h1, h2) 0 buf0, [])).
  { cbn [Link.feed_loop]. unfold Link.feed_byte at 1.
    cbn [P_st P_length P_hdr P_payload_pos P_payload].
    rewrite Z.eqb_refl.
    unfold Link.feed_byte at 1.
    cbn [P_st P_length P_hdr P_payload_pos P_payload].
    unfold Link.feed_byte at 1.
    cbn [P_st P_length P_hdr P_payload_pos P_payload].
    rewrite Hrd.
    change MIN_PKT_LEN with 7. change MAX_PKT_LEN with 102.
    rewrite Z.gtb_ltb.
    rewrite (proj2 (Z.ltb_ge L 7)), (proj2 (Z.ltb_ge 102 L)) by lia.
    unfold set_st; cbn [orb P_st P_length P_hdr P_payload_pos P_payload].
    unfold Link.feed_byte at 1.
    cbn [P_st P_length P_hdr P_payload_pos P_payload hdr_bytes].
    fold hcrc. rewrite Z.eqb_refl.
    unfold set_st; cbn [negb P_st P_length P_hdr P_payload_pos P_payload].
    unfold Link.feed_byte at 1.
    cbn [P_st P_length P_hdr P_payload_pos P_payload].
    by rewrite Z.eqb_refl. }
  rewrite Hhead. clear Hhead.
  destruct (feed_payload lp_uninit tmp_uninit lp_uninit_len tmp_uninit_len
              body L (SOF, h1, h2) 0 buf0)
    as (buf & -> & Hbuf' & Htk).
  - done.
  - change MIN_PKT_LEN with 7. change MAX_PKT_LEN with 102. lia.
  - done.
  - intros ->. cbn [length] in Hlen. lia.
  - lia.
  - change (Z.to_nat 0) with 0%nat in Htk. rewrite take_0 in Htk.
    cbn [app] in Htk.
    replace (L - 3) with n in * by lia. unfold n in Htk.
    rewrite Nat2Z.id in Htk.
    exists buf. by split.
Qed.

(** The byte due in [ST_READ_PKTCRC] when it is the CRC of the stored
    body. *)
Lemma feed_pktcrc_match (L : Z) (h : Z * Z * Z) (pos : Z) (buf : list Z) :
  length buf = Z.to_nat MAX_PAYLOAD_SIZE -> 0 <= pos <= MAX_PAYLOAD_SIZE ->
  feed_byte (Parser ST_READ_PKTCRC L h pos buf)
            (crc8_compute (SOD :: take (Z.to_nat pos) buf) (pos + 1)
                          CRC8_INIT CRC8_POLY)
    = Some (Parser ST_WAIT_EOF L h pos buf, []).
Proof.
  intros Hbuf Hpos. unfold Link.feed_byte.
  cbn [P_st P_length P_hdr P_payload_pos P_payload].
  destruct (tmp_filled lp_uninit tmp_uninit lp_uninit_len tmp_uninit_len
                       buf pos) as (tmp & -> & Htmp); [done..|].
  rewrite (crc8_compute_take tmp (SOD :: take (Z.to_nat pos) buf) (pos + 1)).
  - by rewrite Z.eqb_refl.
  - rewrite Htmp. replace (Z.to_nat (pos + 1)) with (S (Z.to_nat pos)) by lia.
    cbn [take firstn]. by rewrite take_take, Nat.min_id.
Qed.

(** What follows the body of a frame when the packet CRC does not match:
    the frame is dropped and a closing byte other than SOF is passed over. *)
Lemma feed_bad_pktcrc (L : Z) (h : Z * Z * Z) (pos : Z) (buf : list Z)
      (c e : Z) :
  length buf = Z.to_nat MAX_PAYLOAD_SIZE -> 0 <= pos <= MAX_PAYLOAD_SIZE ->
  crc8_compute (SOD :: take (Z.to_nat pos) buf) (pos + 1) CRC8_INIT CRC8_POLY
    <> c ->
  e <> SOF ->
  exists P',
    feed_loop (Parser ST_READ_PKTCRC L h pos buf) [c; e] = Some (P', [])
    /\ P_st P' = ST_WAIT_SOF.
Proof.
  intros Hbuf Hpos Hc He. cbn [Link.feed_loop].
  destruct (feed_byte_failure lp_uninit tmp_uninit lp_uninit_len
              tmp_uninit_len (Parser ST_READ_PKTCRC L h pos buf) c)
    as (P1 & -> & Hst1 & _); [by split | by apply VF_pkt_crc |].
  unfold Link.feed_byte. rewrite Hst1.
  rewrite (proj2 (Z.eqb_neq _ _) He). by exists P1.
Qed.

(** X5. A damaged frame is dropped: when one byte of the payload, the
    packet CRC or the EOF marker of a frame built by [rpc_link_build_frame]
    is changed on the wire, the parser delivers nothing and is left waiting
    for a start of frame. *)
Theorem link_drops_damaged_frame (P : parser) (pl : list Z) (k : nat) (y : Z) :
  P_st P = ST_WAIT_SOF ->
  length (P_payload P) = Z.to_nat MAX_PAYLOAD_SIZE ->
  Forall is_byte pl ->
  MIN_PAYLOAD_SIZE <= Z.of_nat (length pl) <= MAX_PAYLOAD_SIZE ->
  let frame := frame_of pl (Z.of_nat (length pl)) in
  (5 <= k < length frame)%nat -> is_byte y -> frame !! k <> Some y ->
  let wire := <[k := y]> frame in
  exists P',
    Link.rpc_link_feed_bytes lp_uninit tmp_uninit P wire
                             (Z.of_nat (length wire)) = Some (P', [])
    /\ P_st P' = ST_WAIT_SOF.
Proof.
  intros Hst Hbuf Hpl Hlen frame Hk Hy Hne wire. unfold wire.
  rewrite feed_bytes_all. clear wire. revert Hk Hne. unfold frame. clear frame.
  set (n := Z.of_nat (length pl)).
  rewrite (frame_of_layout pl n _ _ _ eq_refl eq_refl eq_refl).
  replace (take (Z.to_nat n) pl) with pl
    by (unfold n; by rewrite Nat2Z.id, firstn_all).
  set (L := u16 (n + 3)). set (h1 := u8 (Z.land L 255)).
  set (h2 := u8 (Z.shiftr L 8)).
  set (hcrc := crc8_compute [SOF; h1; h2] 3 CRC8_INIT CRC8_POLY).
  set (pcrc := crc8_compute (SOD :: pl) (n + 1) CRC8_INIT CRC8_POLY).
  set (hd := [SOF; h1; h2; hcrc; SOD]).
  change MIN_PAYLOAD_SIZE with 4 in Hlen.
  change MAX_PAYLOAD_SIZE with 99 in Hlen.
  rewrite !length_app. change (length hd) with 5%nat.
  change (length [pcrc; EOF_]) with 2%nat.
  intros Hk Hne.
  replace k with (length hd + (k - 5))%nat in Hne |- *
    by (change (length hd) with 5%nat; lia).
  rewrite insert_app_r. rewrite lookup_app_r in Hne by lia.
  replace (length hd + (k - 5) - length hd)%nat with (k - 5)%nat in Hne by lia.
  set (j := (k - 5)%nat) in *.
  destruct (decide (j < length pl)%nat) as [Hj|Hj].
  - (* a payload byte *)
    rewrite insert_app_l by done. rewrite lookup_app_l in Hne by done.
    destruct (lookup_lt_is_Some_2 pl j Hj) as [x Hx].
    rewrite Hx in Hne.
    destruct (feed_to_pktcrc P (<[j := y]> pl) Hst Hbuf) as (buf & E & Hb & Htk);
      [by rewrite length_insert|].
    rewrite length_insert in E, Htk. fold n L h1 h2 hcrc hd in E.
    rewrite app_assoc, feed_loop_app, E.
    destruct (feed_bad_pktcrc L (SOF, h1, h2) n buf pcrc EOF_)
      as (P' & -> & Hst'); [done | change MAX_PAYLOAD_SIZE with 99; lia | | done |].
    + unfold n at 1. rewrite Nat2Z.id, Htk. unfold pcrc.
      replace (n + 1) with (Z.of_nat (length (SOD :: pl)))
        by (cbn [length]; lia).
      rewrite crc8_compute_all.
      replace (Z.of_nat (length (SOD :: pl)))
        with (Z.of_nat (length (SOD :: <[j := y]> pl)))
        by (cbn [length]; by rewrite length_insert).
      rewrite crc8_compute_all.
      rewrite <- (take_drop_middle pl j x Hx) at 2.
      rewrite insert_take_drop by done.
      intros Heq. symmetry in Heq. revert Heq.
      apply (crc8_single_byte (SOD :: take j pl) (drop (S j) pl) x y CRC8_INIT).
      * constructor; [by vm_compute|]. by apply Forall_take.
      * by apply Forall_drop.
      * eapply Forall_lookup_1; [exact Hpl | exact Hx].
      * done.
      * by vm_compute.
      * congruence.
    + by exists P'.
  - rewrite insert_app_r_alt by lia. rewrite lookup_app_r in Hne by lia.
    destruct (feed_to_pktcrc P pl Hst Hbuf) as (buf & E & Hb & Htk); [done|].
    fold n L h1 h2 hcrc hd in E.
    rewrite app_assoc, feed_loop_app, E.
    destruct (j - length pl)%nat as [|[|?]] eqn:Ej; [| |lia].
    + (* the packet CRC *)
      cbn [lookup list_lookup] in Hne.
      change (<[0%nat := y]> [pcrc; EOF_]) with [y; EOF_].
      destruct (feed_bad_pktcrc L (SOF, h1, h2) n buf y EOF_)
        as (P' & -> & Hst'); [done | change MAX_PAYLOAD_SIZE with 99; lia | | done |].
      * unfold n at 1. rewrite Nat2Z.id, Htk. fold pcrc. congruence.
      * by exists P'.
    + (* the EOF marker *)
      cbn [lookup list_lookup] in Hne.
      change (<[1%nat := y]> [pcrc; EOF_]) with [pcrc; y].
      cbn [Link.feed_loop].
      pose proof (feed_pktcrc_match L (SOF, h1, h2) n buf Hb) as Epk.
      replace (take (Z.to_nat n) buf) with pl in Epk
        by (unfold n; by rewrite Nat2Z.id).
      fold pcrc in Epk.
      rewrite Epk by (change MAX_PAYLOAD_SIZE with 99; lia).
      destruct (feed_byte_failure lp_uninit tmp_uninit lp_uninit_len
                  tmp_uninit_len (Parser ST_WAIT_EOF L (SOF, h1, h2) n buf) y)
        as (P' & -> & Hst' & _).
      * split; [done|]. cbn [P_payload_pos]. change MAX_PAYLOAD_SIZE with 99. lia.
      * apply VF_eof; [done|]. congruence.
      * by exists P'.
Qed.

End LinkWire.

(** Noise, the frame of [REQ, seq 1, name p], noise. *)
Lemma link_delivers_only_frames_witness :
  exists P' out,
    rpc_link_feed_bytes (replicate 99 0) (replicate 100 0) rpc_link_init
      [0; 1; 250; 7; 0; 128; 251; 11; 1; 112; 0; 245; 254; 3] 14
      = Some (P', out)
    /\ Forall (framed_in [0; 1; 250; 7; 0; 128; 251; 11; 1; 112; 0; 245; 254; 3])
              out.
Proof.
  apply (link_delivers_only_frames (replicate 99 0) (replicate 100 0)
           eq_refl eq_refl
           [0; 1; 250; 7; 0; 128; 251; 11; 1; 112; 0; 245; 254; 3]).
  repeat (constructor; [unfold is_byte; lia|]). constructor.
Defined.

(** Two frames with noise before the first and after the second. *)
Lemma link_frames_through_noise_witness :
  exists P' out,
    rpc_link_feed_bytes (replicate 99 0) (replicate 100 0) rpc_link_init
      (wire_of [([0; 1], [11; 1; 112; 0]); ([], [22; 1; 112; 0; 7])] ++ [9])
      (Z.of_nat
         (length (wire_of [([0; 1], [11; 1; 112; 0]);
                           ([], [22; 1; 112; 0; 7])] ++ [9])))
      = Some (P', out)
    /\ P_st P' = ST_WAIT_SOF
    /\ Forall2 delivers out [[11; 1; 112; 0]; [22; 1; 112; 0; 7]].
Proof.
  apply (link_frames_through_noise (replicate 99 0) (replicate 100 0)
           eq_refl eq_refl
           [([0; 1], [11; 1; 112; 0]); ([], [22; 1; 112; 0; 7])] [9]
           rpc_link_init).
  - reflexivity.
  - reflexivity.
  - repeat (apply List.Forall_cons;
            [split; [repeat (apply List.Forall_cons; [by vm_compute|]);
                     apply List.Forall_nil
                    | by vm_compute]|]).
    apply List.Forall_nil.
  - repeat (apply List.Forall_cons; [by vm_compute|]). apply List.Forall_nil.
Defined.

(** The frame of [REQ, seq 1, name p] with its sequence byte changed. *)
Lemma link_drops_damaged_frame_witness :
  exists P',
    rpc_link_feed_bytes (replicate 99 0) (replicate 100 0) rpc_link_init
      (<[6%nat := 2]> (frame_of [11; 1; 112; 0] 4))
      (Z.of_nat (length (<[6%nat := 2]> (frame_of [11; 1; 112; 0] 4))))
      = Some (P', [])
    /\ P_st P' = ST_WAIT_SOF.
Proof.
  apply (link_drops_damaged_frame (replicate 99 0) (replicate 100 0)
           eq_refl eq_refl rpc_link_init [11; 1; 112; 0] 6 2).
  - reflexivity.
  - reflexivity.
  - repeat (constructor; [unfold is_byte; lia|]). constructor.
  - by vm_compute.
  - vm_compute. lia.
  - unfold is_byte; lia.
  - vm_compute. discriminate.
Defined.

(** X6. The outcome of [rpc_link_build_frame]: it succeeds exactly when the
    payload pointer is not null, the length is within
    [MIN_PAYLOAD_SIZE..MAX_PAYLOAD_SIZE] and the PHY did not fail; with a
    null pointer or a length out of range nothing reaches the PHY;
    otherwise one frame of [len + 7] bytes is sent, which fits the local
    array of [HEADER_SIZE + MAX_PKT_LEN] bytes, opens with SOF and closes
    with EOF. *)
Theorem build_frame_outcome (phy_res : Z) (pl : option (list Z)) (len : Z) :
  (forall bytes, pl = Some bytes -> 0 <= len <= Z.of_nat (length bytes)) ->
  let rc := fst (rpc_link_build_frame phy_res pl len) in
  let sent := snd (rpc_link_build_frame phy_res pl len) in
  let valid :=
    is_Some pl /\ MIN_PAYLOAD_SIZE <= len <= MAX_PAYLOAD_SIZE in
  (rc = RPC_SUCCESS \/ rc = RPC_ERROR)
  /\ (rc = RPC_SUCCESS <-> valid /\ 0 <= phy_res)
  /\ (~ valid -> sent = [])
  /\ (valid ->
      exists frame,
        sent = [frame]
        /\ Z.of_nat (length frame) = len + 7
        /\ len + 7 <= HEADER_SIZE + MAX_PKT_LEN
        /\ frame !! 0%nat = Some SOF
        /\ frame !! Z.to_nat (len + 6) = Some EOF_).
Proof.
  intros Hfit rc sent valid. unfold rc, sent, valid, rpc_link_build_frame.
  clear rc sent valid.
  change MIN_PAYLOAD_SIZE with 4. change MAX_PAYLOAD_SIZE with 99.
  destruct pl as [bytes|].
  2:{ split; [by right|]. split; [|split].
      - split; [done|]. by intros [[[? [=]] _] _].
      - done.
      - by intros [[? [=]] _]. }
  specialize (Hfit bytes eq_refl).
  rewrite Z.gtb_ltb.
  destruct (99 <? len) eqn:E1; [apply Z.ltb_lt in E1|apply Z.ltb_ge in E1].
  { cbn [orb fst snd]. split; [by right|]. split; [|split].
    - split; [done|]. intros [[_ ?] _]. lia.
    - done.
    - intros [_ ?]. lia. }
  destruct (len <? 4) eqn:E2; [apply Z.ltb_lt in E2|apply Z.ltb_ge in E2].
  { cbn [orb fst snd]. split; [by right|]. split; [|split].
    - split; [done|]. intros [[_ ?] _]. lia.
    - done.
    - intros [_ ?]. lia. }
  cbn [orb].
  assert (Hframe : exists frame,
             [frame_of bytes len] = [frame]
             /\ Z.of_nat (length frame) = len + 7
             /\ len + 7 <= HEADER_SIZE + MAX_PKT_LEN
             /\ frame !! 0%nat = Some SOF
        /\ frame !! Z.to_nat (len + 6) = Some EOF_).
  { exists (frame_of bytes len). split; [done|].
    rewrite (frame_of_layout bytes len _ _ _ eq_refl eq_refl eq_refl).
    split; [|split; [|split]].
    - rewrite !length_app, length_take. cbn [length]. lia.
    - change (HEADER_SIZE + MAX_PKT_LEN) with 106. lia.
    - done.
    - rewrite app_assoc.
      rewrite lookup_app_r; rewrite length_app, length_take; cbn [length];
        [|lia].
      by replace (Z.to_nat (len + 6) - (5 + Z.to_nat len `min` length bytes))%nat
        with 1%nat by lia. }
  destruct (phy_res <? 0) eqn:E3; [apply Z.ltb_lt in E3|apply Z.ltb_ge in E3];
    cbn [fst snd].
  - split; [by right|]. split; [|split].
    + split; [done|]. intros [_ ?]. lia.
    + intros Hn. destruct Hn. split; [by eexists|lia].
    + intros _. exact Hframe.
  - split; [by left|]. split; [|split].
    + split; [|done]. intros _. split; [|done]. split; [by eexists|lia].
    + intros Hn. destruct Hn. split; [by eexists|lia].
    + intros _. exact Hframe.
Qed.

(** The four payload bytes of [REQ, seq 1, name p], sent with success. *)
Lemma build_frame_outcome_witness :
  fst (rpc_link_build_frame 11 (Some [11; 1; 112; 0]) 4) = RPC_SUCCESS
  /\ exists frame,
       snd (rpc_link_build_frame 11 (Some [11; 1; 112; 0]) 4) = [frame]
       /\ Z.of_nat (length frame) = 4 + 7
       /\ 4 + 7 <= HEADER_SIZE + MAX_PKT_LEN
       /\ frame !! 0%nat = Some SOF
        /\ frame !! Z.to_nat (4 + 6) = Some EOF_.
Proof.
  pose proof (build_frame_outcome 11 (Some [11; 1; 112; 0]) 4) as H.
  cbv zeta in H.
  destruct H as (_ & Hrc & _ & Hsent).
  - intros bytes [= <-]. cbn. lia.
  - assert (Hv : is_Some (Some [11; 1; 112; 0])
                 /\ MIN_PAYLOAD_SIZE <= 4 <= MAX_PAYLOAD_SIZE)
      by (split; [by eexists | by vm_compute]).
    split; [apply Hrc; split; [exact Hv | lia] | exact (Hsent Hv)].
Defined.

(** ** Transport codec: what is accepted *)

Lemma memchr_nat_Some (l : list Z) :
  forall k t,
    memchr_nat l 0 k = Some t ->
    (t < k)%nat
    /\ exists name rest,
         l = name ++ 0 :: rest /\ length name = t
         /\ Forall (fun c => c <> 0) name.
Proof.
  induction l as [|c l IH]; intros k t H.
  - by destruct k.
  - destruct k as [|k]; [done|]. cbn [memchr_nat] in H.
    destruct (c =? 0) eqn:Ec.
    + injection H as <-. apply Z.eqb_eq in Ec. subst c.
      split; [lia|]. by exists [], l.
    + destruct (memchr_nat l 0 k) as [t'|] eqn:E; [|done].
      injection H as <-. apply IH in E as (Ht & name & rest & -> & <- & Hn).
      apply Z.eqb_neq in Ec.
      split; [lia|]. exists (c :: name), rest.
      split; [done|]. split; [done|]. by constructor.
Qed.

(** The shape of every buffer [rpc_trans_parse_msg] accepts. *)
Lemma parse_msg_inv (p : list Z) (n : Z) (o0 o : parse_out) :
  rpc_trans_parse_msg (Some p) n o0 = Some (RPC_SUCCESS, o) ->
  exists t s name body tl,
    p = t :: s :: name ++ 0 :: body ++ tl
    /\ n = 3 + Z.of_nat (length name) + Z.of_nat (length body)
    /\ valid_type t = true
    /\ Forall (fun c => c <> 0) name
    /\ MIN_FUNC_NAME_LEN <= Z.of_nat (length name) <= MAX_FUNC_NAME_LEN
    /\ Z.of_nat (length body) <= MAX_FUNC_ARGS_RESP_SIZE
    /\ o = Parse_out t s (Some 2) (Some (3 + Z.of_nat (length name)))
                     (Z.of_nat (length body)).
Proof.
  assert (Hne : forall x y : parse_out,
            Some (RPC_ERROR, x) = Some (RPC_SUCCESS, y) -> False)
    by (intros x y [= ? _]; done).
  unfold rpc_trans_parse_msg.
  change MIN_PAYLOAD_SIZE with 4. change MAX_PAYLOAD_SIZE with 99.
  change MIN_FUNC_NAME_LEN with 1. change MAX_FUNC_NAME_LEN with 32.
  change MAX_FUNC_ARGS_RESP_SIZE with 64.
  destruct ((n <? 4) || (n >? 99)) eqn:E0; [by intros ?%Hne|].
  apply orb_false_iff in E0 as [E0a E0b]. rewrite Z.gtb_ltb in E0b.
  apply Z.ltb_ge in E0a, E0b.
  destruct p as [|t [|s rest]]; [done..|].
  change ((t :: s :: rest) !! 0%nat) with (Some t).
  change ((t :: s :: rest) !! 1%nat) with (Some s).
  cbn [mbind option_bind].
  destruct (valid_type t) eqn:Ety; [|by intros ?%Hne].
  cbn [negb]. destruct (2 >=? n) eqn:E1; [by intros ?%Hne|].
  destruct (decide (n <= Z.of_nat (length (t :: s :: rest)))) as [Hfit|];
    [|done].
  cbn [length] in Hfit.
  change (Z.to_nat 2) with 2%nat. cbn [drop skipn]. rewrite drop_0.
  destruct (memchr_nat rest 0 (Z.to_nat (n - 2))) as [term|] eqn:Em;
    [|by intros ?%Hne].
  apply memchr_nat_Some in Em as (Hterm & name & rest' & -> & <- & Hname).
  destruct (_ || _) eqn:E2; [by intros ?%Hne|].
  apply orb_false_iff in E2 as [E2a E2b]. rewrite Z.gtb_ltb in E2b.
  apply Z.ltb_ge in E2a, E2b.
  rewrite !Z.gtb_ltb.
  destruct (n <? 2 + Z.of_nat (length name) + 1) eqn:E3; [by intros ?%Hne|].
  apply Z.ltb_ge in E3.
  destruct (64 <? n - (2 + Z.of_nat (length name) + 1)) eqn:E4;
    [by intros ?%Hne|].
  apply Z.ltb_ge in E4.
  intros [= <-].
  rewrite length_app in Hfit. cbn [length] in Hfit.
  set (k := Z.to_nat (n - (2 + Z.of_nat (length name) + 1))).
  exists t, s, name, (take k rest'), (drop k rest').
  rewrite take_drop.
  assert (Hk : length (take k rest') = k) by (rewrite length_take; lia).
  rewrite Hk.
  split; [done|]. split; [lia|]. split; [done|]. split; [done|].
  split; [lia|]. split; [lia|].
  f_equal; [f_equal; lia|].
  unfold u16. rewrite Z.mod_small by lia. lia.
Qed.

(** X7. [rpc_trans_parse_msg] accepts exactly the messages of the wire
    format: for a buffer holding at least [n] bytes the call returns
    [RPC_SUCCESS] or [RPC_ERROR], and [RPC_SUCCESS] exactly when the first
    [n] bytes are a valid type, a sequence byte, a name of 1 to 32
    characters, its terminator and at most 64 bytes of arguments. *)
Theorem parse_msg_accepts_exactly (p : list Z) (n : Z) (o0 : parse_out) :
  0 <= n <= Z.of_nat (length p) ->
  exists rc o,
    rpc_trans_parse_msg (Some p) n o0 = Some (rc, o)
    /\ (rc = RPC_SUCCESS \/ rc = RPC_ERROR)
    /\ (rc = RPC_SUCCESS <-> well_formed_message (take (Z.to_nat n) p)).
Proof.
  intros Hn.
  assert (Hback : well_formed_message (take (Z.to_nat n) p) ->
            exists o, rpc_trans_parse_msg (Some p) n o0
                      = Some (RPC_SUCCESS, o)).
  { intros (t & s & name & body & Htk & Hty & Hname & Hnlen & Hblen).
    destruct (parse_msg_layout t s name body (drop (Z.to_nat n) p) o0
                Hty Hname Hnlen Hblen) as (E & _).
    cbv zeta in E.
    pose proof (take_drop (Z.to_nat n) p) as Hp. rewrite Htk in Hp.
    cbn [app] in Hp. rewrite <- app_assoc in Hp. cbn [app] in Hp.
    rewrite Hp in E.
    apply (f_equal length) in Htk. rewrite length_take in Htk.
    cbn [length] in Htk. rewrite length_app in Htk. cbn [length] in Htk.
    replace (3 + Z.of_nat (length name) + Z.of_nat (length body)) with n
      in E by lia.
    eexists. exact E. }
  assert (Hforth : forall o, rpc_trans_parse_msg (Some p) n o0
                             = Some (RPC_SUCCESS, o) ->
             well_formed_message (take (Z.to_nat n) p)).
  { intros o (t & s & name & body & tl & -> & -> & Hty & Hname & Hnlen & Hblen & _)
      %parse_msg_inv.
    exists t, s, name, body. split; [|done].
    replace (Z.to_nat (3 + Z.of_nat (length name) + Z.of_nat (length body)))
      with (S (S (length name + S (length body)))) by lia.
    cbn [take firstn]. do 2 f_equal.
    rewrite take_app_add'; [|done]. f_equal. cbn [take firstn]. f_equal.
    by rewrite take_app_length. }
  assert (Htot : exists rc o,
             rpc_trans_parse_msg (Some p) n o0 = Some (rc, o)
             /\ (rc = RPC_SUCCESS \/ rc = RPC_ERROR)).
  { unfold rpc_trans_parse_msg.
    destruct (_ || _) eqn:E0; [by eexists _, _; split; [|right]|].
    apply orb_false_iff in E0 as [E0a _]. apply Z.ltb_ge in E0a.
    change MIN_PAYLOAD_SIZE with 4 in E0a.
    destruct p as [|t [|s rest]]; [cbn [length] in Hn; lia..|].
    change ((t :: s :: rest) !! 0%nat) with (Some t).
    change ((t :: s :: rest) !! 1%nat) with (Some s).
    cbn [mbind option_bind].
    destruct (negb _); [by eexists _, _; split; [|right]|].
    destruct (_ >=? _); [by eexists _, _; split; [|right]|].
    rewrite decide_True by lia.
    destruct (memchr_nat _ _ _); [|by eexists _, _; split; [|right]].
    destruct (_ || _); [by eexists _, _; split; [|right]|].
    destruct (_ >? _); [by eexists _, _; split; [|right]|].
    destruct (_ >? _); [by eexists _, _; split; [|right]|].
    by eexists _, _; split; [|left]. }
  destruct Htot as (rc & o & E & Hrc). exists rc, o.
  split; [done|]. split; [done|]. split.
  - intros ->. by eapply Hforth.
  - intros [o' E']%Hback. congruence.
Qed.

(** The request [REQ, seq 1, name p] followed by bytes that are not read. *)
Lemma parse_msg_accepts_exactly_witness :
  exists rc o,
    rpc_trans_parse_msg (Some [11; 1; 112; 0; 9; 9]) 4
                        (Parse_out 0 0 None None 0) = Some (rc, o)
    /\ (rc = RPC_SUCCESS \/ rc = RPC_ERROR)
    /\ (rc = RPC_SUCCESS
        <-> well_formed_message (take (Z.to_nat 4) [11; 1; 112; 0; 9; 9])).
Proof.
  apply (parse_msg_accepts_exactly [11; 1; 112; 0; 9; 9] 4). cbn. lia.
Defined.

(** X8. Decoding then encoding is the identity: the fields that
    [rpc_trans_parse_msg] returns for an accepted buffer, given back to
    [rpc_trans_build_msg], produce the same [n] bytes (and leave the rest of
    the output buffer alone). *)
Theorem parse_build_roundtrip
        (p : list Z) (n : Z) (o0 o : parse_out) (out : list Z) (olen : Z) :
  rpc_trans_parse_msg (Some p) n o0 = Some (RPC_SUCCESS, o) ->
  n <= olen <= Z.of_nat (length out) ->
  exists noff aoff,
    o_name o = Some noff /\ o_args o = Some aoff
    /\ rpc_trans_build_msg (o_type o) (o_seq o) (Some (c_string_at p noff))
         (Some (bytes_at p aoff (o_alen o))) (o_alen o) (Some out) olen
       = Some (n, Some (take (Z.to_nat n) p ++ drop (Z.to_nat n) out)).
Proof.
  intros (t & s & name & body & tl & -> & -> & Hty & Hname & Hnlen & Hblen & ->)
    %parse_msg_inv Holen.
  destruct (parse_msg_layout t s name body tl o0 Hty Hname Hnlen Hblen)
    as (_ & Hcs & Hba).
  cbv zeta in Hcs, Hba.
  exists 2, (3 + Z.of_nat (length name)). cbn [o_name o_args o_type o_seq o_alen].
  split; [done|]. split; [done|]. rewrite Hcs, Hba.
  rewrite (build_msg_layout t s name (Some body) (Z.of_nat (length body))
             out olen Hty Hname Hnlen); [| lia | | lia | lia].
  2:{ intros a [= <-]. lia. }
  assert (Hbody : copied_args (Some body) (Z.of_nat (length body)) = body).
  { unfold copied_args. destruct (_ =? _) eqn:E.
    - apply Z.eqb_eq in E. by destruct body.
    - by rewrite Nat2Z.id, firstn_all. }
  rewrite Hbody. do 3 f_equal.
  replace (Z.to_nat (3 + Z.of_nat (length name) + Z.of_nat (length body)))
    with (S (S (length name + S (length body)))) by lia.
  cbn [take firstn app]. do 2 f_equal.
  rewrite take_app_add'; [|done]. rewrite <- app_assoc. f_equal.
  cbn [take firstn app]. f_equal.
  by rewrite take_app_length.
Qed.

(** The response [RESP, seq 1, name p, body 7] re-encoded into a fresh
    buffer. *)
Lemma parse_build_roundtrip_witness :
  exists noff aoff,
    Some 2 = Some noff /\ Some 4 = Some aoff
    /\ rpc_trans_build_msg 22 1 (Some (c_string_at [22; 1; 112; 0; 7] noff))
         (Some (bytes_at [22; 1; 112; 0; 7] aoff 1)) 1
         (Some (replicate 99 0)) 99
       = Some (5, Some (take (Z.to_nat 5) [22; 1; 112; 0; 7]
                        ++ drop (Z.to_nat 5) (replicate 99 0))).
Proof.
  apply (parse_build_roundtrip [22; 1; 112; 0; 7] 5
           (Parse_out 0 0 None None 0) (Parse_out 22 1 (Some 2) (Some 4) 1)
           (replicate 99 0) 99).
  - reflexivity.
  - cbn. lia.
Defined.

(** The two outcomes of [rpc_trans_build_msg]. *)
Lemma build_msg_cases
      (type seq : Z) (name : list Z) (args : option (list Z)) (alen : Z)
      (out : list Z) (olen : Z) :
  Forall (fun c => c <> 0) name ->
  args_readable args alen ->
  olen <= Z.of_nat (length out) ->
  exists size buf,
    rpc_trans_build_msg type seq (Some name) args alen (Some out) olen
      = Some (size, Some buf)
    /\ (size <> 0 <-> build_accepts type name alen olen)
    /\ (size = 0 -> buf = out)
    /\ (size <> 0 ->
        MIN_PAYLOAD_SIZE <= size <= olen /\ size <= MAX_PAYLOAD_SIZE
        /\ length buf = length out
        /\ drop (Z.to_nat size) buf = drop (Z.to_nat size) out).
Proof.
  intros Hname [Halen Hargs] Holen. unfold build_accepts.
  change MIN_FUNC_NAME_LEN with 1. change MAX_FUNC_NAME_LEN with 32.
  change MAX_FUNC_ARGS_RESP_SIZE with 64.
  change MIN_PAYLOAD_SIZE with 4. change MAX_PAYLOAD_SIZE with 99.
  destruct (decide (valid_type type = true
                    /\ 1 <= Z.of_nat (length name) <= 32
                    /\ alen <= 64
                    /\ 3 + Z.of_nat (length name) + alen <= olen))
    as [Hacc|Hrej].
  - destruct Hacc as (Hty & Hnlen & Ha & Hfit).
    rewrite (build_msg_layout type seq name args alen out olen Hty Hname
               Hnlen (conj Halen Ha) Hargs Hfit Holen).
    set (body := copied_args args alen).
    assert (Hbody : Z.of_nat (length body) <= alen).
    { unfold body, copied_args. destruct args as [a|]; [|cbn [length]; lia].
      destruct (alen =? 0); [cbn [length]; lia|].
      rewrite length_take. lia. }
    eexists _, _. split; [done|]. split; [split; [done|lia]|].
    split; [lia|]. intros _. split; [lia|]. split; [lia|].
    set (size := 3 + Z.of_nat (length name) + Z.of_nat (length body)).
    assert (Hsz : Z.to_nat size = (S (S (length name + S (length body))))%nat)
      by lia.
    split.
    + cbn [length]. rewrite !length_app. cbn [length].
      rewrite length_app, length_drop. lia.
    + rewrite Hsz at 1. cbn [drop skipn].
      rewrite drop_app_add'; [|done]. cbn [drop skipn].
      by rewrite drop_app_length.
  - exists 0, out. split; [|split; [|split]]; [| |done|done].
    2:{ split; [done|]. intros Hacc. by destruct Hrej. }
    unfold rpc_trans_build_msg.
    destruct (valid_type type) eqn:Ety; [|done]. cbn [negb].
    rewrite (strlen_no_nul name Hname).
    change MIN_FUNC_NAME_LEN with 1. change MAX_FUNC_NAME_LEN with 32.
    change MAX_FUNC_ARGS_RESP_SIZE with 64.
    change (TYPE_MSG_SIZE + SEQ_MSG_SIZE) with 2. change TERM_SIZE with 1.
    change MIN_PAYLOAD_SIZE with 4. change MAX_PAYLOAD_SIZE with 99.
    rewrite !Z.gtb_ltb.
    destruct (Z.of_nat (length name) <? 1) eqn:E1; [done|].
    destruct (32 <? Z.of_nat (length name)) eqn:E2; [done|].
    cbn [orb].
    destruct (64 <? alen) eqn:E3; [done|].
    destruct (_ || _) eqn:E4; [done|].
    destruct (olen <? 2 + Z.of_nat (length name) + 1 + alen) eqn:E5; [done|].
    apply Z.ltb_ge in E1, E2, E3, E5. destruct Hrej. lia.
Qed.

(** X9. When [rpc_trans_build_msg] refuses: it returns 0 with the output
    buffer untouched exactly when the type is not one of the four, the name
    has fewer than 1 or more than 32 characters, [alen] exceeds 64, or the
    header, name, terminator and [alen] bytes do not fit [olen]; otherwise
    the size is at least [MIN_PAYLOAD_SIZE], at most [olen] and
    [MAX_PAYLOAD_SIZE], and no byte at or after the size is written. *)
Theorem build_msg_outcome
        (type seq : Z) (name : list Z) (args : option (list Z)) (alen : Z)
        (out : list Z) (olen : Z) :
  Forall (fun c => c <> 0) name ->
  args_readable args alen ->
  olen <= Z.of_nat (length out) ->
  exists size buf,
    rpc_trans_build_msg type seq (Some name) args alen (Some out) olen
      = Some (size, Some buf)
    /\ (size <> 0 <-> build_accepts type name alen olen)
    /\ (size = 0 -> buf = out)
    /\ (size <> 0 ->
        MIN_PAYLOAD_SIZE <= size <= olen /\ size <= MAX_PAYLOAD_SIZE
        /\ length buf = length out
        /\ drop (Z.to_nat size) buf = drop (Z.to_nat size) out).
Proof. exact (build_msg_cases type seq name args alen out olen). Qed.

(** A name of 33 characters is refused; the ping request is written. *)
Lemma build_msg_outcome_witness :
  exists size buf,
    rpc_trans_build_msg MSG_REQ 1 (Some ping_name) (Some [1; 2; 3]) 3
                        (Some (replicate 99 0)) 99
      = Some (size, Some buf)
    /\ (size <> 0 <-> build_accepts MSG_REQ ping_name 3 99)
    /\ (size = 0 -> buf = replicate 99 0)
    /\ (size <> 0 ->
        MIN_PAYLOAD_SIZE <= size <= 99 /\ size <= MAX_PAYLOAD_SIZE
        /\ length buf = length (replicate 99 0)
        /\ drop (Z.to_nat size) buf = drop (Z.to_nat size) (replicate 99 0)).
Proof.
  apply (build_msg_outcome MSG_REQ 1 ping_name (Some [1; 2; 3]) 3
           (replicate 99 0) 99).
  - repeat (apply List.Forall_cons; [by vm_compute|]). apply List.Forall_nil.
  - split; [lia|]. intros a [= <-]. cbn. lia.
  - cbn. lia.
Defined.

(** ** Registry *)

Lemma strncmp_eq_refl (s : list Z) (n : nat) : strncmp_eq s s n = true.
Proof.
  revert s. induction n as [|n IH]; intros s; [by destruct s|].
  destruct s as [|a s]; [done|]. cbn [strncmp_eq].
  rewrite Z.eqb_refl. by destruct (a =? 0).
Qed.

(** The three ways the scan ends: on the first entry that compares equal,
    at the end of the entries, or on the first null name. *)
Lemma find_reg_from_cases (es : list reg_entry_t) (name : list Z) :
  forall i,
    0 <= i ->
    let differs (e : reg_entry_t) :=
      exists nm, reg_name e = Some nm
                 /\ strncmp_eq nm name (Z.to_nat MAX_FUNC_NAME_LEN) = false in
    (find_reg_from es i name = Some RPC_ERROR /\ Forall differs es)
    \/ (exists pre e post nm,
          es = pre ++ e :: post /\ Forall differs pre
          /\ reg_name e = Some nm
          /\ strncmp_eq nm name (Z.to_nat MAX_FUNC_NAME_LEN) = true
          /\ find_reg_from es i name = Some (i + Z.of_nat (length pre)))
    \/ (exists pre e post,
          es = pre ++ e :: post /\ Forall differs pre
          /\ reg_name e = None
          /\ find_reg_from es i name = None).
Proof.
  induction es as [|e es IH]; intros i Hi differs.
  { left. split; [done|]. apply List.Forall_nil. }
  cbn [find_reg_from].
  destruct (reg_name e) as [nm|] eqn:En; cbn [mbind option_bind].
  - destruct (strncmp_eq nm name _) eqn:Ec.
    + right; left. exists [], e, es, nm. cbn [app length].
      split; [done|]. split; [apply List.Forall_nil|].
      split; [done|]. split; [done|]. f_equal. lia.
    + assert (Hd : differs e) by (by exists nm).
      destruct (IH (i + 1) ltac:(lia))
        as [[E Hall]|[(pre & e' & post & nm' & -> & Hpre & Hn & Hc & E)
                     |(pre & e' & post & -> & Hpre & Hn & E)]].
      * left. split; [done|]. by apply List.Forall_cons.
      * right; left. exists (e :: pre), e', post, nm'.
        split; [done|]. split; [by apply List.Forall_cons|].
        split; [done|]. split; [done|].
        rewrite E. cbn [length]. f_equal. lia.
      * right; right. exists (e :: pre), e', post.
        split; [done|]. split; [by apply List.Forall_cons|]. done.
  - right; right. exists [], e, es.
    split; [done|]. split; [apply List.Forall_nil|]. done.
Qed.

Lemma find_reg_from_range (es : list reg_entry_t) (name : list Z) (i idx : Z) :
  0 <= i -> find_reg_from es i name = Some idx ->
  idx = RPC_ERROR \/ i <= idx < i + Z.of_nat (length es).
Proof.
  intros Hi E.
  destruct (find_reg_from_cases es name i Hi)
    as [[E' _]|[(pre & e & post & nm & -> & _ & _ & _ & E')
               |(pre & e & post & -> & _ & _ & E')]];
    rewrite E' in E; [left; congruence| |done].
  right. injection E as <-. rewrite length_app. cbn [length]. lia.
Qed.

Lemma find_reg_from_app (l1 l2 : list reg_entry_t) (name : list Z) :
  forall i,
    0 <= i ->
    find_reg_from (l1 ++ l2) i name =
      match find_reg_from l1 i name with
      | Some idx =>
          if idx =? RPC_ERROR
          then find_reg_from l2 (i + Z.of_nat (length l1)) name
          else Some idx
      | None => None
      end.
Proof.
  induction l1 as [|e l1 IH]; intros i Hi.
  - cbn [app find_reg_from length]. change (RPC_ERROR =? RPC_ERROR) with true.
    cbn match. f_equal. lia.
  - cbn [app find_reg_from length].
    assert (Hi' : (i =? RPC_ERROR) = false)
      by (apply Z.eqb_neq; unfold RPC_ERROR; lia).
    destruct (reg_name e) as [nm|]; cbn [mbind option_bind]; [|done].
    destruct (strncmp_eq _ _ _); [by rewrite Hi'|].
    rewrite IH by lia.
    by replace (i + 1 + Z.of_nat (length l1))
      with (i + Z.of_nat (S (length l1))) by lia.
Qed.

(** The entries [find_reg] scans. *)
Lemma registered_lookup (R : registry) (j : nat) :
  registry_wf R -> (j < Z.to_nat (s_reg_count R))%nat ->
  take (Z.to_nat (s_reg_count R)) (s_reg R) !! j = s_reg R !! j.
Proof. intros _ Hj. by rewrite lookup_take_lt. Qed.

Lemma registered_length (R : registry) :
  registry_wf R ->
  length (take (Z.to_nat (s_reg_count R)) (s_reg R))
  = Z.to_nat (s_reg_count R).
Proof.
  intros [Hc Hl]. change NUM_REG_FUNC with 16 in Hc, Hl.
  rewrite length_take. lia.
Qed.

Lemma registered_middle (R : registry)
      (pre : list reg_entry_t) (e : reg_entry_t) (post : list reg_entry_t) :
  registry_wf R ->
  take (Z.to_nat (s_reg_count R)) (s_reg R) = pre ++ e :: post ->
  0 <= Z.of_nat (length pre) < s_reg_count R
  /\ s_reg R !! Z.to_nat (Z.of_nat (length pre)) = Some e.
Proof.
  intros Hwf Ees. pose proof (registered_length R Hwf) as Hes.
  rewrite Ees, length_app in Hes. cbn [length] in Hes.
  split; [lia|].
  rewrite Nat2Z.id, <- (registered_lookup R _ Hwf) by lia.
  rewrite Ees. by rewrite list_lookup_middle.
Qed.

(** Without null names the lookup returns. *)
Lemma find_reg_returns (R : registry) (name : list Z) :
  registry_wf R -> registry_named R -> is_Some (find_reg R name).
Proof.
  intros Hwf Hnamed. unfold find_reg.
  destruct (find_reg_from_cases (take (Z.to_nat (s_reg_count R)) (s_reg R))
              name 0 ltac:(lia))
    as [[E _]|[(pre & e & post & nm & _ & _ & _ & _ & E)
              |(pre & e & post & Ees & _ & Hn & _)]];
    [by rewrite E..|].
  destruct (registered_middle R pre e post Hwf Ees) as [Hr Hl].
  destruct (Hnamed (Z.of_nat (length pre))). split; [done|]. by exists e.
Qed.

(** X10. What [find_reg] does, for every table [register_fn] can leave: it
    scans the registered entries in order and ends in one of three ways.
    It returns [RPC_ERROR] when every registered name compares different;
    it returns the index, below [s_reg_count], of the first entry whose
    name compares equal, all entries before it comparing different; or it
    reads through a null name pointer, when an entry registered with a null
    name comes before any match. *)
Theorem find_reg_first_match (R : registry) (name : list Z) :
  registry_wf R ->
  (find_reg R name = Some RPC_ERROR
   /\ forall i, 0 <= i < s_reg_count R -> reg_differs R i name)
  \/ (exists idx,
        find_reg R name = Some idx /\ reg_matches R idx name
        /\ forall i, 0 <= i < idx -> reg_differs R i name)
  \/ (find_reg R name = None
      /\ exists k, reg_null R k
                   /\ forall i, 0 <= i < k -> reg_differs R i name).
Proof.
  intros Hwf. unfold find_reg.
  pose proof (registered_length R Hwf) as Hes.
  assert (Hlook := fun j => registered_lookup R j Hwf).
  set (es := take (Z.to_nat (s_reg_count R)) (s_reg R)) in *.
  assert (Hdiff : forall pre post,
            es = pre ++ post ->
            Forall (fun e => exists nm, reg_name e = Some nm
                      /\ strncmp_eq nm name (Z.to_nat MAX_FUNC_NAME_LEN)
                         = false) pre ->
            forall i, 0 <= i < Z.of_nat (length pre) -> reg_differs R i name).
  { intros pre post Ees Hpre i Hi.
    assert (Hlen : (length pre <= Z.to_nat (s_reg_count R))%nat)
      by (rewrite <- Hes, Ees, length_app; lia).
    destruct (lookup_lt_is_Some_2 pre (Z.to_nat i) ltac:(lia)) as [e He].
    destruct (proj1 (Forall_lookup _ _) Hpre _ _ He) as (nm & Hn & Hc).
    split; [lia|]. exists e, nm. split; [|done].
    rewrite <- Hlook by lia. rewrite Ees.
    by rewrite lookup_app_l by lia. }
  destruct (find_reg_from_cases es name 0 ltac:(lia))
    as [[E Hall]|[(pre & e & post & nm & Ees & Hpre & Hn & Hc & E)
                 |(pre & e & post & Ees & Hpre & Hn & E)]].
  - left. split; [done|]. intros i Hi.
    apply (Hdiff es [] ltac:(by rewrite app_nil_r) Hall). lia.
  - right; left. exists (Z.of_nat (length pre)).
    assert (Hlen : (length pre < Z.to_nat (s_reg_count R))%nat)
      by (rewrite <- Hes, Ees, length_app; cbn [length]; lia).
    split; [by rewrite E|]. split.
    + split; [lia|]. exists e, nm. split; [|done].
      rewrite Nat2Z.id, <- Hlook by lia. rewrite Ees.
      by rewrite list_lookup_middle.
    + by apply (Hdiff pre (e :: post)).
  - right; right. split; [done|]. exists (Z.of_nat (length pre)).
    assert (Hlen : (length pre < Z.to_nat (s_reg_count R))%nat)
      by (rewrite <- Hes, Ees, length_app; cbn [length]; lia).
    split.
    + split; [lia|]. exists e. split; [|done].
      rewrite Nat2Z.id, <- Hlook by lia. rewrite Ees.
      by rewrite list_lookup_middle.
    + by apply (Hdiff pre (e :: post)).
Qed.

(** A handler registered under a null name in front of ping: a lookup of
    ping reads through the null name. *)
Lemma find_reg_first_match_witness :
  let R := snd (register_fn
                  (snd (register_fn registry_init None
                                    (Some handler_fn_ping)))
                  (Some ping_name) (Some handler_fn_ping)) in
  (find_reg R ping_name = Some RPC_ERROR
   /\ forall i, 0 <= i < s_reg_count R -> reg_differs R i ping_name)
  \/ (exists idx,
        find_reg R ping_name = Some idx /\ reg_matches R idx ping_name
        /\ forall i, 0 <= i < idx -> reg_differs R i ping_name)
  \/ (find_reg R ping_name = None
      /\ exists k, reg_null R k
                   /\ forall i, 0 <= i < k -> reg_differs R i ping_name).
Proof.
  apply (find_reg_first_match
           (snd (register_fn
                   (snd (register_fn registry_init None
                                     (Some handler_fn_ping)))
                   (Some ping_name) (Some handler_fn_ping))) ping_name).
  split; by vm_compute.
Defined.

Lemma take_insert_snoc_gen {A : Type} (l : list A) (k : nat) (x : A) :
  (k < length l)%nat -> take (S k) (<[k := x]> l) = take k l ++ [x].
Proof.
  revert k. induction l as [|a l IH]; intros k Hk; simpl in Hk; [lia|].
  destruct k as [|k]; [done|].
  cbn [take firstn]. simpl. f_equal.
  apply IH. lia.
Qed.

(** X11. Registration and lookup: after a successful [register_fn] of a name
    with a handler, the table is still well-formed and the lookups that
    returned keep their answer or gain the new entry: a name that resolved
    before resolves to the same index; the new name resolves to the index
    of the new entry, which holds the handler, unless an earlier entry
    already compares equal, which then keeps answering; a name that was not
    found and differs from the new one is still not found.  A lookup that
    read through a null name before still does. *)
Theorem register_then_find
        (R : registry) (name : list Z) (fn : option rpc_fn_t) :
  registry_wf R -> s_reg_count R < NUM_REG_FUNC ->
  let R' := snd (register_fn R (Some name) fn) in
  fst (register_fn R (Some name) fn) = RPC_SUCCESS
  /\ registry_wf R'
  /\ s_reg R' !! Z.to_nat (s_reg_count R) = Some (Reg_entry (Some name) fn)
  /\ (forall nm idx,
        find_reg R nm = Some idx -> idx <> RPC_ERROR ->
        find_reg R' nm = Some idx)
  /\ (forall idx,
        find_reg R name = Some idx ->
        find_reg R' name
        = Some (if idx =? RPC_ERROR then s_reg_count R else idx))
  /\ (forall nm,
        find_reg R nm = Some RPC_ERROR ->
        strncmp_eq name nm (Z.to_nat MAX_FUNC_NAME_LEN) = false ->
        find_reg R' nm = Some RPC_ERROR)
  /\ (forall nm, find_reg R nm = None -> find_reg R' nm = None).
Proof.
  intros [Hc Hl] Hroom R'. unfold R', register_fn.
  rewrite (proj2 (Z.ltb_lt _ _) Hroom). cbn [fst snd].
  change NUM_REG_FUNC with 16 in Hc, Hl, Hroom.
  assert (Hfind : forall nm,
            find_reg (Reg (<[Z.to_nat (s_reg_count R) :=
                               Reg_entry (Some name) fn]> (s_reg R))
                          (s_reg_count R + 1)) nm
            = match find_reg R nm with
              | Some idx =>
                  if idx =? RPC_ERROR
                  then (if strncmp_eq name nm (Z.to_nat MAX_FUNC_NAME_LEN)
                        then Some (s_reg_count R) else Some RPC_ERROR)
                  else Some idx
              | None => None
              end).
  { intros nm. unfold find_reg. cbn [s_reg s_reg_count].
    replace (Z.to_nat (s_reg_count R + 1)) with (S (Z.to_nat (s_reg_count R)))
      by lia.
    rewrite take_insert_snoc_gen by lia.
    rewrite find_reg_from_app by lia.
    destruct (find_reg_from _ 0 nm) as [idx|]; [|done].
    destruct (_ =? _); [|done].
    cbn [find_reg_from reg_name mbind option_bind]. rewrite length_take.
    destruct (strncmp_eq _ _ _); [f_equal; lia|done]. }
  split; [done|]. split.
  { split; cbn [s_reg s_reg_count]; [change NUM_REG_FUNC with 16; lia|].
    by rewrite length_insert. }
  split; [cbn [s_reg]; apply list_lookup_insert_eq; lia|].
  split; [|split; [|split]].
  - intros nm idx Hnm Hidx. rewrite Hfind, Hnm.
    by rewrite (proj2 (Z.eqb_neq _ _) Hidx).
  - intros idx Hnm. rewrite Hfind, Hnm, strncmp_eq_refl.
    by destruct (idx =? RPC_ERROR).
  - intros nm Hnm Hcmp. rewrite Hfind, Hnm, Hcmp. done.
  - intros nm Hnm. by rewrite Hfind, Hnm.
Qed.

Lemma register_then_find_witness :
  let R' := snd (register_fn registry_init (Some ping_name)
                             (Some handler_fn_ping)) in
  fst (register_fn registry_init (Some ping_name) (Some handler_fn_ping))
    = RPC_SUCCESS
  /\ registry_wf R'
  /\ s_reg R' !! Z.to_nat (s_reg_count registry_init)
     = Some (Reg_entry (Some ping_name) (Some handler_fn_ping))
  /\ (forall nm idx,
        find_reg registry_init nm = Some idx -> idx <> RPC_ERROR ->
        find_reg R' nm = Some idx)
  /\ (forall idx,
        find_reg registry_init ping_name = Some idx ->
        find_reg R' ping_name
        = Some (if idx =? RPC_ERROR then s_reg_count registry_init
                else idx))
  /\ (forall nm,
        find_reg registry_init nm = Some RPC_ERROR ->
        strncmp_eq ping_name nm (Z.to_nat MAX_FUNC_NAME_LEN) = false ->
        find_reg R' nm = Some RPC_ERROR)
  /\ (forall nm, find_reg registry_init nm = None -> find_reg R' nm = None).
Proof.
  apply (register_then_find registry_init ping_name (Some handler_fn_ping)).
  - split; by vm_compute.
  - by vm_compute.
Defined.

(** ** Waiter table: lookup *)

Lemma find_waiter_from_cases (seq : Z) (ws : list waiter_t) :
  forall i ret,
    (find_waiter_from ws i seq ret = ret
     /\ forall k w, ws !! k = Some w -> ~ waits_for seq w)
    \/ (exists k w,
          find_waiter_from ws i seq ret = Some (i + k)%nat
          /\ ws !! k = Some w /\ waits_for seq w
          /\ forall j w', (k < j)%nat -> ws !! j = Some w' ->
                          ~ waits_for seq w').
Proof.
  induction ws as [|w ws IH]; intros i ret; [by left|].
  cbn [find_waiter_from].
  destruct (IH (S i) (if w_in_use w && (w_seq w =? seq) then Some i else ret))
    as [[E Hno]|(k & w' & E & Hk & Hw & Hlast)].
  - rewrite E. destruct (w_in_use w && (w_seq w =? seq)) eqn:Ew.
    + right. exists 0%nat, w. rewrite Nat.add_0_r. split; [done|].
      split; [done|]. apply andb_true_iff in Ew as [? ?%Z.eqb_eq].
      split; [done|]. intros [|j] w'' Hj Hl; [lia|]. by apply (Hno j).
    + left. split; [done|]. intros [|k] w' Hl.
      * injection Hl as <-. intros [Hu Hs].
        rewrite Hu, (proj2 (Z.eqb_eq _ _) Hs) in Ew. done.
      * by apply (Hno k).
  - right. exists (S k), w'. rewrite E. split; [f_equal; lia|].
    split; [done|]. split; [done|].
    intros [|j] w'' Hj Hl; [lia|]. apply (Hlast j); [lia|done].
Qed.

(** X12. What [rpc_trans_find_waiter] returns: the last slot of the table
    that is in use with the sequence number, and [NULL] exactly when no
    slot in use carries it; when the live sequence numbers are distinct,
    that is the one slot waiting for it. *)
Theorem find_waiter_last_match (st : trans_state) (seq : Z) :
  match rpc_trans_find_waiter st seq with
  | None => forall i w, s_wait st !! i = Some w -> ~ waits_for seq w
  | Some i =>
      (exists w, s_wait st !! i = Some w /\ waits_for seq w)
      /\ (forall j w, (i < j)%nat -> s_wait st !! j = Some w ->
                      ~ waits_for seq w)
      /\ (live_seqs_distinct st ->
          forall j w, s_wait st !! j = Some w -> waits_for seq w -> j = i)
  end.
Proof.
  unfold rpc_trans_find_waiter.
  destruct (find_waiter_from_cases seq (s_wait st) 0 None)
    as [[-> Hno]|(k & w & -> & Hk & Hw & Hlast)]; [done|].
  cbn [Nat.add]. split; [by exists w|]. split; [done|].
  intros Hd j w' Hj [Hu' Hs']. destruct Hw as [Hu Hs].
  apply (Hd j k w' w); congruence.
Qed.

(** ** Waiter table: sequence numbers *)

Lemma seqs_in_range_init : seqs_in_range rpc_trans_init.
Proof.
  split; [by vm_compute|]. split; [done|].
  intros i w Hl Hu. unfold rpc_trans_init in Hl. cbn [s_wait] in Hl.
  apply lookup_replicate in Hl as [-> _]. done.
Qed.

Lemma seqs_in_range_step (st : trans_state) (op : waiter_op) :
  seqs_in_range st -> seqs_in_range (waiter_step st op).
Proof.
  intros (Hn & Hl & Hs). destruct op as [|k]; cbn [waiter_step].
  - unfold alloc_attempt. rewrite next_seq_advance by done.
    destruct (list_find _ _) as [[i w]|] eqn:E; cbn [snd].
    + apply list_find_Some in E as (Hi & _ & _).
      split; [cbn; destruct (Z.eqb_spec (s_next_seq st) 255); lia|].
      split; [cbn [s_wait]; by rewrite length_alter|].
      cbn [s_wait]. intros j w' Hj Hu.
      destruct (decide (j = i)) as [->|Hne].
      * rewrite list_lookup_alter_eq, Hi in Hj. injection Hj as <-.
        cbn [set_seq w_seq]. done.
      * rewrite list_lookup_alter_ne in Hj by done. by apply (Hs j).
    + split; [cbn; destruct (Z.eqb_spec (s_next_seq st) 255); lia|]. by split.
  - unfold rpc_trans_free_waiter, upd_waiter, with_wait.
    split; [done|]. split; [cbn [s_wait]; by rewrite length_alter|].
    cbn [s_wait]. intros j w' Hj Hu.
    destruct (decide (j = k)) as [->|Hne].
    + rewrite list_lookup_alter_eq in Hj.
      destruct (s_wait st !! k) as [w|] eqn:E; [|done].
      injection Hj as <-. done.
    + rewrite list_lookup_alter_ne in Hj by done. by apply (Hs j).
Qed.

Lemma seqs_in_range_run (ops : list waiter_op) :
  forall st, seqs_in_range st -> seqs_in_range (run_ops ops st).
Proof.
  induction ops as [|op ops IH]; intros st H; [done|].
  cbn [run_ops fold_left]. apply IH. by apply seqs_in_range_step.
Qed.

(** X13. Sequence number 0 is never live: after any interleaving of
    allocation attempts and frees from the initial state, the counter and
    the sequence numbers of the slots in use are within [1..255], the next
    allocation hands out a number in that range, and no waiter is found for
    sequence 0, the number stream messages carry. *)
Theorem seq_zero_never_live (ops : list waiter_op) :
  let st := run_ops ops rpc_trans_init in
  seqs_in_range st
  /\ rpc_trans_find_waiter st 0 = None
  /\ forall s i, fst (alloc_attempt st) = Some (s, i) -> 1 <= s <= 255.
Proof.
  intros st.
  assert (H : seqs_in_range st) by apply seqs_in_range_run, seqs_in_range_init.
  split; [done|]. destruct H as (Hn & Hl & Hs). split.
  - unfold rpc_trans_find_waiter.
    destruct (find_waiter_from_cases 0 (s_wait st) 0 None)
      as [[-> _]|(k & w & _ & Hk & [Hu Hz] & _)]; [done|].
    specialize (Hs k w Hk Hu). lia.
  - intros s i. unfold alloc_attempt.
    destruct (list_find _ _) as [[j w]|]; [|done].
    cbn [fst]. intros [= <- _]. done.
Qed.

(** ** Waiter table: exhaustion *)

Lemma alloc_attempt_full (st : trans_state) :
  all_in_use st ->
  fst (alloc_attempt st) = None
  /\ s_wait (snd (alloc_attempt st)) = s_wait st.
Proof.
  intros Hfull. unfold alloc_attempt.
  destruct (list_find _ _) as [[i w]|] eqn:E; [|done].
  apply list_find_Some in E as (Hi & Hfree & _).
  unfold all_in_use in Hfull. rewrite Forall_lookup in Hfull.
  specialize (Hfull i w Hi). congruence.
Qed.

Lemma alloc_waiter_loop_full (W : world) (n : nat) :
  (forall st, all_in_use st -> all_in_use (W_on_delay W st)) ->
  forall st,
    all_in_use st ->
    exists st',
      alloc_waiter_loop W n st
        = ((RPC_ERROR, None), st', replicate n (Os_delay_ms 1))
      /\ all_in_use st'.
Proof.
  intros HW. induction n as [|n IH]; intros st Hfull; [by exists st|].
  cbn [alloc_waiter_loop replicate].
  destruct (alloc_attempt_full st Hfull) as [E1 E2].
  destruct (alloc_attempt st) as [[sw|] st1]; [done|]. cbn [snd] in E2.
  assert (H1 : all_in_use st1) by (unfold all_in_use; by rewrite E2).
  destruct (IH (W_on_delay W st1) (HW _ H1)) as (st' & -> & Hst').
  by exists st'.
Qed.

(** X14. All waiters busy: when every slot of the table is in use and stays
    so, [rpc_request] with valid arguments makes its 255 allocation
    attempts, sleeping 1 ms after each, then returns [RPC_ERROR]; nothing
    is sent and the caller's buffer and length are left alone. *)
Theorem request_table_full
        (W : world) (st : trans_state) (name : list Z)
        (args : option (list Z)) (args_len : Z)
        (rb : list Z) (cap : Z) (timeout_ms : Z) :
  (forall st, all_in_use st -> all_in_use (W_on_delay W st)) ->
  all_in_use st ->
  MIN_FUNC_NAME_LEN <= strlen name <= MAX_FUNC_NAME_LEN ->
  MAX_FUNC_ARGS_RESP_SIZE <= cap ->
  exists st',
    rpc_request W st (Some name) args args_len (Some rb) (Some cap)
                timeout_ms
      = Some (Request_result RPC_ERROR (Some rb) (Some cap) st'
                             (replicate 255 (Os_delay_ms 1)))
    /\ all_in_use st'.
Proof.
  intros HW Hfull Hname Hcap.
  unfold rpc_request, rpc_trans_request, rpc_trans_alloc_waiter.
  rewrite Z.gtb_ltb.
  rewrite (proj2 (Z.ltb_ge _ _) (proj1 Hname)),
          (proj2 (Z.ltb_ge _ _) (proj2 Hname)),
          (proj2 (Z.ltb_ge _ _) Hcap).
  cbn [orb].
  destruct (alloc_waiter_loop_full W 255 HW st Hfull) as (st' & -> & Hst').
  by exists st'.
Qed.

(** A table of eight busy waiters in the quiet world. *)
Lemma request_table_full_witness :
  exists st',
    rpc_request quiet_world
      (Trans (replicate 8 (Waiter 1 false 0 None None 0 true)) 9 [] [])
      (Some ping_name) None 0 (Some (replicate 64 0)) (Some 64) 50
      = Some (Request_result RPC_ERROR (Some (replicate 64 0)) (Some 64) st'
                             (replicate 255 (Os_delay_ms 1)))
    /\ all_in_use st'.
Proof.
  apply (request_table_full quiet_world
           (Trans (replicate 8 (Waiter 1 false 0 None None 0 true)) 9 [] [])
           ping_name None 0 (replicate 64 0) 64 50).
  - intros st H. exact H.
  - unfold all_in_use. cbn [s_wait].
    repeat (apply List.Forall_cons; [reflexivity|]). apply List.Forall_nil.
  - by vm_compute.
  - by vm_compute.
Defined.

(** ** The request path: the slot is given back *)

Lemma flags_upd (i : nat) (f : waiter_t -> waiter_t) (st : trans_state) :
  (forall w, w_in_use (f w) = w_in_use w) ->
  flags (upd_waiter i f st) = flags st.
Proof.
  intros Hf. unfold flags, upd_waiter, with_wait. cbn [s_wait].
  apply list_eq. intros j. rewrite !list_lookup_fmap.
  destruct (decide (j = i)) as [->|Hne].
  - rewrite list_lookup_alter_eq. destruct (s_wait st !! i); [|done].
    cbn. by rewrite Hf.
  - by rewrite list_lookup_alter_ne.
Qed.

Lemma flags_set_in_use (i : nat) (b : bool) (st : trans_state) :
  flags (upd_waiter i (set_in_use b) st) = <[i := b]> (flags st).
Proof.
  unfold flags, upd_waiter, with_wait. cbn [s_wait].
  apply list_eq. intros j. rewrite list_lookup_fmap.
  destruct (decide (j = i)) as [->|Hne].
  - rewrite list_lookup_alter_eq.
    destruct (s_wait st !! i) as [w|] eqn:E.
    + rewrite list_lookup_insert_eq; [done|].
      rewrite length_fmap. by eapply lookup_lt_Some.
    + cbn. symmetry. apply lookup_ge_None.
      rewrite length_insert, length_fmap. by apply lookup_ge_None.
  - rewrite list_lookup_alter_ne, list_lookup_insert_ne by done.
    by rewrite list_lookup_fmap.
Qed.

Lemma flags_alloc_attempt (st : trans_state) :
  match fst (alloc_attempt st) with
  | None => flags (snd (alloc_attempt st)) = flags st
  | Some (s, i) =>
      flags st !! i = Some false
      /\ flags (snd (alloc_attempt st)) = <[i := true]> (flags st)
  end.
Proof.
  unfold alloc_attempt.
  destruct (list_find _ _) as [[i w]|] eqn:E; cbn [fst snd]; [|done].
  apply list_find_Some in E as (Hi & Hfree & _).
  split; [unfold flags; by rewrite list_lookup_fmap, Hi; cbn; rewrite Hfree|].
  unfold flags. cbn [s_wait].
  rewrite (alter_as_insert _ _ _ _ Hi), list_fmap_insert. done.
Qed.

Lemma flags_alloc_waiter_loop (W : world) (n : nat) :
  (forall st, flags (W_on_delay W st) = flags st) ->
  forall st r st1 log,
    alloc_waiter_loop W n st = (r, st1, log) ->
    match snd r with
    | None => flags st1 = flags st
    | Some (s, i) =>
        flags st !! i = Some false /\ flags st1 = <[i := true]> (flags st)
    end.
Proof.
  intros HW. induction n as [|n IH]; intros st r st1 log E;
    cbn [alloc_waiter_loop] in E.
  - by injection E as <- <- _.
  - pose proof (flags_alloc_attempt st) as Hf.
    destruct (alloc_attempt st) as [[[s i]|] st0]; cbn [fst snd] in Hf.
    + by injection E as <- <- _.
    + destruct (alloc_waiter_loop W n (W_on_delay W st0))
        as [[r2 st2] log2] eqn:E2.
      injection E as <- <- _. apply IH in E2.
      rewrite HW, Hf in E2. exact E2.
Qed.

Lemma flags_finish (rc : Z) (i : nat) (st : trans_state) (log : list os_call)
      (r : request_result) :
  finish rc i st log = Some r -> flags (r_state r) = <[i := false]> (flags st).
Proof.
  intros (w & _ & ->)%finish_inv. cbn [r_state rpc_trans_free_waiter].
  apply flags_set_in_use.
Qed.

(** X15. [rpc_request] never keeps a waiter: whatever path the call takes
    (bad arguments, no free slot, build or send failure, timeout, answer),
    it returns, and the [in_use] flags of the table are then what they were
    before the call, provided the other threads hand back what they took
    in the meantime. *)
Theorem request_releases_waiter
        (W : world) (st : trans_state) (name args : option (list Z))
        (args_len : Z) (resp_buf : option (list Z)) (resp_len : option Z)
        (timeout_ms : Z) :
  world_wf W -> world_keeps_flags W -> args_readable args args_len ->
  exists r,
    rpc_request W st name args args_len resp_buf resp_len timeout_ms
      = Some r
    /\ flags (r_state r) = flags st.
Proof.
  intros HW [Hdelay Hwait] Hargs.
  destruct (rpc_trans_request_total W st name args args_len resp_buf resp_len
              timeout_ms HW Hargs) as [r Hr].
  exists r. split; [exact Hr|].
  unfold rpc_trans_request in Hr.
  destruct name as [nm|]; [|by injection Hr as <-].
  destruct (_ || _); [by injection Hr as <-|].
  destruct resp_buf as [rb|]; [|by injection Hr as <-].
  destruct resp_len as [cap|]; [|by injection Hr as <-].
  destruct (cap <? _); [by injection Hr as <-|].
  destruct (rpc_trans_alloc_waiter W st) as [[r0 st1] log1] eqn:Ha.
  apply (flags_alloc_waiter_loop W _ Hdelay) in Ha.
  destruct r0 as [rc0 [[seq i]|]]; cbn [snd] in Ha;
    [|by injection Hr as <-].
  destruct Ha as [Hfree Hf1].
  set (st2 := upd_waiter i _ st1) in Hr.
  assert (Hf2 : flags st2 = <[i := true]> (flags st)).
  { unfold st2. rewrite flags_upd; [done|]. by intros []. }
  assert (Hback : <[i := false]> (<[i := true]> (flags st)) = flags st).
  { rewrite list_insert_insert_eq. by apply list_insert_id. }
  destruct (rpc_trans_build_msg _ _ _ _ _ _ _) as [[len buf]|]; [|done].
  cbn [mbind option_bind] in Hr.
  destruct (len =? 0).
  { apply flags_finish in Hr. by rewrite Hr, Hf2. }
  unfold send_TransToLink in Hr.
  destruct (W_queue_send_ok W); cbn [negb] in Hr.
  2:{ apply flags_finish in Hr. by rewrite Hr, Hf2. }
  set (st3 := enqueue _ st2) in Hr.
  assert (Hf3 : flags st3 = <[i := true]> (flags st)) by exact Hf2.
  unfold await_response, sem_take in Hr. cbv zeta in Hr.
  set (t := if timeout_ms =? 0 then _ else _) in Hr.
  pose proof (Hwait i t st3) as Hf4. rewrite Hf3 in Hf4.
  destruct (s_wait (W_on_sem_wait W i t st3) !! i) as [w|]; [|done].
  cbn [mbind option_bind] in Hr.
  destruct (w_done w); cbn [negb mbind option_bind] in Hr.
  - destruct (s_wait (upd_waiter i (set_done false) _) !! i); [|done].
    cbn [mbind option_bind] in Hr.
    apply flags_finish in Hr. rewrite Hr, flags_upd, Hf4; [done|].
    by intros [].
  - apply flags_finish in Hr. by rewrite Hr, Hf4.
Qed.

Lemma quiet_world_keeps_flags : world_keeps_flags quiet_world.
Proof. by split. Qed.

Lemma request_releases_waiter_witness :
  exists r,
    rpc_request quiet_world rpc_trans_init (Some ping_name) None 0
                (Some (replicate 64 0)) (Some 64) 50 = Some r
    /\ flags (r_state r) = flags rpc_trans_init.
Proof.
  apply (request_releases_waiter quiet_world rpc_trans_init (Some ping_name)
           None 0 (Some (replicate 64 0)) (Some 64) 50
           quiet_world_wf quiet_world_keeps_flags no_args_readable).
Defined.

(** ** Incoming messages: what is left alone *)

Lemma keeps_refl (i : nat) (st : trans_state) : keeps i st st.
Proof.
  split; [done|]. split; [done|]. split; [done|].
  intros j. by destruct (s_wait st !! j).
Qed.

Lemma keeps_upd (i : nat) (f : waiter_t -> waiter_t) (st st1 : trans_state) :
  (forall w, w_in_use (f w) = w_in_use w /\ w_seq (f w) = w_seq w
             /\ w_resp_buf_cap (f w) = w_resp_buf_cap w) ->
  keeps i st st1 -> keeps i st (upd_waiter i f st1).
Proof.
  intros Hf (H1 & H2 & H3 & H4). unfold upd_waiter, with_wait.
  split; [done|]. split; [done|]. split; [done|].
  cbn [s_wait]. intros j. specialize (H4 j).
  destruct (decide (j = i)) as [->|Hne].
  - rewrite list_lookup_alter_eq.
    destruct (s_wait st !! i) as [w|], (s_wait st1 !! i) as [w1|]; try done.
    cbn. destruct (Hf w1) as (-> & -> & ->).
    destruct H4 as (? & ? & ? & _). done.
  - by rewrite list_lookup_alter_ne.
Qed.

Lemma exec_effect_keeps (i : nat) (e : effect) (st st1 st2 : trans_state) :
  effect_slot e = Some i -> keeps i st st1 ->
  exec_effect st1 e = Some st2 -> keeps i st st2.
Proof.
  intros He Hk. destruct e as [k src n|k v|k rc|k|req]; try done;
    injection He as ->; cbn [exec_effect].
  - destruct (s_wait st1 !! i) as [w|]; [|done]. cbn [mbind option_bind].
    destruct (w_resp_buf w) as [buf|]; [|done]. cbn [mbind option_bind].
    destruct (memcpy buf 0 src n) as [buf'|]; [|done].
    cbn [mbind option_bind]. intros [= <-]. by apply keeps_upd.
  - destruct (s_wait st1 !! i) as [w|]; [|done]. cbn [mbind option_bind].
    destruct (w_resp_len w) as [l|]; [|done]. cbn [mbind option_bind].
    intros [= <-]. by apply keeps_upd.
  - intros [= <-]. by apply keeps_upd.
  - intros [= <-]. by apply keeps_upd.
Qed.

Lemma exec_effects_keeps (i : nat) (es : list effect) :
  Forall (fun e => effect_slot e = Some i) es ->
  forall st st1 st2,
    keeps i st st1 -> exec_effects st1 es = Some st2 -> keeps i st st2.
Proof.
  induction 1 as [|e es He Hes IH]; intros st st1 st2 Hk;
    cbn [exec_effects]; [by intros [= <-]|].
  destruct (exec_effect st1 e) as [st1'|] eqn:E; [|done].
  cbn [mbind option_bind]. apply IH. by eapply exec_effect_keeps.
Qed.

Lemma completion_slot (i : nat) (w : waiter_t) (type : Z) (args : list Z)
      (alen : Z) :
  Forall (fun e => effect_slot e = Some i) (completion i w type args alen).
Proof.
  unfold completion.
  destruct (alen >? w_resp_buf_cap w),
    (non_null (w_resp_buf w) && (alen >? 0)),
    (non_null (w_resp_len w)); cbn [app];
    repeat (apply List.Forall_cons; [reflexivity|]); apply List.Forall_nil.
Qed.

Lemma find_waiter_Some_in_use (st : trans_state) (seq : Z) (i : nat) :
  rpc_trans_find_waiter st seq = Some i ->
  exists w, s_wait st !! i = Some w /\ waits_for seq w.
Proof.
  unfold rpc_trans_find_waiter.
  destruct (find_waiter_from_cases seq (s_wait st) 0 None)
    as [[-> _]|(k & w & -> & Hk & Hw & _)]; [done|].
  intros [= <-]. by exists w.
Qed.

Lemma find_waiter_None_intro (st : trans_state) (seq : Z) :
  (forall i w, s_wait st !! i = Some w -> ~ waits_for seq w) ->
  rpc_trans_find_waiter st seq = None.
Proof.
  intros Hno. unfold rpc_trans_find_waiter.
  destruct (find_waiter_from_cases seq (s_wait st) 0 None)
    as [[-> _]|(k & w & _ & Hk & Hw & _)]; [done|].
  by destruct (Hno k w Hk).
Qed.

(** X16. What one call of [rpc_trans_handle_incoming] leaves alone:
    whatever the payload, when the call returns, the allocation counter,
    the outgoing queue and, in every slot, the [in_use] flag, the sequence
    number and the capacity are unchanged; a slot that is not in use when
    the call is made is not written by it; and the requests queue either
    is unchanged or has gained one record without exceeding its depth. *)
Theorem handle_incoming_spares
        (st : trans_state) (p : option (list Z)) (n : Z)
        (st' : trans_state) (es : list effect) :
  rpc_trans_handle_incoming st p n = Some (st', es) ->
  s_next_seq st' = s_next_seq st
  /\ qTransToLink st' = qTransToLink st
  /\ flags st' = flags st
  /\ w_seq <$> s_wait st' = w_seq <$> s_wait st
  /\ w_resp_buf_cap <$> s_wait st' = w_resp_buf_cap <$> s_wait st
  /\ (forall j w, s_wait st !! j = Some w -> w_in_use w = false ->
                  s_wait st' !! j = Some w)
  /\ (qRpcRequests st' = qRpcRequests st
      \/ exists req,
           qRpcRequests st' = qRpcRequests st ++ [req]
           /\ Z.of_nat (length (qRpcRequests st')) <= Q_RPC_REQUEST_DEPTH).
Proof.
  unfold rpc_trans_handle_incoming.
  destruct (incoming_effects st p n) as [es0|] eqn:Ees; [|done].
  cbn [mbind option_bind].
  destruct (exec_effects st es0) as [st1|] eqn:Eex; [|done].
  cbn [mbind option_bind]. intros [= <- <-].
  assert (Hkeep : forall i w,
            s_wait st !! i = Some w -> w_in_use w = true ->
            keeps i st st1 ->
            s_next_seq st1 = s_next_seq st
            /\ qTransToLink st1 = qTransToLink st
            /\ flags st1 = flags st
            /\ w_seq <$> s_wait st1 = w_seq <$> s_wait st
            /\ w_resp_buf_cap <$> s_wait st1 = w_resp_buf_cap <$> s_wait st
            /\ (forall j w, s_wait st !! j = Some w -> w_in_use w = false ->
                            s_wait st1 !! j = Some w)
            /\ (qRpcRequests st1 = qRpcRequests st
                \/ exists req,
                     qRpcRequests st1 = qRpcRequests st ++ [req]
                     /\ Z.of_nat (length (qRpcRequests st1))
                        <= Q_RPC_REQUEST_DEPTH)).
  { intros i w Hi Hu (H1 & H2 & H3 & H4).
    split; [done|]. split; [done|].
    split; [|split; [|split; [|split]]].
    - apply list_eq. intros j. unfold flags. rewrite !list_lookup_fmap.
      specialize (H4 j).
      destruct (s_wait st !! j), (s_wait st1 !! j); try done.
      cbn. f_equal. tauto.
    - apply list_eq. intros j. rewrite !list_lookup_fmap.
      specialize (H4 j).
      destruct (s_wait st !! j), (s_wait st1 !! j); try done.
      cbn. f_equal. tauto.
    - apply list_eq. intros j. rewrite !list_lookup_fmap.
      specialize (H4 j).
      destruct (s_wait st !! j), (s_wait st1 !! j); try done.
      cbn. f_equal. tauto.
    - intros j wj Hj Hfree. specialize (H4 j). rewrite Hj in H4.
      destruct (s_wait st1 !! j) as [w1|]; [|done].
      destruct H4 as (_ & _ & _ & Hsame). f_equal. apply Hsame.
      intros ->. congruence.
    - by left. }
  assert (Hsame : es0 = [] ->
            s_next_seq st1 = s_next_seq st
            /\ qTransToLink st1 = qTransToLink st
            /\ flags st1 = flags st
            /\ w_seq <$> s_wait st1 = w_seq <$> s_wait st
            /\ w_resp_buf_cap <$> s_wait st1 = w_resp_buf_cap <$> s_wait st
            /\ (forall j w, s_wait st !! j = Some w -> w_in_use w = false ->
                            s_wait st1 !! j = Some w)
            /\ (qRpcRequests st1 = qRpcRequests st
                \/ exists req,
                     qRpcRequests st1 = qRpcRequests st ++ [req]
                     /\ Z.of_nat (length (qRpcRequests st1))
                        <= Q_RPC_REQUEST_DEPTH)).
  { intros ->. cbn [exec_effects] in Eex. injection Eex as <-.
    repeat (split; [done|]). by left. }
  unfold incoming_effects in Ees.
  destruct (rpc_trans_parse_msg p n _) as [[rc o]|]; [|done].
  cbn [mbind option_bind] in Ees.
  destruct (negb (rc =? 0)); [injection Ees as <-; by apply Hsame|].
  destruct ((o_type o =? MSG_RESP) || (o_type o =? MSG_ERR)).
  - destruct (rpc_trans_find_waiter st (o_seq o)) as [i|] eqn:Ef;
      [|injection Ees as <-; by apply Hsame].
    apply find_waiter_Some_in_use in Ef as (w & Hi & [Hu _]).
    rewrite Hi in Ees. cbn [mbind option_bind] in Ees. injection Ees as <-.
    apply (Hkeep i w Hi Hu).
    eapply exec_effects_keeps; [apply completion_slot|apply keeps_refl|done].
  - destruct ((o_type o =? MSG_REQ) || (o_type o =? MSG_STREAM));
      [|injection Ees as <-; by apply Hsame].
    destruct (memcpy _ _ _ _) as [ra|]; [|done].
    cbn [mbind option_bind] in Ees. injection Ees as <-.
    cbn [exec_effects exec_effect] in Eex.
    destruct (_ <? _) eqn:Eq; cbn [mbind option_bind] in Eex;
      injection Eex as <-; cbn [s_next_seq qTransToLink qRpcRequests s_wait].
    + repeat (split; [done|]). right. eexists. split; [done|].
      apply Z.ltb_lt in Eq. rewrite length_app. cbn [length]. lia.
    + repeat (split; [done|]). by left.
Qed.

(** The response that completes the caller parked on slot 0. *)
Lemma handle_incoming_spares_witness :
  let st' := slot_set parked_state 0
               (Waiter 1 true RPC_SUCCESS (Some [7; 0]) (Some 1) 2 true) in
  s_next_seq st' = s_next_seq parked_state
  /\ qTransToLink st' = qTransToLink parked_state
  /\ flags st' = flags parked_state
  /\ w_seq <$> s_wait st' = w_seq <$> s_wait parked_state
  /\ w_resp_buf_cap <$> s_wait st' = w_resp_buf_cap <$> s_wait parked_state
  /\ (forall j w, s_wait parked_state !! j = Some w -> w_in_use w = false ->
                  s_wait st' !! j = Some w)
  /\ (qRpcRequests st' = qRpcRequests parked_state
      \/ exists req,
           qRpcRequests st' = qRpcRequests parked_state ++ [req]
           /\ Z.of_nat (length (qRpcRequests st')) <= Q_RPC_REQUEST_DEPTH).
Proof.
  apply (handle_incoming_spares parked_state (Some [22; 1; 112; 0; 7]) 5
           (slot_set parked_state 0
              (Waiter 1 true RPC_SUCCESS (Some [7; 0]) (Some 1) 2 true))
           [Wr_resp_buf 0 [7] 1; Wr_resp_len 0 1;
            Wr_result_code 0 RPC_SUCCESS; Sem_give 0]).
  vm_compute. reflexivity.
Defined.

(** ** Incoming messages: nobody waiting *)

(** X17. A payload that the parser rejects, and a response or error whose
    sequence number no waiter in use carries (a late or stray answer), are
    dropped: [rpc_trans_handle_incoming] writes nothing and the transport
    state is unchanged. *)
Theorem stray_message_dropped
        (st : trans_state) (p : list Z) (n : Z) (rc : Z) (o : parse_out) :
  rpc_trans_parse_msg (Some p) n (Parse_out 0 0 None None 0) = Some (rc, o) ->
  rc <> RPC_SUCCESS
  \/ ((o_type o = MSG_RESP \/ o_type o = MSG_ERR)
      /\ forall i w, s_wait st !! i = Some w -> ~ waits_for (o_seq o) w) ->
  rpc_trans_handle_incoming st (Some p) n = Some (st, []).
Proof.
  intros Hparse Hcase.
  unfold rpc_trans_handle_incoming, incoming_effects.
  rewrite Hparse. cbn [mbind option_bind].
  destruct Hcase as [Hrc|[Hty Hno]].
  - change 0 with RPC_SUCCESS. by rewrite (proj2 (Z.eqb_neq _ _) Hrc).
  - destruct (negb (rc =? 0)); [done|].
    assert (Hresp : ((o_type o =? MSG_RESP) || (o_type o =? MSG_ERR)) = true)
      by (destruct Hty as [-> | ->]; reflexivity).
    rewrite Hresp. by rewrite (find_waiter_None_intro _ _ Hno).
Qed.

(** A response with sequence 9 reaches a table whose only caller waits for
    sequence 1. *)
Lemma stray_message_dropped_witness :
  rpc_trans_handle_incoming parked_state (Some [22; 9; 112; 0; 7]) 5
    = Some (parked_state, []).
Proof.
  apply (stray_message_dropped parked_state [22; 9; 112; 0; 7] 5 RPC_SUCCESS
           (Parse_out 22 9 (Some 2) (Some 4) 1)).
  - reflexivity.
  - right. split; [by left|].
    intros i w Hi [Hu Hs]. cbn [o_seq] in Hs.
    unfold parked_state in Hi. cbn [s_wait] in Hi.
    destruct i as [|i].
    + injection Hi as <-. done.
    + unfold rpc_trans_init in Hi. cbn in Hi.
      change (replicate 7 (Waiter 0 false 0 None None 0 false) !! i = Some w)
        in Hi.
      apply lookup_replicate in Hi as [-> _]. done.
Defined.

(** ** Incoming messages: requests *)

Lemma strncpy_name (name rest : list Z) :
  Forall (fun c => c <> 0) name ->
  Z.of_nat (length name) <= MAX_FUNC_NAME_LEN ->
  strncpy (replicate (Z.to_nat (MAX_FUNC_NAME_LEN + 1)) 0)
          (name ++ 0 :: rest) (Z.to_nat MAX_FUNC_NAME_LEN)
    = name ++ replicate (Z.to_nat (MAX_FUNC_NAME_LEN + 1) - length name) 0.
Proof.
  change MAX_FUNC_NAME_LEN with 32. change (Z.to_nat (32 + 1)) with 33%nat.
  change (Z.to_nat 32) with 32%nat.
  intros Hname Hlen. unfold strncpy.
  rewrite (strlen_nat_terminated name rest Hname).
  rewrite take_app_length.
  rewrite take_app_ge by lia.
  rewrite take_replicate, drop_replicate, <- app_assoc, <- replicate_add.
  do 2 f_equal. lia.
Qed.

(** The record built for a well-formed REQ or STREAM message. *)
Lemma incoming_request_record
      (st : trans_state) (type seq : Z) (name body tl : list Z) :
  type = MSG_REQ \/ type = MSG_STREAM ->
  Forall (fun c => c <> 0) name ->
  MIN_FUNC_NAME_LEN <= Z.of_nat (length name) <= MAX_FUNC_NAME_LEN ->
  Z.of_nat (length body) <= MAX_FUNC_ARGS_RESP_SIZE ->
  incoming_effects st (Some (type :: seq :: name ++ 0 :: body ++ tl))
                   (3 + Z.of_nat (length name) + Z.of_nat (length body))
  = Some [Send_request (request_record type seq name body)].
Proof.
  intros Hty Hname Hnlen Hblen.
  set (p := type :: seq :: name ++ 0 :: body ++ tl).
  set (n := 3 + Z.of_nat (length name) + Z.of_nat (length body)).
  set (req := request_record type seq name body).
  assert (Hvt : valid_type type = true) by (by destruct Hty as [-> | ->]).
  destruct (parse_msg_layout type seq name body tl (Parse_out 0 0 None None 0)
              Hvt Hname Hnlen Hblen) as (Hparse & _).
  cbv zeta in Hparse. fold p n in Hparse.
  unfold incoming_effects.
  rewrite Hparse. cbn [mbind option_bind].
  change (negb (RPC_SUCCESS =? 0)) with false. cbv iota.
  cbn [o_type o_seq o_name o_args o_alen from_option id].
  assert (Hnot : ((type =? MSG_RESP) || (type =? MSG_ERR)) = false)
    by (by destruct Hty as [-> | ->]).
  assert (Hreq : ((type =? MSG_REQ) || (type =? MSG_STREAM)) = true)
    by (by destruct Hty as [-> | ->]).
  rewrite Hnot, Hreq.
  change MIN_FUNC_NAME_LEN with 1 in Hnlen.
  change MAX_FUNC_NAME_LEN with 32 in Hnlen.
  change MAX_FUNC_ARGS_RESP_SIZE with 64 in Hblen.
  assert (Hargs : drop (Z.to_nat (3 + Z.of_nat (length name))) p = body ++ tl).
  { unfold p.
    replace (Z.to_nat (3 + Z.of_nat (length name)))
      with (S (S (length name + 1))) by lia.
    cbn [drop skipn]. rewrite <- drop_drop, drop_app_length. done. }
  assert (Hnm : drop (Z.to_nat 2) p = name ++ 0 :: body ++ tl) by done.
  rewrite Hargs, Hnm.
  rewrite memcpy_Some;
    [|lia|lia|rewrite length_replicate; change MAX_FUNC_ARGS_RESP_SIZE with 64; lia
     |rewrite length_app; lia].
  cbn [mbind option_bind].
  rewrite strncpy_name by (done || (change MAX_FUNC_NAME_LEN with 32; lia)).
  assert (Hrec : Rpc_request type seq
                   (name ++ replicate (Z.to_nat (MAX_FUNC_NAME_LEN + 1)
                                       - length name) 0)
                   (take (Z.to_nat 0) (replicate (Z.to_nat MAX_FUNC_ARGS_RESP_SIZE) 0)
                    ++ take (Z.to_nat (Z.of_nat (length body))) (body ++ tl)
                    ++ drop (Z.to_nat (0 + Z.of_nat (length body)))
                            (replicate (Z.to_nat MAX_FUNC_ARGS_RESP_SIZE) 0))
                   (Z.of_nat (length body)) = req).
  { unfold req, request_record. f_equal.
    change (Z.to_nat 0) with 0%nat. rewrite take_0. cbn [app].
    rewrite Z.add_0_l, Nat2Z.id, take_app_length, drop_replicate. done. }
  by rewrite Hrec.
Qed.

(** X18. A request on arrival: a well-formed REQ or STREAM message makes
    [rpc_trans_handle_incoming] build one record with the type and the
    sequence number of the message, its name in a zeroed 33-byte array, its
    arguments in a zeroed 64-byte array and their length; the record is
    appended to the requests queue when fewer than [Q_RPC_REQUEST_DEPTH]
    are waiting and is dropped otherwise, and nothing else changes. *)
Theorem incoming_request_queued
        (st : trans_state) (type seq : Z) (name body tl : list Z) :
  type = MSG_REQ \/ type = MSG_STREAM ->
  Forall (fun c => c <> 0) name ->
  MIN_FUNC_NAME_LEN <= Z.of_nat (length name) <= MAX_FUNC_NAME_LEN ->
  Z.of_nat (length body) <= MAX_FUNC_ARGS_RESP_SIZE ->
  let p := type :: seq :: name ++ 0 :: body ++ tl in
  let n := 3 + Z.of_nat (length name) + Z.of_nat (length body) in
  let req := request_record type seq name body in
  rpc_trans_handle_incoming st (Some p) n
    = Some (if Z.of_nat (length (qRpcRequests st)) <? Q_RPC_REQUEST_DEPTH
            then Trans (s_wait st) (s_next_seq st) (qTransToLink st)
                       (qRpcRequests st ++ [req])
            else st,
            [Send_request req]).
Proof.
  intros Hty Hname Hnlen Hblen p n req.
  unfold rpc_trans_handle_incoming, p, n.
  rewrite (incoming_request_record st type seq name body tl Hty Hname Hnlen
             Hblen).
  fold req. cbn [mbind option_bind exec_effects exec_effect].
  by destruct (_ <? _).
Qed.

(** The ping request with three bytes of arguments reaches a fresh
    transport. *)
Lemma incoming_request_queued_witness :
  rpc_trans_handle_incoming rpc_trans_init
    (Some (MSG_REQ :: 5 :: ping_name ++ 0 :: [1; 2; 3] ++ [9; 9])) 10
  = Some (Trans (s_wait rpc_trans_init) 1 []
                [request_record MSG_REQ 5 ping_name [1; 2; 3]],
          [Send_request (request_record MSG_REQ 5 ping_name [1; 2; 3])]).
Proof.
  apply (incoming_request_queued rpc_trans_init MSG_REQ 5 ping_name
           [1; 2; 3] [9; 9]).
  - by left.
  - repeat (apply List.Forall_cons; [by vm_compute|]). apply List.Forall_nil.
  - by vm_compute.
  - by vm_compute.
Defined.

(** ** Worker *)

Lemma memcpy_src_prefix (dst : list Z) (off : Z) (src more : list Z) (n : Z) :
  n <= Z.of_nat (length src) ->
  memcpy dst off (src ++ more) n = memcpy dst off src n.
Proof.
  intros Hn. unfold memcpy.
  destruct (decide (0 <= off /\ 0 <= n /\ off + n <= Z.of_nat (length dst)
                    /\ n <= Z.of_nat (length src))) as [H|H].
  - rewrite decide_True by (rewrite length_app; lia).
    by rewrite take_app_le by lia.
  - rewrite decide_False; [done|]. rewrite length_app. lia.
Qed.

(** Only the characters of the name count, not what follows its
    terminator. *)
Lemma build_msg_name_padding (type seq : Z) (name rest : list Z)
      (args : option (list Z)) (alen : Z) (out : option (list Z)) (olen : Z) :
  Forall (fun c => c <> 0) name ->
  rpc_trans_build_msg type seq (Some (name ++ 0 :: rest)) args alen out olen
  = rpc_trans_build_msg type seq (Some name) args alen out olen.
Proof.
  intros Hname. unfold rpc_trans_build_msg.
  destruct out as [buf|]; [|done].
  unfold strlen. rewrite (strlen_nat_terminated name rest Hname).
  pose proof (strlen_no_nul name Hname) as E. unfold strlen in E.
  apply Nat2Z.inj in E. rewrite E.
  destruct (negb _); [done|]. destruct (_ || _); [done|].
  destruct (_ >? _); [done|]. destruct (_ || _); [done|].
  destruct (_ >? _); [done|].
  destruct (store buf 0 type) as [b1|]; [|done]. cbn [mbind option_bind].
  destruct (store b1 (0 + 1) seq) as [b2|]; [|done]. cbn [mbind option_bind].
  by rewrite memcpy_src_prefix by lia.
Qed.

Lemma strncmp_eq_padding (nm name rest : list Z) (n : nat) :
  strncmp_eq nm (name ++ 0 :: rest) n = strncmp_eq nm name n.
Proof.
  revert nm name. induction n as [|n IH]; intros nm name.
  - by destruct nm.
  - destruct nm as [|a nm], name as [|b name]; cbn [strncmp_eq app]; try done.
    + by destruct (a =? 0).
    + destruct (a =? b); [|done]. destruct (a =? 0); [done|]. apply IH.
Qed.

Lemma find_reg_padding (R : registry) (name rest : list Z) :
  find_reg R (name ++ 0 :: rest) = find_reg R name.
Proof.
  unfold find_reg.
  assert (H : forall es i, find_reg_from es i (name ++ 0 :: rest)
                           = find_reg_from es i name); [|apply H].
  induction es as [|e es IH]; intros i; [done|].
  cbn [find_reg_from]. destruct (reg_name e) as [nm|]; [|done].
  cbn [mbind option_bind].
  rewrite strncmp_eq_padding. destruct (strncmp_eq _ _ _); [done|apply IH].
Qed.

(** The name array of a queued record is the name, its terminator and
    padding. *)
Lemma request_record_name (type seq : Z) (name body : list Z) :
  Z.of_nat (length name) <= MAX_FUNC_NAME_LEN ->
  req_name (request_record type seq name body)
  = name ++ 0 :: replicate (Z.to_nat MAX_FUNC_NAME_LEN - length name) 0.
Proof.
  intros H. unfold request_record. cbn [req_name].
  change MAX_FUNC_NAME_LEN with 32 in H |- *.
  change (Z.to_nat (32 + 1)) with 33%nat. change (Z.to_nat 32) with 32%nat.
  replace (33 - length name)%nat with (S (32 - length name)) by lia.
  reflexivity.
Qed.

Section Worker.
Variable R : registry.
Variable W : world.
Variable out_uninit : list Z.
Variable st : trans_state.
Variables (seq : Z) (name body : list Z).

Hypothesis R_wf : registry_wf R.
Hypothesis lp_len : Z.of_nat (length (W_lp_uninit W)) = MAX_PAYLOAD_SIZE.
Hypothesis send_ok : W_queue_send_ok W = true.
Hypothesis name_chars : Forall (fun c => c <> 0) name.
Hypothesis name_len :
  MIN_FUNC_NAME_LEN <= Z.of_nat (length name) <= MAX_FUNC_NAME_LEN.

Abbreviation req := (request_record MSG_REQ seq name body).

(** The reply to a request, from the outcome of the handler call. *)
Lemma worker_serve_reply (idx rc : Z) (out : list Z) (olen : Z) :
  find_reg R name = Some idx ->
  call_handler R out_uninit req idx = Some (rc, out, olen) ->
  0 <= olen <= MAX_FUNC_ARGS_RESP_SIZE -> olen <= Z.of_nat (length out) ->
  let lp :=
    if rc =? RPC_SUCCESS
    then reply_message W MSG_RESP seq name (take (Z.to_nat olen) out)
    else reply_message W MSG_ERR seq name (emsg_of idx rc) in
  worker_serve R W out_uninit st req
    = Some (enqueue lp st,
            [Os_queue_send_TransToLink lp OS_WAIT_FOREVER true]).
Proof.
  intros Hidx Hcall Holen Hout lp. unfold worker_serve.
  rewrite request_record_name by lia. rewrite find_reg_padding, Hidx.
  cbn [mbind option_bind].
  rewrite <- (request_record_name MSG_REQ seq name body) by lia.
  rewrite Hcall. cbn [mbind option_bind].
  change (req_type req) with MSG_REQ. rewrite Z.eqb_refl.
  change (req_seq req) with seq.
  rewrite request_record_name by lia.
  rewrite !build_msg_name_padding by done.
  change MIN_FUNC_NAME_LEN with 1 in name_len.
  change MAX_FUNC_NAME_LEN with 32 in name_len.
  change MAX_FUNC_ARGS_RESP_SIZE with 64 in Holen.
  change MAX_PAYLOAD_SIZE with 99 in lp_len |- *.
  assert (Hbuild : forall ty bd,
            valid_type ty = true -> Z.of_nat (length bd) <= 64 ->
            rpc_trans_build_msg ty seq (Some name) (Some bd)
              (Z.of_nat (length bd)) (Some (W_lp_uninit W)) 99
            = Some (payload_len (reply_message W ty seq name bd),
                    Some (payload (reply_message W ty seq name bd)))).
  { intros ty bd Hty Hbd.
    rewrite (build_msg_layout ty seq name (Some bd) (Z.of_nat (length bd))
               (W_lp_uninit W) 99 Hty name_chars name_len);
      [| change MAX_FUNC_ARGS_RESP_SIZE with 64; lia
       | intros a [= <-]; lia | lia | lia].
    assert (Hc : copied_args (Some bd) (Z.of_nat (length bd)) = bd).
    { unfold copied_args. destruct (Z.of_nat (length bd) =? 0) eqn:E.
      - apply Z.eqb_eq in E. destruct bd; [done|cbn [length] in E; lia].
      - by rewrite Nat2Z.id, firstn_all. }
    by rewrite Hc. }
  assert (Hfin : forall ty bd,
            (if payload_len (reply_message W ty seq name bd) =? 0
             then Some (st, [])
             else
               let lp0 := Link_payload
                            (default [] (Some (payload (reply_message W ty seq name bd))))
                            (payload_len (reply_message W ty seq name bd)) in
               let '(_, st1, log) := send_TransToLink W lp0 st in
               Some (st1, log))
            = Some (enqueue (reply_message W ty seq name bd) st,
                    [Os_queue_send_TransToLink (reply_message W ty seq name bd)
                                               OS_WAIT_FOREVER true])).
  { intros ty bd. cbn [payload_len payload reply_message from_option id].
    rewrite (proj2 (Z.eqb_neq _ 0)) by lia.
    unfold send_TransToLink. by rewrite send_ok. }
  unfold lp. destruct (rc =? RPC_SUCCESS) eqn:Erc.
  - assert (Hl : Z.of_nat (length (take (Z.to_nat olen) out)) = olen)
      by (rewrite length_take; lia).
    pose proof (Hbuild MSG_RESP (take (Z.to_nat olen) out) eq_refl) as Hb.
    rewrite Hl in Hb.
    assert (Hpre : rpc_trans_build_msg MSG_RESP seq (Some name) (Some out)
                     olen (Some (W_lp_uninit W)) 99
                   = rpc_trans_build_msg MSG_RESP seq (Some name)
                       (Some (take (Z.to_nat olen) out)) olen
                       (Some (W_lp_uninit W)) 99).
    { rewrite <- (take_drop (Z.to_nat olen) out) at 1.
      unfold rpc_trans_build_msg.
      destruct (negb _); [done|]. destruct (_ || _); [done|].
      destruct (_ >? _); [done|]. destruct (_ || _); [done|].
      destruct (_ >? _); [done|].
      destruct (store _ 0 _) as [b1|]; [|done]. cbn [mbind option_bind].
      destruct (store b1 _ _) as [b2|]; [|done]. cbn [mbind option_bind].
      destruct (memcpy b2 _ _ _) as [b3|]; [|done]. cbn [mbind option_bind].
      destruct (store b3 _ _) as [b4|]; [|done]. cbn [mbind option_bind].
      destruct (olen =? 0); [done|].
      by rewrite memcpy_src_prefix by lia. }
    rewrite Hpre, Hb by lia. cbn [mbind option_bind]. apply Hfin.
  - set (em := emsg_of idx rc).
    assert (Hem : Z.of_nat (length em) <= 64
                  /\ u16 (strlen em) = Z.of_nat (length em)).
    { unfold em, emsg_of.
      destruct (idx <? 0); [by vm_compute|].
      destruct (rc =? RPC_ERROR_OVERFLOW); [by vm_compute|].
      destruct (rc =? RPC_ERROR_INVALID_ARGS); [by vm_compute|].
      destruct (rc =? RPC_ERROR_TIMEOUT); by vm_compute. }
    destruct Hem as [Hem1 Hem2]. rewrite Hem2.
    rewrite (Hbuild MSG_ERR em eq_refl Hem1). cbn [mbind option_bind].
    apply Hfin.
Qed.

End Worker.

Lemma find_reg_range (R : registry) (name : list Z) (idx : Z) :
  registry_wf R -> find_reg R name = Some idx ->
  idx = RPC_ERROR
  \/ (0 <= idx < s_reg_count R /\ is_Some (s_reg R !! Z.to_nat idx)).
Proof.
  intros HR E. pose proof (registered_length R HR) as Hes.
  destruct HR as [Hc Hl]. change NUM_REG_FUNC with 16 in Hc, Hl.
  destruct (find_reg_from_range _ name 0 idx ltac:(lia) E) as [?|Hr];
    [by left|].
  right. rewrite Hes in Hr. split; [lia|].
  apply lookup_lt_is_Some_2. lia.
Qed.

Lemma call_handler_total (R : registry) (out_uninit : list Z)
      (req : rpc_request_t) (name : list Z) (idx : Z) :
  registry_wf R -> find_reg R name = Some idx ->
  exists rc out olen,
    call_handler R out_uninit req idx = Some (rc, out, olen).
Proof.
  intros HR E. unfold call_handler.
  destruct (find_reg_range R name idx HR E) as [->|[Hr [e He]]].
  - by eexists _, _, _.
  - rewrite (proj2 (Z.geb_le _ _)) by lia. rewrite He.
    cbn [mbind option_bind].
    destruct (reg_fn e) as [fn|]; [|by eexists _, _, _].
    destruct (fn _ _ _ _ _ _) as [[rc out] olen].
    destruct (_ >? _); by eexists _, _, _.
Qed.

(** X19. An unknown function: when [find_reg] returns [RPC_ERROR] for
    the name of a request (every registered name compares different), the
    worker calls nothing and queues for the link one ERR message with the
    sequence number and the name of the request and the text NOFUNC. *)
Theorem worker_unknown_function
        (R : registry) (W : world) (out_uninit : list Z) (st : trans_state)
        (seq : Z) (name body : list Z) :
  Z.of_nat (length (W_lp_uninit W)) = MAX_PAYLOAD_SIZE ->
  W_queue_send_ok W = true ->
  Forall (fun c => c <> 0) name ->
  MIN_FUNC_NAME_LEN <= Z.of_nat (length name) <= MAX_FUNC_NAME_LEN ->
  find_reg R name = Some RPC_ERROR ->
  let lp := reply_message W MSG_ERR seq name [78; 79; 70; 85; 78; 67] in
  worker_serve R W out_uninit st (request_record MSG_REQ seq name body)
    = Some (enqueue lp st,
            [Os_queue_send_TransToLink lp OS_WAIT_FOREVER true]).
Proof.
  intros Hlp Hsend Hchars Hlen Hmiss lp.
  rewrite (worker_serve_reply R W out_uninit st seq name body Hlp Hsend
             Hchars Hlen RPC_ERROR RPC_ERROR out_uninit 0).
  - done.
  - done.
  - done.
  - by vm_compute.
  - lia.
Qed.

Lemma worker_unknown_function_witness :
  worker_serve registry_init quiet_world (replicate 64 0) rpc_trans_init
               (request_record MSG_REQ 5 ping_name [])
  = Some (enqueue (reply_message quiet_world MSG_ERR 5 ping_name
                                 [78; 79; 70; 85; 78; 67]) rpc_trans_init,
          [Os_queue_send_TransToLink
             (reply_message quiet_world MSG_ERR 5 ping_name
                            [78; 79; 70; 85; 78; 67])
             OS_WAIT_FOREVER true]).
Proof.
  apply (worker_unknown_function registry_init quiet_world (replicate 64 0)
           rpc_trans_init 5 ping_name []).
  - reflexivity.
  - reflexivity.
  - repeat (apply List.Forall_cons; [by vm_compute|]). apply List.Forall_nil.
  - by vm_compute.
  - reflexivity.
Defined.

(** X20. The reply to a served request: when [find_reg] returns the index
    of an entry with a handler (so no entry before it has a null name), the
    worker calls it on the queued arguments with a 64-byte output array, an
    output length of 0 and the default handler timeout; if the handler
    returns [RPC_SUCCESS] and reports at most 64 bytes, the worker queues
    one RESP message with the sequence number and the name of the request
    and exactly the reported bytes; if it returns another code, one ERR
    message whose text is OVERFLOW, INVALID_ARGS, TIMEOUT or, for every
    other code, FAIL. *)
Theorem worker_reply
        (R : registry) (W : world) (out_uninit : list Z) (st : trans_state)
        (seq : Z) (name body : list Z)
        (idx : Z) (e : reg_entry_t) (fn : rpc_fn_t)
        (rc : Z) (out : list Z) (olen : Z) :
  Z.of_nat (length (W_lp_uninit W)) = MAX_PAYLOAD_SIZE ->
  W_queue_send_ok W = true ->
  Forall (fun c => c <> 0) name ->
  MIN_FUNC_NAME_LEN <= Z.of_nat (length name) <= MAX_FUNC_NAME_LEN ->
  find_reg R name = Some idx -> 0 <= idx ->
  s_reg R !! Z.to_nat idx = Some e -> reg_fn e = Some fn ->
  fn (Some (req_args (request_record MSG_REQ seq name body)))
     (Z.of_nat (length body)) out_uninit
     MAX_FUNC_ARGS_RESP_SIZE 0 HANDLER_TIMEOUT_MS_DEFAULT = (rc, out, olen) ->
  0 <= olen <= MAX_FUNC_ARGS_RESP_SIZE -> olen <= Z.of_nat (length out) ->
  let lp :=
    if rc =? RPC_SUCCESS
    then reply_message W MSG_RESP seq name (take (Z.to_nat olen) out)
    else reply_message W MSG_ERR seq name
           (if rc =? RPC_ERROR_OVERFLOW then [79; 86; 69; 82; 70; 76; 79; 87]
            else if rc =? RPC_ERROR_INVALID_ARGS
                 then [73; 78; 86; 65; 76; 73; 68; 95; 65; 82; 71; 83]
            else if rc =? RPC_ERROR_TIMEOUT then [84; 73; 77; 69; 79; 85; 84]
            else [70; 65; 73; 76]) in
  worker_serve R W out_uninit st (request_record MSG_REQ seq name body)
    = Some (enqueue lp st,
            [Os_queue_send_TransToLink lp OS_WAIT_FOREVER true]).
Proof.
  intros Hlp Hsend Hchars Hlen Hfind Hidx He Hfn Hcall Holen Hout lp.
  rewrite (worker_serve_reply R W out_uninit st seq name body Hlp Hsend
             Hchars Hlen idx rc out olen Hfind); [| |done..].
  - unfold lp, emsg_of. by rewrite (proj2 (Z.ltb_ge _ _) Hidx).
  - unfold call_handler. rewrite (proj2 (Z.geb_le _ _)) by lia.
    rewrite He. cbn [mbind option_bind]. rewrite Hfn.
    change (req_alen (request_record MSG_REQ seq name body))
      with (Z.of_nat (length body)).
    rewrite Hcall.
    assert (Hu : u16 olen = olen)
      by (unfold u16; apply Z.mod_small;
          change MAX_FUNC_ARGS_RESP_SIZE with 64 in Holen; lia).
    rewrite Hu, Z.gtb_ltb.
    by rewrite (proj2 (Z.ltb_ge _ _) (proj2 Holen)).
Qed.

(** The registry of the ping-pong example. *)
Lemma worker_reply_witness :
  let R := snd (register_fn registry_init (Some ping_name)
                            (Some handler_fn_ping)) in
  worker_serve R quiet_world (replicate 64 0) rpc_trans_init
               (request_record MSG_REQ 5 ping_name [])
  = Some (enqueue (reply_message quiet_world MSG_RESP 5 ping_name
                                 [112; 111; 110; 103]) rpc_trans_init,
          [Os_queue_send_TransToLink
             (reply_message quiet_world MSG_RESP 5 ping_name
                            [112; 111; 110; 103])
             OS_WAIT_FOREVER true]).
Proof.
  apply (worker_reply
           (snd (register_fn registry_init (Some ping_name)
                             (Some handler_fn_ping)))
           quiet_world (replicate 64 0) rpc_trans_init 5 ping_name []
           0 (Reg_entry (Some ping_name) (Some handler_fn_ping))
           handler_fn_ping RPC_SUCCESS
           ([112; 111; 110; 103] ++ replicate 60 0) 4).
  - reflexivity.
  - reflexivity.
  - repeat (apply List.Forall_cons; [by vm_compute|]). apply List.Forall_nil.
  - by vm_compute.
  - reflexivity.
  - lia.
  - reflexivity.
  - reflexivity.
  - reflexivity.
  - by vm_compute.
  - by vm_compute.
Defined.

(** X21. A handler that overstates its output: when [find_reg] returns the
    index of an entry (so no entry before it has a null name) whose handler
    reports more than the 64 bytes of the output array, the worker replies
    with one ERR message carrying the text OVERFLOW, whatever code the
    handler returned, and none of the output bytes. *)
Theorem worker_oversize_output
        (R : registry) (W : world) (out_uninit : list Z) (st : trans_state)
        (seq : Z) (name body : list Z)
        (idx : Z) (e : reg_entry_t) (fn : rpc_fn_t)
        (rc : Z) (out : list Z) (olen : Z) :
  Z.of_nat (length (W_lp_uninit W)) = MAX_PAYLOAD_SIZE ->
  W_queue_send_ok W = true ->
  Forall (fun c => c <> 0) name ->
  MIN_FUNC_NAME_LEN <= Z.of_nat (length name) <= MAX_FUNC_NAME_LEN ->
  find_reg R name = Some idx -> 0 <= idx ->
  s_reg R !! Z.to_nat idx = Some e -> reg_fn e = Some fn ->
  fn (Some (req_args (request_record MSG_REQ seq name body)))
     (Z.of_nat (length body)) out_uninit
     MAX_FUNC_ARGS_RESP_SIZE 0 HANDLER_TIMEOUT_MS_DEFAULT = (rc, out, olen) ->
  MAX_FUNC_ARGS_RESP_SIZE < olen < 65536 ->
  let lp := reply_message W MSG_ERR seq name
                          [79; 86; 69; 82; 70; 76; 79; 87] in
  worker_serve R W out_uninit st (request_record MSG_REQ seq name body)
    = Some (enqueue lp st,
            [Os_queue_send_TransToLink lp OS_WAIT_FOREVER true]).
Proof.
  intros Hlp Hsend Hchars Hlen Hfind Hidx He Hfn Hcall Holen lp.
  rewrite (worker_serve_reply R W out_uninit st seq name body Hlp Hsend
             Hchars Hlen idx RPC_ERROR_OVERFLOW out 0 Hfind).
  - unfold lp, emsg_of. by rewrite (proj2 (Z.ltb_ge _ _) Hidx).
  - unfold call_handler. rewrite (proj2 (Z.geb_le _ _)) by lia.
    rewrite He. cbn [mbind option_bind]. rewrite Hfn.
    change (req_alen (request_record MSG_REQ seq name body))
      with (Z.of_nat (length body)).
    rewrite Hcall.
    assert (Hu : u16 olen = olen)
      by (unfold u16; apply Z.mod_small;
          change MAX_FUNC_ARGS_RESP_SIZE with 64 in Holen; lia).
    rewrite Hu, Z.gtb_ltb.
    by rewrite (proj2 (Z.ltb_lt _ _) (proj1 Holen)).
  - by vm_compute.
  - lia.
Qed.

(** A handler that returns success and claims 65 bytes. *)
Lemma worker_oversize_output_witness :
  let liar : rpc_fn_t := fun _ _ out _ _ _ => (RPC_SUCCESS, out, 65) in
  let R := snd (register_fn registry_init (Some ping_name) (Some liar)) in
  worker_serve R quiet_world (replicate 64 0) rpc_trans_init
               (request_record MSG_REQ 5 ping_name [])
  = Some (enqueue (reply_message quiet_world MSG_ERR 5 ping_name
                                 [79; 86; 69; 82; 70; 76; 79; 87])
                  rpc_trans_init,
          [Os_queue_send_TransToLink
             (reply_message quiet_world MSG_ERR 5 ping_name
                            [79; 86; 69; 82; 70; 76; 79; 87])
             OS_WAIT_FOREVER true]).
Proof.
  apply (worker_oversize_output
           (snd (register_fn registry_init (Some ping_name)
                   (Some (fun _ _ out _ _ _ => (RPC_SUCCESS, out, 65)))))
           quiet_world (replicate 64 0) rpc_trans_init 5 ping_name []
           0 (Reg_entry (Some ping_name)
                        (Some (fun _ _ out _ _ _ => (RPC_SUCCESS, out, 65))))
           (fun _ _ out _ _ _ => (RPC_SUCCESS, out, 65)) RPC_SUCCESS
           (replicate 64 0) 65).
  - reflexivity.
  - reflexivity.
  - repeat (apply List.Forall_cons; [by vm_compute|]). apply List.Forall_nil.
  - by vm_compute.
  - reflexivity.
  - lia.
  - reflexivity.
  - reflexivity.
  - reflexivity.
  - by vm_compute.
Defined.

(** X22. Streams are not answered: when no handler has been registered
    under a null name, for a queued STREAM record the worker turn returns
    with the transport state as it was, having queued nothing for the link
    and made no OS call, whether or not a handler is registered for the
    name and whatever that handler returns. *)
Theorem worker_stream_silent
        (R : registry) (W : world) (out_uninit : list Z) (st : trans_state)
        (seq : Z) (name body : list Z) :
  registry_wf R -> registry_named R ->
  worker_serve R W out_uninit st (request_record MSG_STREAM seq name body)
    = Some (st, []).
Proof.
  intros HR HN. unfold worker_serve.
  destruct (find_reg_returns R
              (req_name (request_record MSG_STREAM seq name body)) HR HN)
    as [idx Hidx].
  rewrite Hidx. cbn [mbind option_bind].
  destruct (call_handler_total R out_uninit
              (request_record MSG_STREAM seq name body)
              (req_name (request_record MSG_STREAM seq name body)) idx HR
              Hidx)
    as (rc & out & olen & ->).
  done.
Qed.

Lemma worker_stream_silent_witness :
  worker_serve (snd (register_fn registry_init (Some ping_name)
                                 (Some handler_fn_ping)))
               quiet_world (replicate 64 0) rpc_trans_init
               (request_record MSG_STREAM 0 ping_name [1; 2])
  = Some (rpc_trans_init, []).
Proof.
  apply (worker_stream_silent
           (snd (register_fn registry_init (Some ping_name)
                             (Some handler_fn_ping)))
           quiet_world (replicate 64 0) rpc_trans_init 0 ping_name [1; 2]).
  - split; by vm_compute.
  - intros i [Hi (e & He & Hn)].
    assert (i = 0) as -> by (change (0 <= i < 1) in Hi; lia).
    injection He as <-. discriminate Hn.
Defined.

(** ** Answers *)

Lemma find_waiter_unique (st : trans_state) (seq : Z) (i : nat) (w : waiter_t) :
  s_wait st !! i = Some w -> waits_for seq w ->
  (forall j w', j <> i -> s_wait st !! j = Some w' -> ~ waits_for seq w') ->
  rpc_trans_find_waiter st seq = Some i.
Proof.
  intros Hi Hw Hothers. unfold rpc_trans_find_waiter.
  destruct (find_waiter_from_cases seq (s_wait st) 0 None)
    as [[_ Hno]|(k & w' & -> & Hk & Hw' & _)].
  - by destruct (Hno i w Hi).
  - cbn [Nat.add]. f_equal. destruct (decide (k = i)) as [|Hne]; [done|].
    by destruct (Hothers k w' Hne Hk).
Qed.

(** A well-formed RESP or ERR message for the one waiter of its sequence
    number, whose buffer holds the body. *)
Lemma handle_incoming_answer
      (st : trans_state) (i : nat) (w : waiter_t)
      (type seq : Z) (name body tl rb : list Z) (rl : Z) :
  s_wait st !! i = Some w ->
  rpc_trans_find_waiter st seq = Some i ->
  type = MSG_RESP \/ type = MSG_ERR ->
  Forall (fun c => c <> 0) name ->
  MIN_FUNC_NAME_LEN <= Z.of_nat (length name) <= MAX_FUNC_NAME_LEN ->
  Z.of_nat (length body) <= MAX_FUNC_ARGS_RESP_SIZE ->
  w_resp_buf w = Some rb -> w_resp_len w = Some rl ->
  Z.of_nat (length body) <= w_resp_buf_cap w <= Z.of_nat (length rb) ->
  exists es,
    rpc_trans_handle_incoming st
      (Some (type :: seq :: name ++ 0 :: body ++ tl))
      (3 + Z.of_nat (length name) + Z.of_nat (length body))
    = Some (slot_set st i
              (Waiter (w_seq w) true (answer_code type)
                      (Some (body ++ drop (length body) rb))
                      (Some (Z.of_nat (length body)))
                      (w_resp_buf_cap w) (w_in_use w)),
            es).
Proof.
  intros Hi Hfind Hty Hname Hnlen Hblen Hrb Hrl Hcap.
  assert (Hvt : valid_type type = true) by (by destruct Hty as [-> | ->]).
  destruct (parse_msg_layout type seq name body tl (Parse_out 0 0 None None 0)
              Hvt Hname Hnlen Hblen) as (Hparse & _).
  cbv zeta in Hparse.
  unfold rpc_trans_handle_incoming, incoming_effects.
  rewrite Hparse. cbn [mbind option_bind].
  change (negb (RPC_SUCCESS =? 0)) with false. cbv iota.
  cbn [o_type o_seq o_name o_args o_alen from_option id].
  assert (Hresp : ((type =? MSG_RESP) || (type =? MSG_ERR)) = true)
    by (by destruct Hty as [-> | ->]).
  rewrite Hresp, Hfind, Hi. cbn [mbind option_bind].
  change MIN_FUNC_NAME_LEN with 1 in Hnlen.
  change MAX_FUNC_NAME_LEN with 32 in Hnlen.
  change MAX_FUNC_ARGS_RESP_SIZE with 64 in Hblen.
  assert (Hargs : drop (Z.to_nat (3 + Z.of_nat (length name)))
                       (type :: seq :: name ++ 0 :: body ++ tl) = body ++ tl).
  { replace (Z.to_nat (3 + Z.of_nat (length name)))
      with (S (S (length name + 1))) by lia.
    cbn [drop skipn]. rewrite <- drop_drop, drop_app_length. done. }
  rewrite Hargs. unfold completion.
  rewrite Z.gtb_ltb, (proj2 (Z.ltb_ge _ _) (proj1 Hcap)).
  rewrite Hrb, Hrl. cbn [non_null andb].
  fold (answer_code type).
  assert (Hu16 : u16 (Z.of_nat (length body)) = Z.of_nat (length body))
    by (unfold u16; apply Z.mod_small; lia).
  destruct (Z.of_nat (length body) >? 0) eqn:Hpos; cbn [app exec_effects].
  - erewrite (exec_resp_buf st i);
      [|by left|exact Hi|exact Hrb|lia|rewrite length_app; lia].
    cbn [mbind option_bind].
    erewrite (exec_resp_len st i);
      [|right; by eexists|by eapply slot_set_lookup|exact Hrl].
    cbn [mbind option_bind].
    erewrite (exec_result_code st i);
      [|right; by eexists|by eapply slot_set_lookup].
    cbn [mbind option_bind].
    erewrite (exec_sem_give st i);
      [|right; by eexists|by eapply slot_set_lookup].
    cbn [mbind option_bind].
    unfold set_done, set_resp_len, set_result_code, set_resp_buf.
    cbn [w_seq w_done w_result_code w_resp_buf w_resp_len w_resp_buf_cap
         w_in_use].
    rewrite Hu16, Nat2Z.id, take_app_length. by eexists.
  - rewrite Z.gtb_ltb in Hpos. apply Z.ltb_ge in Hpos.
    assert (Hz : body = []) by (destruct body; [done|cbn [length] in Hpos; lia]).
    subst body. cbn [length] in *.
    erewrite (exec_resp_len st i); [|by left|exact Hi|exact Hrl].
    cbn [mbind option_bind].
    erewrite (exec_result_code st i);
      [|right; by eexists|by eapply slot_set_lookup].
    cbn [mbind option_bind].
    erewrite (exec_sem_give st i);
      [|right; by eexists|by eapply slot_set_lookup].
    cbn [mbind option_bind].
    unfold set_done, set_resp_len, set_result_code.
    cbn [w_seq w_done w_result_code w_resp_buf w_resp_len w_resp_buf_cap
         w_in_use].
    rewrite Hrb. change (u16 (Z.of_nat 0)) with 0. cbn [app drop skipn Z.of_nat].
    by eexists.
Qed.

(** ** The request path up to the wait *)

Lemma alloc_attempt_first_free (st : trans_state) :
  (exists k wk, s_wait st !! k = Some wk /\ w_in_use wk = false) ->
  exists i w0,
    s_wait st !! i = Some w0 /\ w_in_use w0 = false
    /\ alloc_attempt st
       = (Some (s_next_seq st, i),
          Trans (<[i := set_seq (s_next_seq st) (set_in_use true w0)]>
                   (s_wait st))
                (let next := u8 (s_next_seq st + 1) in
                 if next =? 0 then 1 else next)
                (qTransToLink st) (qRpcRequests st)).
Proof.
  intros (k & wk & Hk & Hfree). unfold alloc_attempt.
  destruct (list_find _ _) as [[i w0]|] eqn:E.
  - apply list_find_Some in E as (Hi & Hf & _).
    exists i, w0. split; [done|]. split; [done|].
    by rewrite (alter_as_insert _ _ _ _ Hi).
  - apply list_find_None in E. rewrite Forall_lookup in E.
    by destruct (E k wk Hk).
Qed.

(** With valid arguments and a free slot, [rpc_trans_request] takes the
    first free slot, records the caller's buffer, queues the request and
    goes to wait on the slot. *)
Lemma request_reaches_wait
      (W : world) (st : trans_state) (name : list Z)
      (args : option (list Z)) (args_len : Z) (rb : list Z) (cap : Z)
      (timeout_ms : Z) :
  Z.of_nat (length (W_lp_uninit W)) = MAX_PAYLOAD_SIZE ->
  W_queue_send_ok W = true ->
  Forall (fun c => c <> 0) name ->
  MIN_FUNC_NAME_LEN <= Z.of_nat (length name) <= MAX_FUNC_NAME_LEN ->
  args_readable args args_len -> args_len <= MAX_FUNC_ARGS_RESP_SIZE ->
  MAX_FUNC_ARGS_RESP_SIZE <= cap ->
  (exists k wk, s_wait st !! k = Some wk /\ w_in_use wk = false) ->
  exists i w0 next,
    s_wait st !! i = Some w0 /\ w_in_use w0 = false
    /\ let lp := reply_message W MSG_REQ (s_next_seq st) name
                               (copied_args args args_len) in
       let w2 := Waiter (s_next_seq st) (w_done w0) (w_result_code w0)
                        (Some rb) (Some cap) cap true in
       let st3 := Trans (<[i := w2]> (s_wait st)) next
                        (qTransToLink st ++ [lp]) (qRpcRequests st) in
       rpc_trans_request W st (Some name) args args_len (Some rb) (Some cap)
                         timeout_ms
       = await_response W i timeout_ms st3
           ([] ++ [Os_queue_send_TransToLink lp OS_WAIT_FOREVER true]).
Proof.
  intros Hlp Hsend Hname Hnlen [Ha0 Hargs] Halen Hcap Hfree.
  destruct (alloc_attempt_first_free st Hfree) as (i & w0 & Hi & Hf & Ealloc).
  exists i, w0. eexists. split; [done|]. split; [done|]. cbv zeta.
  unfold rpc_trans_request, rpc_trans_alloc_waiter.
  rewrite (strlen_no_nul name Hname). rewrite Z.gtb_ltb.
  rewrite (proj2 (Z.ltb_ge _ _) (proj1 Hnlen)),
          (proj2 (Z.ltb_ge _ _) (proj2 Hnlen)),
          (proj2 (Z.ltb_ge _ _) Hcap).
  cbn [orb].
  change (alloc_waiter_loop W 255 st)
    with (match alloc_attempt st with
          | (Some sw, st1) => ((RPC_SUCCESS, Some sw), st1, [])
          | (None, st1) =>
              let '(r, st2, log) := alloc_waiter_loop W 254 (W_on_delay W st1) in
              (r, st2, Os_delay_ms 1 :: log)
          end).
  rewrite Ealloc.
  rewrite (build_msg_layout MSG_REQ (s_next_seq st) name args args_len
             (W_lp_uninit W) MAX_PAYLOAD_SIZE eq_refl Hname Hnlen
             (conj Ha0 Halen) Hargs);
    [| change MAX_PAYLOAD_SIZE with 99;
       change MAX_FUNC_NAME_LEN with 32 in Hnlen;
       change MAX_FUNC_ARGS_RESP_SIZE with 64 in Halen; lia
     | lia].
  cbn [mbind option_bind].
  rewrite (proj2 (Z.eqb_neq _ 0)) by lia.
  unfold send_TransToLink. rewrite Hsend. cbn [negb from_option id].
  unfold upd_waiter, with_wait, enqueue.
  cbn [s_wait s_next_seq qTransToLink qRpcRequests].
  rewrite (alter_as_insert _ _ i (set_seq (s_next_seq st) (set_in_use true w0)))
    by (apply list_lookup_insert_eq; by eapply lookup_lt_Some).
  rewrite list_insert_insert_eq.
  reflexivity.
Qed.

(** The wait when the semaphore has been given in the meantime. *)
Lemma await_given (W : world) (i : nat) (timeout_ms : Z) (st : trans_state)
      (log : list os_call) (w' : waiter_t) :
  let t := if timeout_ms =? 0 then REQ_TIMEOUT_MS_DEFAULT else timeout_ms in
  s_wait (W_on_sem_wait W i t st) !! i = Some w' -> w_done w' = true ->
  await_response W i timeout_ms st log
  = Some (Request_result (w_result_code w') (w_resp_buf w') (w_resp_len w')
            (rpc_trans_free_waiter
               (upd_waiter i (set_done false) (W_on_sem_wait W i t st))
               (Some i))
            (log ++ [Os_sem_take i t true])).
Proof.
  intros t Hw Hdone. unfold await_response, sem_take. cbv zeta. fold t.
  rewrite Hw. cbn [mbind option_bind]. rewrite Hdone.
  cbn [negb mbind option_bind].
  unfold finish, rpc_trans_free_waiter, upd_waiter, with_wait. cbn [s_wait].
  rewrite !list_lookup_alter_eq, Hw. cbn. reflexivity.
Qed.

(** The table while the caller waits, and the answer arriving. *)
Lemma answer_while_waiting
      (ws : list waiter_t) (next : Z) (q : list link_payload_t)
      (qr : list rpc_request_t) (i : nat) (w0 : waiter_t)
      (s : Z) (d : bool) (rc0 : Z) (rb : list Z) (cap : Z)
      (rty : Z) (rname rbody rtl : list Z) :
  ws !! i = Some w0 ->
  (forall j w, j <> i -> ws !! j = Some w -> ~ waits_for s w) ->
  rty = MSG_RESP \/ rty = MSG_ERR ->
  Forall (fun c => c <> 0) rname ->
  MIN_FUNC_NAME_LEN <= Z.of_nat (length rname) <= MAX_FUNC_NAME_LEN ->
  Z.of_nat (length rbody) <= MAX_FUNC_ARGS_RESP_SIZE ->
  MAX_FUNC_ARGS_RESP_SIZE <= cap <= Z.of_nat (length rb) ->
  let st3 := Trans (<[i := Waiter s d rc0 (Some rb) (Some cap) cap true]> ws)
                   next q qr in
  let w' := Waiter s true (answer_code rty)
                   (Some (rbody ++ drop (length rbody) rb))
                   (Some (Z.of_nat (length rbody))) cap true in
  ThreadTrans_turn st3
    (Link_payload (rty :: s :: rname ++ 0 :: rbody ++ rtl)
                  (3 + Z.of_nat (length rname) + Z.of_nat (length rbody)))
  = Some (Trans (<[i := w']> ws) next q qr).
Proof.
  intros Hi Hothers Hrty Hrname Hrnlen Hrblen Hcap st3 w'.
  assert (Hlt : (i < length ws)%nat) by (by eapply lookup_lt_Some).
  assert (Hi3 : s_wait st3 !! i
                = Some (Waiter s d rc0 (Some rb) (Some cap) cap true))
    by (by apply list_lookup_insert_eq).
  assert (Hfind : rpc_trans_find_waiter st3 s = Some i).
  { eapply find_waiter_unique; [exact Hi3|by split|].
    intros j w Hne Hj. cbn [st3 s_wait] in Hj.
    rewrite list_lookup_insert_ne in Hj by done. by apply (Hothers j). }
  unfold ThreadTrans_turn. cbn [payload payload_len].
  destruct (handle_incoming_answer st3 i _ rty s rname rbody rtl rb cap
              Hi3 Hfind Hrty Hrname Hrnlen Hrblen eq_refl eq_refl)
    as [es ->]; [cbn [w_resp_buf_cap]; lia|].
  cbn [fmap option_fmap option_map fst]. f_equal.
  unfold slot_set, with_wait, st3.
  cbn [s_wait s_next_seq qTransToLink qRpcRequests w_seq w_resp_buf_cap
       w_in_use].
  by rewrite list_insert_insert_eq.
Qed.



(** ** Two stacks back to back *)

Section BackToBack.
Variable lp_uninit tmp_uninit : list Z.
Hypothesis lp_uninit_len : length lp_uninit = Z.to_nat MAX_PAYLOAD_SIZE.
Hypothesis tmp_uninit_len :
  length tmp_uninit = Z.to_nat (MAX_PAYLOAD_SIZE + 1).

Lemma rx_run_feed_loop (wire : list Z) :
  forall P, rx_run lp_uninit tmp_uninit P wire
            = feed_loop lp_uninit tmp_uninit P wire.
Proof.
  induction wire as [|b bs IH]; intros P; [done|].
  cbn [rx_run Link.feed_loop]. unfold ThreadRX_turn.
  change (1 <? 0) with false. cbv iota.
  unfold rpc_link_feed_bytes. change (Z.to_nat 1) with 1%nat.
  cbn [take firstn Link.feed_loop].
  destruct (Link.feed_byte lp_uninit tmp_uninit P b) as [[P1 out1]|]; [|done].
  cbn [mbind option_bind]. rewrite app_nil_r, IH.
  by destruct (feed_loop lp_uninit tmp_uninit P1 bs) as [[P2 out2]|].
Qed.

(** A queued payload, framed by the TX thread and parsed by the RX thread
    of the other side, comes out with the same message in front. *)
Lemma across_the_wire (P : parser) (msg rest : list Z) :
  P_st P = ST_WAIT_SOF ->
  length (P_payload P) = Z.to_nat MAX_PAYLOAD_SIZE ->
  MIN_PAYLOAD_SIZE <= Z.of_nat (length msg) <= MAX_PAYLOAD_SIZE ->
  exists P' tl,
    rx_run lp_uninit tmp_uninit P
      (concat (snd (rpc_link_build_frame 0 (Some (msg ++ rest))
                                         (Z.of_nat (length msg)))))
    = Some (P', [Link_payload (msg ++ tl) (Z.of_nat (length msg))]).
Proof.
  intros Hst Hbuf Hlen.
  rewrite (build_frame_sends lp_uninit tmp_uninit lp_uninit_len
             tmp_uninit_len) by done.
  cbn [concat]. rewrite app_nil_r.
  rewrite <- frame_of_take, Nat2Z.id, take_app_length.
  rewrite rx_run_feed_loop.
  destruct (feed_frame lp_uninit tmp_uninit lp_uninit_len tmp_uninit_len
              P msg Hst Hbuf Hlen) as (P' & [buf len] & -> & _ & Hl & Hb).
  cbn [payload payload_len] in Hl, Hb. subst len.
  exists P', (drop (length msg) buf).
  do 4 f_equal.
  transitivity (take (length msg) buf ++ drop (length msg) buf);
    [by rewrite take_drop | by rewrite Hb].
Qed.

Lemma reply_message_split (W : world) (type seq : Z) (name body : list Z) :
  let msg := type :: seq :: name ++ 0 :: body in
  reply_message W type seq name body
  = Link_payload
      (msg ++ drop (Z.to_nat (3 + Z.of_nat (length name)
                              + Z.of_nat (length body))) (W_lp_uninit W))
      (Z.of_nat (length msg))
  /\ Z.of_nat (length msg)
     = 3 + Z.of_nat (length name) + Z.of_nat (length body).
Proof.
  cbv zeta. unfold reply_message. cbn [length app].
  rewrite length_app. cbn [length]. split; [|lia].
  f_equal; [|lia]. by rewrite <- app_assoc.
Qed.

Lemma call_handler_registered
      (R : registry) (out_uninit : list Z) (req : rpc_request_t)
      (idx : Z) (e : reg_entry_t) (fn : rpc_fn_t)
      (rc : Z) (out : list Z) (olen : Z) :
  0 <= idx ->
  s_reg R !! Z.to_nat idx = Some e -> reg_fn e = Some fn ->
  fn (Some (req_args req)) (req_alen req) out_uninit
     MAX_FUNC_ARGS_RESP_SIZE 0 HANDLER_TIMEOUT_MS_DEFAULT = (rc, out, olen) ->
  0 <= olen <= MAX_FUNC_ARGS_RESP_SIZE ->
  call_handler R out_uninit req idx = Some (rc, out, olen).
Proof.
  intros Hidx He Hfn Hcall Holen.
  unfold call_handler. rewrite (proj2 (Z.geb_le _ _)) by lia.
  rewrite He. cbn [mbind option_bind]. rewrite Hfn, Hcall.
  assert (Hu : u16 olen = olen)
    by (unfold u16; apply Z.mod_small;
        change MAX_FUNC_ARGS_RESP_SIZE with 64 in Holen; lia).
  rewrite Hu, Z.gtb_ltb.
  by rewrite (proj2 (Z.ltb_ge _ _) (proj2 Holen)).
Qed.

(** The server's side of the exchange: the framed request comes in, the
    framed RESP goes out. *)
Lemma serve_wire_reply
      (R : registry) (Ws : world) (out_uninit : list Z)
      (seq : Z) (name body rest : list Z)
      (idx : Z) (e : reg_entry_t) (fn : rpc_fn_t) (out : list Z) (olen : Z) :
  Z.of_nat (length (W_lp_uninit Ws)) = MAX_PAYLOAD_SIZE ->
  W_queue_send_ok Ws = true ->
  Forall (fun c => c <> 0) name ->
  MIN_FUNC_NAME_LEN <= Z.of_nat (length name) <= MAX_FUNC_NAME_LEN ->
  Z.of_nat (length body) <= MAX_FUNC_ARGS_RESP_SIZE ->
  find_reg R name = Some idx -> 0 <= idx ->
  s_reg R !! Z.to_nat idx = Some e -> reg_fn e = Some fn ->
  fn (Some (req_args (request_record MSG_REQ seq name body)))
     (Z.of_nat (length body)) out_uninit
     MAX_FUNC_ARGS_RESP_SIZE 0 HANDLER_TIMEOUT_MS_DEFAULT
    = (RPC_SUCCESS, out, olen) ->
  0 <= olen <= MAX_FUNC_ARGS_RESP_SIZE -> olen <= Z.of_nat (length out) ->
  let msg := MSG_REQ :: seq :: name ++ 0 :: body in
  let lp := reply_message Ws MSG_RESP seq name (take (Z.to_nat olen) out) in
  serve_wire R Ws out_uninit lp_uninit tmp_uninit
    (concat (snd (rpc_link_build_frame 0 (Some (msg ++ rest))
                                       (Z.of_nat (length msg)))))
  = Some (concat (snd (rpc_link_build_frame 0 (Some (payload lp))
                                            (payload_len lp)))).
Proof.
  intros Hlp Hsend Hname Hnlen Hblen Hfind Hidx He Hfn Hcall Holen Hout
         msg lp.
  assert (Hmsg : Z.of_nat (length msg)
                 = 3 + Z.of_nat (length name) + Z.of_nat (length body)).
  { unfold msg. cbn [length]. rewrite length_app. cbn [length]. lia. }
  assert (Hrange : MIN_PAYLOAD_SIZE <= Z.of_nat (length msg)
                   <= MAX_PAYLOAD_SIZE).
  { rewrite Hmsg. change MIN_PAYLOAD_SIZE with 4.
    change MAX_PAYLOAD_SIZE with 99.
    change MIN_FUNC_NAME_LEN with 1 in Hnlen.
    change MAX_FUNC_NAME_LEN with 32 in Hnlen.
    change MAX_FUNC_ARGS_RESP_SIZE with 64 in Hblen. lia. }
  unfold serve_wire, receive.
  destruct (across_the_wire rpc_link_init msg rest eq_refl eq_refl Hrange)
    as (P' & tl & ->).
  cbn [mbind option_bind trans_run]. unfold ThreadTrans_turn.
  cbn [payload payload_len]. rewrite Hmsg.
  replace (msg ++ tl) with (MSG_REQ :: seq :: name ++ 0 :: body ++ tl)
    by (unfold msg; cbn [app]; by rewrite <- app_assoc).
  unfold rpc_trans_handle_incoming.
  rewrite (incoming_request_record rpc_trans_init MSG_REQ seq name body tl
             (or_introl eq_refl) Hname Hnlen Hblen).
  cbn [mbind option_bind exec_effects exec_effect].
  change (Z.of_nat (length (qRpcRequests rpc_trans_init))
          <? Q_RPC_REQUEST_DEPTH) with true. cbv iota.
  cbn [fmap option_fmap option_map fst mbind option_bind].
  unfold ThreadRPCWorker_turn.
  cbn [qRpcRequests rpc_trans_init app s_wait s_next_seq qTransToLink].
  rewrite (worker_serve_reply R Ws out_uninit _ seq name body Hlp Hsend
             Hname Hnlen idx RPC_SUCCESS out olen Hfind); [| |done..].
  2:{ by apply (call_handler_registered R out_uninit _ idx e fn). }
  change (RPC_SUCCESS =? RPC_SUCCESS) with true. cbv iota.
  cbn [mbind option_bind]. unfold ThreadTX_turn, enqueue.
  cbn [qTransToLink app]. reflexivity.
Qed.

(** X24. A request served end to end: a client calls [rpc_request] for a
    name for which the server's [find_reg] returns the index of an entry
    with a handler (so no entry before it has a null name).  The request is
    framed by the client's TX thread, parsed by the server's RX thread,
    queued by its transport thread, served by a worker, and the reply makes
    the same way back while the caller waits.  If the handler returns
    [RPC_SUCCESS] with [olen] bytes of output, [rpc_request] returns
    [RPC_SUCCESS] with those bytes at the front of the caller's buffer and
    [olen] in [*resp_len]. *)
Theorem request_served
        (R : registry) (Ws Wc : world) (out_uninit : list Z)
        (st : trans_state) (name : list Z) (args : option (list Z))
        (args_len : Z) (rb : list Z) (cap : Z) (timeout_ms : Z)
        (idx : Z) (e : reg_entry_t) (fn : rpc_fn_t)
        (out : list Z) (olen : Z) :
  Z.of_nat (length (W_lp_uninit Ws)) = MAX_PAYLOAD_SIZE ->
  W_queue_send_ok Ws = true ->
  Z.of_nat (length (W_lp_uninit Wc)) = MAX_PAYLOAD_SIZE ->
  W_queue_send_ok Wc = true ->
  Forall (fun c => c <> 0) name ->
  MIN_FUNC_NAME_LEN <= Z.of_nat (length name) <= MAX_FUNC_NAME_LEN ->
  args_readable args args_len -> args_len <= MAX_FUNC_ARGS_RESP_SIZE ->
  MAX_FUNC_ARGS_RESP_SIZE <= cap <= Z.of_nat (length rb) ->
  (exists k wk, s_wait st !! k = Some wk /\ w_in_use wk = false) ->
  (forall j w, s_wait st !! j = Some w -> ~ waits_for (s_next_seq st) w) ->
  qTransToLink st = [] ->
  find_reg R name = Some idx -> 0 <= idx ->
  s_reg R !! Z.to_nat idx = Some e -> reg_fn e = Some fn ->
  let body := copied_args args args_len in
  fn (Some (req_args (request_record MSG_REQ (s_next_seq st) name body)))
     (Z.of_nat (length body)) out_uninit
     MAX_FUNC_ARGS_RESP_SIZE 0 HANDLER_TIMEOUT_MS_DEFAULT
    = (RPC_SUCCESS, out, olen) ->
  0 <= olen <= MAX_FUNC_ARGS_RESP_SIZE -> olen <= Z.of_nat (length out) ->
  exists r,
    rpc_request (served_world R Ws out_uninit lp_uninit tmp_uninit Wc) st
                (Some name) args args_len (Some rb) (Some cap) timeout_ms
      = Some r
    /\ r_rc r = RPC_SUCCESS
    /\ r_resp_len r = Some olen
    /\ r_resp_buf r
       = Some (take (Z.to_nat olen) out ++ drop (Z.to_nat olen) rb).
Proof.
  intros Hlps Hsends Hlpc Hsendc Hname Hnlen Hargs Halen Hcap Hfree Hfresh
         Hq Hfind Hidx He Hfn body Hcall Holen Hout.
  set (W := served_world R Ws out_uninit lp_uninit tmp_uninit Wc).
  destruct (request_reaches_wait W st name args args_len rb cap timeout_ms
              Hlpc Hsendc Hname Hnlen Hargs Halen (proj1 Hcap) Hfree)
    as (i & w0 & next & Hi & Hf & E).
  cbv zeta in E. unfold rpc_request. rewrite E. clear E.
  rewrite Hq. cbn [app].
  fold body.
  set (lp := reply_message W MSG_REQ (s_next_seq st) name body).
  set (w2 := Waiter (s_next_seq st) (w_done w0) (w_result_code w0)
                    (Some rb) (Some cap) cap true).
  set (st3 := Trans _ next [lp] _).
  set (t := if timeout_ms =? 0 then REQ_TIMEOUT_MS_DEFAULT else timeout_ms).
  assert (Hblen : Z.of_nat (length body) <= MAX_FUNC_ARGS_RESP_SIZE).
  { unfold body, copied_args. destruct args as [a|]; [|cbn [length]; unfold MAX_FUNC_ARGS_RESP_SIZE; lia].
    destruct (args_len =? 0); [cbn [length]; unfold MAX_FUNC_ARGS_RESP_SIZE; lia|].
    rewrite length_take. destruct Hargs as [? _]. lia. }
  set (rbody := take (Z.to_nat olen) out).
  assert (Hrl : Z.of_nat (length rbody) = olen)
    by (unfold rbody; rewrite length_take; lia).
  set (w' := Waiter (s_next_seq st) true (answer_code MSG_RESP)
                    (Some (rbody ++ drop (length rbody) rb))
                    (Some (Z.of_nat (length rbody))) cap true).
  assert (Hworld : W_on_sem_wait W i t st3
                   = Trans (<[i := w']> (s_wait st)) next [] (qRpcRequests st)).
  { unfold W, served_world. cbn [W_on_sem_wait].
    unfold ThreadTX_turn at 1. cbn [st3 qTransToLink s_wait s_next_seq qRpcRequests].
    destruct (reply_message_split W MSG_REQ (s_next_seq st) name body)
      as [Elp _]. cbv zeta in Elp. fold lp in Elp. rewrite Elp.
    cbn [payload payload_len].
    rewrite (serve_wire_reply R Ws out_uninit (s_next_seq st) name body
               (drop (Z.to_nat (3 + Z.of_nat (length name)
                                + Z.of_nat (length body))) (W_lp_uninit W))
               idx e fn out olen Hlps Hsends Hname Hnlen Hblen Hfind Hidx He
               Hfn Hcall Holen Hout).
    cbn [mbind option_bind]. fold rbody.
    destruct (reply_message_split Ws MSG_RESP (s_next_seq st) name rbody)
      as [Els Hlen2]. cbv zeta in Els, Hlen2. rewrite Els.
    cbn [payload payload_len].
    assert (Hrange : MIN_PAYLOAD_SIZE
                     <= Z.of_nat (length (MSG_RESP :: s_next_seq st
                                          :: name ++ 0 :: rbody))
                     <= MAX_PAYLOAD_SIZE).
    { rewrite Hlen2, Hrl. change MIN_PAYLOAD_SIZE with 4.
      change MAX_PAYLOAD_SIZE with 99.
      change MIN_FUNC_NAME_LEN with 1 in Hnlen.
      change MAX_FUNC_NAME_LEN with 32 in Hnlen.
      change MAX_FUNC_ARGS_RESP_SIZE with 64 in Holen. lia. }
    unfold receive.
    destruct (across_the_wire rpc_link_init
                (MSG_RESP :: s_next_seq st :: name ++ 0 :: rbody)
                (drop (Z.to_nat (3 + Z.of_nat (length name)
                                 + Z.of_nat (length rbody))) (W_lp_uninit Ws))
                eq_refl eq_refl Hrange) as (P' & tl & ->).
    cbn [mbind option_bind trans_run]. rewrite Hlen2.
    replace ((MSG_RESP :: s_next_seq st :: name ++ 0 :: rbody) ++ tl)
      with (MSG_RESP :: s_next_seq st :: name ++ 0 :: rbody ++ tl)
      by (cbn [app]; by rewrite <- app_assoc).
    unfold w2.
    rewrite (answer_while_waiting (s_wait st) next [] (qRpcRequests st) i w0
               (s_next_seq st) (w_done w0) (w_result_code w0) rb cap
               MSG_RESP name rbody tl Hi (fun j w _ Hj => Hfresh j w Hj)
               (or_introl eq_refl) Hname Hnlen);
      [|rewrite Hrl; lia|done].
    reflexivity. }
  assert (Hw : s_wait (W_on_sem_wait W i t st3) !! i = Some w').
  { rewrite Hworld. cbn [s_wait]. apply list_lookup_insert_eq.
    by eapply lookup_lt_Some. }
  rewrite (await_given W i timeout_ms st3 _ _ Hw eq_refl).
  eexists. split; [reflexivity|].
  cbn [r_rc r_resp_len r_resp_buf w' w_result_code w_resp_len w_resp_buf].
  split; [done|]. split; [by rewrite Hrl|].
  unfold rbody at 2. rewrite length_take.
  by replace (Z.to_nat olen `min` length out)%nat with (Z.to_nat olen) by lia.
Qed.

End BackToBack.

(** The ping-pong example: the server registers [handler_fn_ping] under
    the name ping, the client asks for ping with a 64-byte buffer. *)
Lemma request_served_witness :
  exists r,
    rpc_request
      (served_world
         (snd (register_fn registry_init (Some ping_name)
                           (Some handler_fn_ping)))
         quiet_world (replicate 64 0) (replicate 99 0) (replicate 100 0)
         quiet_world)
      rpc_trans_init (Some ping_name) None 0
      (Some (replicate 64 0)) (Some 64) 50
      = Some r
    /\ r_rc r = RPC_SUCCESS
    /\ r_resp_len r = Some 4
    /\ r_resp_buf r
       = Some (take (Z.to_nat 4) ([112; 111; 110; 103] ++ replicate 60 0)
               ++ drop (Z.to_nat 4) (replicate 64 0)).
Proof.
  apply (request_served (replicate 99 0) (replicate 100 0) eq_refl eq_refl
           (snd (register_fn registry_init (Some ping_name)
                             (Some handler_fn_ping)))
           quiet_world quiet_world (replicate 64 0) rpc_trans_init
           ping_name None 0 (replicate 64 0) 64 50
           0 (Reg_entry (Some ping_name) (Some handler_fn_ping))
           handler_fn_ping ([112; 111; 110; 103] ++ replicate 60 0) 4).
  - reflexivity.
  - reflexivity.
  - reflexivity.
  - reflexivity.
  - repeat (apply List.Forall_cons; [by vm_compute|]). apply List.Forall_nil.
  - by vm_compute.
  - exact no_args_readable.
  - by vm_compute.
  - by vm_compute.
  - exists 0%nat, (Waiter 0 false 0 None None 0 false). by split.
  - intros j w Hj [Hu _]. unfold rpc_trans_init in Hj. cbn [s_wait] in Hj.
    apply lookup_replicate in Hj as [-> _]. done.
  - reflexivity.
  - reflexivity.
  - lia.
  - reflexivity.
  - reflexivity.
  - reflexivity.
  - by vm_compute.
  - by vm_compute.
Defined.

(** ** Queues as sequences *)

Lemma ring_slot_memcpy_same (q : os_queue) (k : Z) (it buf : list Z) :
  0 <= q_item_size q -> 0 <= k ->
  memcpy (q_buf q) (k * q_item_size q) it (q_item_size q) = Some buf ->
  take (Z.to_nat (q_item_size q)) (drop (Z.to_nat (k * q_item_size q)) buf)
  = take (Z.to_nat (q_item_size q)) it.
Proof.
  intros Hsz Hk. unfold memcpy.
  destruct (decide _) as [(H1 & H2 & H3 & H4)|]; [|done].
  intros [= <-].
  rewrite drop_app_length'; [|rewrite length_take; lia].
  rewrite take_app_length'; [done|]. rewrite length_take. lia.
Qed.

Lemma ring_slot_memcpy_other (q : os_queue) (k j : Z) (it buf : list Z) :
  0 <= q_item_size q -> 0 <= k -> 0 <= j -> j <> k ->
  (j + 1) * q_item_size q <= Z.of_nat (length (q_buf q)) ->
  memcpy (q_buf q) (k * q_item_size q) it (q_item_size q) = Some buf ->
  take (Z.to_nat (q_item_size q)) (drop (Z.to_nat (j * q_item_size q)) buf)
  = take (Z.to_nat (q_item_size q))
         (drop (Z.to_nat (j * q_item_size q)) (q_buf q)).
Proof.
  intros Hsz Hk Hj Hne Hfit. unfold memcpy.
  destruct (decide _) as [(H1 & H2 & H3 & H4)|]; [|done].
  intros [= <-].
  set (sz := q_item_size q) in *. set (b := q_buf q) in *.
  apply list_eq. intros n.
  destruct (decide (n < Z.to_nat sz)%nat) as [Hn|Hn].
  2:{ rewrite !lookup_take_ge by lia. done. }
  rewrite !lookup_take_lt, !lookup_drop by done.
  destruct (decide (j < k)) as [Hlt|Hgt].
  - assert (j * sz + sz <= k * sz) by nia.
    rewrite lookup_app_l by (rewrite length_take; lia).
    by rewrite lookup_take_lt by lia.
  - assert (k * sz + sz <= j * sz) by nia.
    rewrite lookup_app_r by (rewrite length_take; lia).
    rewrite lookup_app_r by (rewrite !length_take; lia).
    rewrite lookup_drop, !length_take. f_equal. lia.
Qed.

Lemma wait_while_ready (blocked : os_queue -> bool)
      (wakes : list (option os_queue)) (timeout_ms : Z) (q : os_queue) :
  blocked q = false -> wait_while blocked wakes timeout_ms q = Some (true, q).
Proof. intros H. destruct wakes; cbn [wait_while]; by rewrite H. Qed.

Lemma wait_while_no_wait (blocked : os_queue -> bool)
      (wakes : list (option os_queue)) (q : os_queue) :
  blocked q = true -> wait_while blocked wakes 0 q = Some (false, q).
Proof. intros H. destruct wakes; cbn [wait_while]; by rewrite H. Qed.

Lemma ring_distinct (h c j cap : Z) :
  0 <= j < c -> c < cap -> (h + j) mod cap <> (h + c) mod cap.
Proof.
  intros Hj Hc Heq.
  assert (H : ((h + c) - (h + j)) mod cap = 0)
    by (rewrite Zminus_mod, Heq, Z.sub_diag; apply Z.mod_0_l; lia).
  replace (h + c - (h + j)) with (c - j) in H by lia.
  rewrite Z.mod_small in H by lia. lia.
Qed.

(** Sending to a queue with room. *)
Lemma queue_send_appends_core
      (wakes : list (option os_queue)) (q : os_queue) (it : list Z)
      (timeout_ms : Z) :
  queue_inv q -> q_item_size q <= Z.of_nat (length it) ->
  q_count q < q_capacity q ->
  exists q',
    os_queue_send wakes (Some q) (Some it) timeout_ms = Some (true, Some q')
    /\ queue_inv q'
    /\ queued q' = queued q ++ [take (Z.to_nat (q_item_size q)) it].
Proof.
  intros (Hcap & Hsz & Hprod & Hbuf & Hhead & Hcount & Htail) Hit Hroom.
  unfold os_queue_send.
  rewrite wait_while_ready by (apply Z.eqb_neq; lia).
  assert (Ht : 0 <= q_tail q < q_capacity q)
    by (rewrite Htail; apply Z.mod_pos_bound; lia).
  assert (Hoff : size_t_of (q_tail q * q_item_size q)
                 = q_tail q * q_item_size q)
    by (unfold size_t_of; apply Z.mod_small; nia).
  rewrite Hoff.
  destruct (memcpy (q_buf q) (q_tail q * q_item_size q) it (q_item_size q))
    as [buf|] eqn:Ecpy.
  2:{ unfold memcpy in Ecpy. rewrite decide_True in Ecpy by nia. done. }
  cbn [mbind option_bind]. eexists. split; [reflexivity|].
  pose proof (memcpy_length _ _ _ _ _ Ecpy) as Hlen.
  assert (Hst1 : size_t_of (q_tail q + 1) = q_tail q + 1)
    by (unfold size_t_of; apply Z.mod_small; lia).
  assert (Hst2 : size_t_of (q_count q + 1) = q_count q + 1)
    by (unfold size_t_of; apply Z.mod_small; lia).
  rewrite Hst1, Hst2. split.
  + unfold queue_inv. cbn [q_buf q_item_size q_capacity q_head q_tail q_count].
    rewrite Hlen. repeat (split; [lia|]).
    rewrite Htail, Z.add_mod_idemp_l by lia. f_equal. lia.
  + unfold queued. cbn [q_head q_count q_capacity].
    replace (Z.to_nat (q_count q + 1)) with (S (Z.to_nat (q_count q)))
      by lia.
    rewrite seq_S, fmap_app. cbn [fmap list_fmap Nat.add]. f_equal.
    * apply list_fmap_ext. intros n j Hj.
      apply lookup_seq in Hj as [-> Hj]. cbn [Nat.add].
      unfold ring_slot. cbn [q_item_size q_buf].
      assert (Hr : 0 <= (q_head q + Z.of_nat n) mod q_capacity q
                   < q_capacity q) by (apply Z.mod_pos_bound; lia).
      apply (ring_slot_memcpy_other q (q_tail q) _ it buf);
        [lia|lia|lia| |nia|done].
      rewrite Htail. apply ring_distinct; lia.
    * f_equal. unfold ring_slot. cbn [q_item_size q_buf].
      rewrite Z2Nat.id by lia. rewrite <- Htail.
      by apply (ring_slot_memcpy_same q (q_tail q) it buf); [lia|lia|].
Qed.

(** X25. Sending appends: on a queue with room, [os_queue_send] returns
    true without waiting, whatever the timeout, and the queue then holds the
    items it held, in the same order, followed by the [item_size] bytes of
    the new item; on a full queue with a timeout of 0 it returns false and
    leaves the queue as it is; with a null queue or item it returns
    false. *)
Theorem queue_send_appends
        (wakes : list (option os_queue)) (q : os_queue) (it : list Z)
        (timeout_ms : Z) :
  queue_inv q -> q_item_size q <= Z.of_nat (length it) ->
  (q_count q < q_capacity q ->
   exists q',
     os_queue_send wakes (Some q) (Some it) timeout_ms = Some (true, Some q')
     /\ queue_inv q'
     /\ queued q' = queued q ++ [take (Z.to_nat (q_item_size q)) it])
  /\ (q_count q = q_capacity q ->
      os_queue_send wakes (Some q) (Some it) 0 = Some (false, Some q))
  /\ os_queue_send wakes None (Some it) timeout_ms = Some (false, None)
  /\ os_queue_send wakes (Some q) None timeout_ms = Some (false, Some q).
Proof.
  intros Hinv Hit. split; [|split; [|done]].
  - by apply queue_send_appends_core.
  - intros Hfull. unfold os_queue_send.
    by rewrite wait_while_no_wait by (by apply Z.eqb_eq).
Qed.

(** X26. Receiving takes the oldest: on a queue that is not empty,
    [os_queue_recv] returns true without waiting, whatever the timeout,
    copies the oldest item into the first [item_size] bytes of the
    caller's buffer and leaves the other items in their order; on an empty
    queue with a timeout of 0 it returns false and changes nothing; with a
    null queue or buffer it returns false. *)
Theorem queue_recv_oldest
        (wakes : list (option os_queue)) (q : os_queue) (it : list Z)
        (timeout_ms : Z) :
  queue_inv q -> q_item_size q <= Z.of_nat (length it) ->
  (0 < q_count q ->
   exists q' it',
     os_queue_recv wakes (Some q) (Some it) timeout_ms
       = Some (true, Some q', Some it')
     /\ queue_inv q'
     /\ queued q = take (Z.to_nat (q_item_size q)) it' :: queued q'
     /\ drop (Z.to_nat (q_item_size q)) it'
        = drop (Z.to_nat (q_item_size q)) it)
  /\ (q_count q = 0 ->
      os_queue_recv wakes (Some q) (Some it) 0
        = Some (false, Some q, Some it))
  /\ os_queue_recv wakes None (Some it) timeout_ms
     = Some (false, None, Some it)
  /\ os_queue_recv wakes (Some q) None timeout_ms
     = Some (false, Some q, None).
Proof.
  intros (Hcap & Hsz & Hprod & Hbuf & Hhead & Hcount & Htail) Hit.
  split; [|split; [|done]].
  - intros Hsome. unfold os_queue_recv.
    rewrite wait_while_ready by (apply Z.eqb_neq; lia).
    assert (Hoff : size_t_of (q_head q * q_item_size q)
                   = q_head q * q_item_size q)
      by (unfold size_t_of; apply Z.mod_small; nia).
    rewrite Hoff.
    rewrite memcpy_Some; [|lia|lia|lia|rewrite length_drop; nia].
    cbn [mbind option_bind]. eexists _, _. split; [reflexivity|].
    change (Z.to_nat 0) with 0%nat. rewrite take_0. cbn [app].
    rewrite Z.add_0_l.
    assert (Hst1 : size_t_of (q_head q + 1) = q_head q + 1)
      by (unfold size_t_of; apply Z.mod_small; lia).
    assert (Hst2 : size_t_of (q_count q - 1) = q_count q - 1)
      by (unfold size_t_of; apply Z.mod_small; lia).
    rewrite Hst1, Hst2. split; [|split].
    + unfold queue_inv. cbn [q_buf q_item_size q_capacity q_head q_tail q_count].
      split; [lia|]. split; [lia|]. split; [lia|]. split; [lia|].
      split; [apply Z.mod_pos_bound; lia|]. split; [lia|].
      rewrite Htail, Z.add_mod_idemp_l by lia. f_equal. lia.
    + rewrite take_app_length' by (rewrite length_take, length_drop; nia).
      unfold queued. cbn [q_head q_count q_capacity].
      replace (Z.to_nat (q_count q)) with (S (Z.to_nat (q_count q - 1)))
        by lia.
      cbn [seq fmap list_fmap]. f_equal.
      * unfold ring_slot. rewrite Z.add_0_r, Z.mod_small by lia. done.
      * rewrite <- fmap_S_seq, <- list_fmap_compose.
        apply list_fmap_ext. intros n j Hj. cbn.
        unfold ring_slot. cbn [q_item_size q_buf].
        rewrite Z.add_mod_idemp_l by lia.
        by replace (q_head q + 1 + Z.of_nat j)
          with (q_head q + Z.of_nat (S j)) by lia.
    + rewrite drop_app_length' by (rewrite length_take, length_drop; nia).
      done.
  - intros Hempty. unfold os_queue_recv.
    by rewrite wait_while_no_wait by (by apply Z.eqb_eq).
Qed.

(** A queue of two items of two bytes, freshly created. *)
Lemma queue_send_appends_witness :
  exists q',
    os_queue_send [] (Some (Os_queue [0; 0; 0; 0] 2 2 0 0 0))
                  (Some [7; 8]) 5 = Some (true, Some q')
    /\ queue_inv q'
    /\ queued q' = queued (Os_queue [0; 0; 0; 0] 2 2 0 0 0)
                   ++ [take (Z.to_nat 2) [7; 8]].
Proof.
  destruct (queue_send_appends [] (Os_queue [0; 0; 0; 0] 2 2 0 0 0)
              [7; 8] 5) as (H & _).
  - unfold queue_inv. repeat split; by vm_compute.
  - cbn. lia.
  - apply H. cbn. lia.
Defined.

(** The same queue holding the items 7 8 and 9 10. *)
Lemma queue_recv_oldest_witness :
  exists q' it',
    os_queue_recv [] (Some (Os_queue [7; 8; 9; 10] 2 2 0 0 2))
                  (Some [0; 0]) 5 = Some (true, Some q', Some it')
    /\ queue_inv q'
    /\ queued (Os_queue [7; 8; 9; 10] 2 2 0 0 2)
       = take (Z.to_nat 2) it' :: queued q'
    /\ drop (Z.to_nat 2) it' = drop (Z.to_nat 2) [0; 0].
Proof.
  destruct (queue_recv_oldest [] (Os_queue [7; 8; 9; 10] 2 2 0 0 2)
              [0; 0] 5) as (H & _).
  - unfold queue_inv. repeat split; by vm_compute.
  - cbn. lia.
  - apply H. cbn. lia.
Defined.



(** ** The sequence counter *)

Lemma seq_counter_formula (ops : list waiter_op) (st : trans_state) :
  1 <= s_next_seq st <= 255 ->
  s_next_seq (run_ops ops st)
  = (s_next_seq st - 1 + Z.of_nat (attempts ops)) mod 255 + 1.
Proof.
  revert st. induction ops as [|op ops IH]; intros st Hs.
  - cbn [run_ops fold_left attempts Z.of_nat].
    rewrite Z.add_0_r, Z.mod_small by lia. lia.
  - cbn [run_ops fold_left]. fold (run_ops ops (waiter_step st op)).
    destruct op as [|k]; cbn [attempts].
    + assert (Hn : s_next_seq (waiter_step st Op_alloc)
                   = (s_next_seq st - 1 + 1) mod 255 + 1).
      { cbn [waiter_step]. unfold alloc_attempt.
        rewrite next_seq_advance by done.
        assert (E : (if s_next_seq st =? 255 then 1 else s_next_seq st + 1)
                    = (s_next_seq st - 1 + 1) mod 255 + 1).
        { destruct (Z.eqb_spec (s_next_seq st) 255) as [->|Hne]; [done|].
          rewrite Z.mod_small by lia. lia. }
        by destruct (list_find _ _) as [[i w]|]; cbn [snd s_next_seq]. }
      rewrite IH by (rewrite Hn; pose proof (Z.mod_pos_bound
                       (s_next_seq st - 1 + 1) 255 ltac:(lia)); lia).
      rewrite Hn. replace ((s_next_seq st - 1 + 1) mod 255 + 1 - 1)
        with ((s_next_seq st - 1 + 1) mod 255) by lia.
      rewrite Z.add_mod_idemp_l by lia. do 2 f_equal. lia.
    + rewrite IH by done. done.
Qed.

(** X28. The sequence counter has period 255: every allocation attempt,
    successful or not, advances the counter by one within [1..255],
    wrapping from 255 to 1, and frees leave it alone; so after any steps
    the counter depends only on the number of attempts, and steps with 255
    attempts among them bring it back to where it was, and with fewer
    (and at least one) never do. *)
Theorem seq_counter_period (ops : list waiter_op) (st : trans_state) :
  1 <= s_next_seq st <= 255 ->
  s_next_seq (run_ops ops st)
  = (s_next_seq st - 1 + Z.of_nat (attempts ops)) mod 255 + 1
  /\ (attempts ops = 255%nat -> s_next_seq (run_ops ops st) = s_next_seq st)
  /\ ((0 < attempts ops < 255)%nat ->
      s_next_seq (run_ops ops st) <> s_next_seq st).
Proof.
  intros Hs. rewrite (seq_counter_formula ops st Hs).
  split; [done|]. split.
  - intros ->. change (Z.of_nat 255) with (1 * 255).
    rewrite Z.mod_add, Z.mod_small by lia. lia.
  - intros Hk E.
    assert (E' : (s_next_seq st - 1 + Z.of_nat (attempts ops)) mod 255
                 = s_next_seq st - 1) by lia.
    destruct (Z_lt_le_dec (s_next_seq st - 1 + Z.of_nat (attempts ops)) 255)
      as [Hlt|Hge].
    + rewrite Z.mod_small in E' by lia. lia.
    + replace (s_next_seq st - 1 + Z.of_nat (attempts ops))
        with (s_next_seq st - 1 + Z.of_nat (attempts ops) - 255 + 1 * 255)
        in E' by lia.
      rewrite Z.mod_add, Z.mod_small in E' by lia. lia.
Qed.

(** From the initial state, 255 attempts with frees in between. *)
Lemma seq_counter_period_witness :
  s_next_seq (run_ops (concat (replicate 255 [Op_alloc; Op_free 0]))
                      rpc_trans_init)
  = s_next_seq rpc_trans_init.
Proof.
  apply (seq_counter_period (concat (replicate 255 [Op_alloc; Op_free 0]))
           rpc_trans_init); by vm_compute.
Defined.

(** ** Arguments *)

(** X29. Argument checks of [rpc_request]: when the name is null, is empty
    or has more than 32 characters, when the response buffer or the length
    pointer is null, or when [*resp_len] is below 64, the call returns
    [RPC_ERROR] at once: no waiter is taken, the sequence counter does not
    move, nothing is queued, no OS call is made, and the caller's buffer
    and length are as they were. *)
Theorem request_rejects_bad_arguments
        (W : world) (st : trans_state) (name args : option (list Z))
        (args_len : Z) (resp_buf : option (list Z)) (resp_len : option Z)
        (timeout_ms : Z) :
  ~ request_arguments_ok name resp_buf resp_len ->
  rpc_request W st name args args_len resp_buf resp_len timeout_ms
    = Some (Request_result RPC_ERROR resp_buf resp_len st []).
Proof.
  intros Hbad. unfold rpc_request, rpc_trans_request.
  destruct name as [nm|]; [|done].
  destruct (_ || _) eqn:E1; [done|].
  apply orb_false_iff in E1 as [E1a E1b]. rewrite Z.gtb_ltb in E1b.
  apply Z.ltb_ge in E1a, E1b.
  destruct resp_buf as [rb|]; [|done].
  destruct resp_len as [cap|]; [|done].
  destruct (cap <? _) eqn:E2; [done|]. apply Z.ltb_ge in E2.
  destruct Hbad. split; [by exists nm|]. split; [by eexists|by exists cap].
Qed.

Lemma request_rejects_bad_arguments_witness :
  rpc_request quiet_world rpc_trans_init (Some []) None 0
              (Some (replicate 64 0)) (Some 64) 50
    = Some (Request_result RPC_ERROR (Some (replicate 64 0)) (Some 64)
                           rpc_trans_init []).
Proof.
  apply (request_rejects_bad_arguments quiet_world rpc_trans_init (Some [])
           None 0 (Some (replicate 64 0)) (Some 64) 50).
  intros [(nm & [= <-] & [H _]) _]. by apply H.
Defined.

(** ** Streams *)

(** X30. The outcome of [rpc_stream]: for a name of 1 to 32 characters and
    at most 64 bytes of arguments it queues one STREAM message with
    sequence number 0 and returns [RPC_SUCCESS], or [RPC_ERROR] when the
    queue refuses the message; otherwise it returns [RPC_ERROR] without an
    OS call.  In no case does it take a waiter or move the sequence
    counter. *)
Theorem stream_outcome
        (W : world) (st : trans_state) (name : list Z)
        (args : option (list Z)) (args_len : Z) :
  Forall (fun c => c <> 0) name ->
  args_readable args args_len ->
  Z.of_nat (length (W_lp_uninit W)) = MAX_PAYLOAD_SIZE ->
  let lp := reply_message W MSG_STREAM 0 name (copied_args args args_len) in
  let fits :=
    MIN_FUNC_NAME_LEN <= Z.of_nat (length name) <= MAX_FUNC_NAME_LEN
    /\ args_len <= MAX_FUNC_ARGS_RESP_SIZE in
  exists rc st' log,
    rpc_stream W st (Some name) args args_len = Some (rc, st', log)
    /\ s_wait st' = s_wait st /\ s_next_seq st' = s_next_seq st
    /\ qRpcRequests st' = qRpcRequests st
    /\ (fits -> W_queue_send_ok W = true ->
        rc = RPC_SUCCESS /\ qTransToLink st' = qTransToLink st ++ [lp]
        /\ log = [Os_queue_send_TransToLink lp OS_WAIT_FOREVER true])
    /\ (fits -> W_queue_send_ok W = false ->
        rc = RPC_ERROR /\ st' = st
        /\ log = [Os_queue_send_TransToLink lp OS_WAIT_FOREVER false])
    /\ (~ fits -> rc = RPC_ERROR /\ st' = st /\ log = []).
Proof.
  intros Hname Hargs Hlp lp fits. unfold rpc_stream, rpc_trans_stream.
  rewrite (strlen_no_nul name Hname). rewrite Z.gtb_ltb.
  destruct (Z.of_nat (length name) <? MIN_FUNC_NAME_LEN) eqn:E1.
  { apply Z.ltb_lt in E1. eexists _, _, _. split; [reflexivity|].
    split_and!; try done; intros [[? _] _]; lia. }
  destruct (MAX_FUNC_NAME_LEN <? Z.of_nat (length name)) eqn:E2.
  { apply Z.ltb_lt in E2. eexists _, _, _. split; [reflexivity|].
    split_and!; try done; intros [[_ ?] _]; lia. }
  apply Z.ltb_ge in E1, E2. cbn [orb].
  destruct (decide (args_len <= MAX_FUNC_ARGS_RESP_SIZE)) as [Ha|Ha].
  - assert (Hfits : fits) by done.
    assert (Hroom : 3 + Z.of_nat (length name) + args_len
                    <= MAX_PAYLOAD_SIZE).
    { change MAX_PAYLOAD_SIZE with 99.
      change MAX_FUNC_NAME_LEN with 32 in E2.
      change MAX_FUNC_ARGS_RESP_SIZE with 64 in Ha. lia. }
    rewrite (build_msg_layout MSG_STREAM 0 name args args_len
               (W_lp_uninit W) MAX_PAYLOAD_SIZE eq_refl Hname (conj E1 E2)
               (conj (proj1 Hargs) Ha) (proj2 Hargs) Hroom
               ltac:(rewrite Hlp; lia)).
    cbn [mbind option_bind]. rewrite (proj2 (Z.eqb_neq _ 0)) by lia.
    unfold send_TransToLink. cbn [default from_option id]. fold (reply_message W MSG_STREAM 0 name (copied_args args args_len)). fold lp.
    destruct (W_queue_send_ok W); cbn [negb];
      eexists _, _, _; (split; [reflexivity|]); split_and!; done.
  - destruct (build_msg_cases MSG_STREAM 0 name args args_len (W_lp_uninit W)
                MAX_PAYLOAD_SIZE Hname Hargs ltac:(lia))
      as (size & buf & Eb & Hacc & _).
    assert (Hz : size = 0).
    { destruct (decide (size = 0)) as [|Hnz]; [done|].
      apply Hacc in Hnz. unfold build_accepts in Hnz. lia. }
    subst size. rewrite Eb. cbn [mbind option_bind].
    eexists _, _, _. split; [reflexivity|].
    split_and!; try done; intros [_ ?]; lia.
Qed.

Lemma stream_outcome_witness :
  exists rc st' log,
    rpc_stream quiet_world rpc_trans_init (Some ping_name) (Some [1; 2]) 2
      = Some (rc, st', log)
    /\ s_wait st' = s_wait rpc_trans_init
    /\ s_next_seq st' = s_next_seq rpc_trans_init
    /\ qRpcRequests st' = qRpcRequests rpc_trans_init
    /\ rc = RPC_SUCCESS
    /\ qTransToLink st'
       = qTransToLink rpc_trans_init
         ++ [reply_message quiet_world MSG_STREAM 0 ping_name
                           (copied_args (Some [1; 2]) 2)].
Proof.
  destruct (stream_outcome quiet_world rpc_trans_init ping_name
              (Some [1; 2]) 2)
    as (rc & st' & log & E & H1 & H2 & H3 & Hok & _).
  - repeat (apply List.Forall_cons; [by vm_compute|]). apply List.Forall_nil.
  - split; [lia|]. intros a [= <-]. cbn. lia.
  - reflexivity.
  - exists rc, st', log. split; [exact E|]. repeat (split; [done|]).
    destruct Hok as (-> & -> & _); [by vm_compute|reflexivity|]. done.
Defined.
